(** * epflo: extrapolation of optical-flow files (main.c)

    A shallow embedding of the FLO/FLOW codec ([read_flow], [write_flow]),
    of the bilinear resampling loop of [extrapolate] and of the option loop
    of [main], followed by the properties of the specification that were
    checked against it, by further properties of the code, and by the
    rounding analysis behind the boundary property on every grid.

    Conventions of the embedding:
    - a C [int] is a [Z] and every arithmetic result is wrapped to 32 bits
      two's complement ([Int32.wrap]); a [size_t] is a [Z] modulo 2^64;
    - a file is a [list byte]; integers and floats are stored little-endian
      (the native order of the machines this program is built for);
    - a [float] in memory is its four bytes ([float32]); arithmetic decodes
      them to an IEEE-754 binary32 value ([spec_float] with precision 24 and
      [emax] 128, round to nearest even) and encodes the result back;
    - a read or write outside an allocated buffer is a memory fault: the
      functions that touch buffers run in the monad [mem], whose [Fault]
      records the offending access. *)

From Stdlib Require Import ZArith Lia Bool.
From Stdlib Require Import QArith Qpower Lqa.
From Stdlib Require Import Floats.SpecFloat.
From Stdlib Require Import Strings.Byte.
From stdpp Require Import base option list.

Open Scope Z_scope.

(** ** Machine integers *)

Module Int32.
Definition min_signed : Z := -2147483648.
Definition max_signed : Z := 2147483647.
Definition modulus : Z := 4294967296.

(** the value of a 32-bit pattern read as a signed integer *)
Definition wrap (z : Z) : Z := (z + 2147483648) mod modulus - 2147483648.

Definition add (a b : Z) : Z := wrap (a + b).
Definition mul (a b : Z) : Z := wrap (a * b).

Definition in_range (z : Z) : Prop := min_signed <= z <= max_signed.
End Int32.

Module SizeT.
Definition modulus : Z := 18446744073709551616.
(** the largest object size malloc grants (PTRDIFF_MAX) *)
Definition max_alloc : Z := 9223372036854775807.

(** conversion of an [int] to [size_t] *)
Definition of_int (n : Z) : Z := n mod modulus.
Definition mul (a b : Z) : Z := (a * b) mod modulus.
End SizeT.

(** [sizeof(float)] and [sizeof(int)] *)
Definition sizeof_float : Z := 4.
Definition sizeof_int : Z := 4.

(** ** Bytes *)

Definition Z_of_byte (b : byte) : Z := Z.of_N (Byte.to_N b).

Definition byte_of_Z (z : Z) : byte :=
  match Byte.of_N (Z.to_N (z mod 256)) with
  | Some b => b
  | None => x00
  end.

(** the four bytes of a 32-bit pattern, least significant first *)
Definition bytes_of_word (z : Z) : list byte :=
  [byte_of_Z z; byte_of_Z (z / 256); byte_of_Z (z / 65536); byte_of_Z (z / 16777216)].

Definition word_of_bytes (b0 b1 b2 b3 : byte) : Z :=
  Z_of_byte b0 + 256 * Z_of_byte b1 + 65536 * Z_of_byte b2 + 16777216 * Z_of_byte b3.

(** an [int] as [fwrite(&i, sizeof(int), 1, fd)] stores it *)
Definition bytes_of_int (i : Z) : list byte := bytes_of_word (i mod Int32.modulus).

(** an [int] as [fread(&i, sizeof(int), 1, fd)] finds it *)
Definition int_of_bytes (b0 b1 b2 b3 : byte) : Z := Int32.wrap (word_of_bytes b0 b1 b2 b3).

(** ** Floats *)

(** a [float] object: its four bytes in memory order *)
Record float32 : Type := Float32 { fb0 : byte; fb1 : byte; fb2 : byte; fb3 : byte }.

Definition float32_bytes (s : float32) : list byte := [fb0 s; fb1 s; fb2 s; fb3 s].

Module F32.
Definition prec : Z := 24.
Definition emax : Z := 128.

Definition add := SFadd prec emax.
Definition sub := SFsub prec emax.
Definition mul := SFmul prec emax.
Definition div := SFdiv prec emax.
Definition leb := SFleb.
Definition ltb := SFltb.
Definition eqb := SFeqb.

Definition zero : spec_float := S754_zero false.
Definition one : spec_float := S754_finite false 8388608 (-23).
Definition two : spec_float := S754_finite false 8388608 (-22).
Definition minus_one : spec_float := S754_finite true 8388608 (-23).

(** [(float)i] for an [int] i *)
Definition of_int (i : Z) : spec_float := binary_normalize prec emax i 0 false.

Definition is_finite (x : spec_float) : bool :=
  match x with
  | S754_zero _ | S754_finite _ _ _ => true
  | _ => false
  end.

(** [floor(x)] as an integer; nothing for an infinity or a NaN *)
Definition floor (x : spec_float) : option Z :=
  match x with
  | S754_zero _ => Some 0
  | S754_finite s m e =>
      let n := if s then Z.neg m else Z.pos m in
      Some (if 0 <=? e then n * 2 ^ e else n / 2 ^ (- e))
  | _ => None
  end.

(** [(int)floor(x)]. C leaves the conversion of a value outside the range
    of [int] undefined; the x86-64 conversion instruction then yields
    INT_MIN, and so does this function. *)
Definition to_int_floor (x : spec_float) : Z :=
  match floor x with
  | Some z =>
      if (Int32.min_signed <=? z) && (z <=? Int32.max_signed) then z
      else Int32.min_signed
  | None => Int32.min_signed
  end.

Definition sign_bit (s : bool) : Z := if s then 2147483648 else 0.

(** the value of a binary32 bit pattern *)
Definition of_bits (z : Z) : spec_float :=
  let s := 2147483648 <=? z mod 4294967296 in
  let e := (z / 8388608) mod 256 in
  let m := z mod 8388608 in
  if e =? 0 then
    match m with
    | Z.pos p => S754_finite s p (-149)
    | _ => S754_zero s
    end
  else if e =? 255 then
    (if m =? 0 then S754_infinity s else S754_nan)
  else
    match m + 8388608 with
    | Z.pos p => S754_finite s p (e - 150)
    | _ => S754_nan
    end.

(** the bit pattern of a binary32 value; a NaN is stored as the quiet NaN
    7fc00000 (payloads are not tracked) *)
Definition to_bits (x : spec_float) : Z :=
  match x with
  | S754_zero s => sign_bit s
  | S754_infinity s => sign_bit s + 2139095040
  | S754_nan => 2143289344
  | S754_finite s m e =>
      if Z.pos m <? 8388608 then sign_bit s + Z.pos m
      else sign_bit s + (e + 150) * 8388608 + (Z.pos m - 8388608)
  end.
End F32.

Definition float32_of_word (z : Z) : float32 :=
  Float32 (byte_of_Z z) (byte_of_Z (z / 256)) (byte_of_Z (z / 65536)) (byte_of_Z (z / 16777216)).

Definition word_of_float32 (s : float32) : Z :=
  word_of_bytes (fb0 s) (fb1 s) (fb2 s) (fb3 s).

(** reading a float object as a value, and storing a value *)
Definition load (s : float32) : spec_float := F32.of_bits (word_of_float32 s).
Definition store (x : spec_float) : float32 := float32_of_word (F32.to_bits x).

(** what [memset(p, 0, n)] leaves in every float: +0.0 *)
Definition float32_zero : float32 := Float32 x00 x00 x00 x00.

(** ** File format *)

Inductive FLOformat : Type := FF_FLO | FF_FLOW.

(** header identification strings: "PIEH" and "PIEI" *)
Definition flo_formats (fmt : FLOformat) : list byte :=
  match fmt with
  | FF_FLO => [x50; x49; x45; x48]
  | FF_FLOW => [x50; x49; x45; x49]
  end.

(** number of items per block: vx, vy and, for FLOW, the confidence *)
Definition items_per_block (fmt : FLOformat) : Z :=
  match fmt with
  | FF_FLO => 2
  | FF_FLOW => 3
  end.

Record FLOfile : Type := mkFLOfile {
  flo_w : Z;
  flo_h : Z;
  flo_fmt : FLOformat;
  flo_nmemb : Z;
  flo_data : list float32
}.

(** the buffer [malloc(n)] returns for a request of [n] bytes, as a count of
    floats, or nothing when the request is refused *)
Definition malloc_floats (nbytes : Z) : option nat :=
  if nbytes <=? SizeT.max_alloc then Some (Z.to_nat (nbytes / sizeof_float)) else None.

Fixpoint floats_of_bytes (bs : list byte) : list float32 :=
  match bs with
  | b0 :: b1 :: b2 :: b3 :: rest => Float32 b0 b1 b2 b3 :: floats_of_bytes rest
  | _ => []
  end.

Definition bytes_of_floats (fs : list float32) : list byte :=
  concat (map float32_bytes fs).

(** ** read_flow *)

(** the diagnostics of [read_flow], one per [fprintf] *)
Inductive read_error : Type :=
  | CouldNotOpen          (* Could not open file *)
  | CouldNotReadHeader    (* Could not read file header *)
  | InvalidFileType       (* Invalid file type *)
  | CouldNotReadWidth     (* Could not read width *)
  | CouldNotReadHeight    (* Could not read height *)
  | InvalidWidthOrHeight  (* Invalid width or height *)
  | IncompleteData.       (* Incomplete data *)

Inductive read_result : Type :=
  | ReadOk (flow : FLOfile)
  | ReadError (e : read_error)
  | ReadFault.

Definition byte_eqb (a b : byte) : bool := Byte.eqb a b.

Definition tag_eqb (tag fmt : list byte) : bool :=
  match tag, fmt with
  | [a0; a1; a2; a3], [c0; c1; c2; c3] =>
      byte_eqb a0 c0 && byte_eqb a1 c1 && byte_eqb a2 c2 && byte_eqb a3 c3
  | _, _ => false
  end.

(** [int sz = w * h; sz *= 2 or 3] *)
Definition flow_size (fmt : FLOformat) (w h : Z) : Z :=
  Int32.mul (Int32.mul w h) (items_per_block fmt).

(** [flow->nmemb * sizeof(float)], computed in [size_t] *)
Definition data_bytes (nmemb : Z) : Z := SizeT.mul (SizeT.of_int nmemb) sizeof_float.

(** [f] is the content of the file, or [None] when it cannot be opened *)
Definition read_flow (f : option (list byte)) : read_result :=
  match f with
  | None => ReadError CouldNotOpen
  | Some bytes =>
      match bytes with
      | t0 :: t1 :: t2 :: t3 :: after_tag =>
          let tag := [t0; t1; t2; t3] in
          match
            (if tag_eqb tag (flo_formats FF_FLO) then Some FF_FLO
             else if tag_eqb tag (flo_formats FF_FLOW) then Some FF_FLOW
             else None)
          with
          | None => ReadError InvalidFileType
          | Some fmt =>
              match after_tag with
              | w0 :: w1 :: w2 :: w3 :: after_w =>
                  let w := int_of_bytes w0 w1 w2 w3 in
                  match after_w with
                  | h0 :: h1 :: h2 :: h3 :: payload =>
                      let h := int_of_bytes h0 h1 h2 h3 in
                      if (w <=? 0) || (h <=? 0) then ReadError InvalidWidthOrHeight
                      else
                        let nmemb := flow_size fmt w h in
                        let want := data_bytes nmemb in
                        match malloc_floats want with
                        | Some _ =>
                            if Z.of_nat (length payload) <? want
                            then ReadError IncompleteData
                            else ReadOk (mkFLOfile w h fmt nmemb
                                           (floats_of_bytes (take (Z.to_nat want) payload)))
                        | None =>
                            (* the result of malloc is not tested: reading any
                               byte into the null buffer faults *)
                            match payload with
                            | [] => ReadError IncompleteData
                            | _ :: _ => ReadFault
                            end
                        end
                  | _ => ReadError CouldNotReadHeight
                  end
              | _ => ReadError CouldNotReadWidth
              end
          end
      | _ => ReadError CouldNotReadHeader
      end
  end.

(** ** write_flow *)

(** the bytes [write_flow] sends to an opened file *)
Definition flow_bytes (flo : FLOfile) : list byte :=
  flo_formats (flo_fmt flo)
  ++ bytes_of_int (flo_w flo)
  ++ bytes_of_int (flo_h flo)
  ++ take (Z.to_nat (data_bytes (flo_nmemb flo))) (bytes_of_floats (flo_data flo)).

(** [openable] tells whether [fopen(f, "w")] succeeds; the result is the
    return value and the content of the file written *)
Definition write_flow (openable : bool) (flo : FLOfile) : Z * option (list byte) :=
  if openable then (0, Some (flow_bytes flo)) else (-1, None).

(** ** Memory faults *)

Inductive fault : Type :=
  | BadAlloc                (* a null buffer is written *)
  | BadRead (idx : Z)       (* a float is read outside its buffer *)
  | BadWrite (idx : Z)      (* a float is written outside its buffer *)
  | BadWeight (wx wy : Z).  (* weight[wx][wy] outside the 2x2 array *)

Inductive mem (A : Type) : Type :=
  | Ok (a : A)
  | Fault (f : fault).
Arguments Ok {A} a.
Arguments Fault {A} f.

#[global] Instance mem_ret : MRet mem := fun A a => Ok a.
#[global] Instance mem_bind : MBind mem :=
  fun A B k m => match m with Ok a => k a | Fault f => Fault f end.

(** [p[idx]] for a buffer of [length data] floats *)
Definition peek (data : list float32) (idx : Z) : mem float32 :=
  if idx <? 0 then Fault (BadRead idx)
  else match data !! Z.to_nat idx with
       | Some s => Ok s
       | None => Fault (BadRead idx)
       end.

(** [p[idx] = s] *)
Definition poke (data : list float32) (idx : Z) (s : float32) : mem (list float32) :=
  if (idx <? 0) || (Z.of_nat (length data) <=? idx) then Fault (BadWrite idx)
  else Ok (<[Z.to_nat idx := s]> data).

(** [for (i = lo; i < hi; i++) body], run on a state *)
Fixpoint for_steps {S : Type} (n : nat) (i : Z) (body : Z -> S -> mem S) (s : S) : mem S :=
  match n with
  | O => Ok s
  | Datatypes.S n' => s' ← body i s; for_steps n' (i + 1) body s'
  end.

Definition for_lt {S : Type} (lo hi : Z) (body : Z -> S -> mem S) (s : S) : mem S :=
  for_steps (Z.to_nat (hi - lo)) lo body s.

(** ** interpolate2D_weights *)

(** the array [float w[2][2]]; field [wXY] is [w[X][Y]] *)
Record weights : Type := mkWeights {
  w00 : spec_float;
  w10 : spec_float;
  w01 : spec_float;
  w11 : spec_float
}.

Definition interpolate2D_weights (rx ry : spec_float) : weights :=
  let iy := F32.to_int_floor ry in
  let ix := F32.to_int_floor rx in
  let y := F32.sub ry (F32.of_int iy) in
  let x := F32.sub rx (F32.of_int ix) in
  {| w00 := F32.mul (F32.sub F32.one x) (F32.sub F32.one y);
     w10 := F32.mul x (F32.sub F32.one y);
     w01 := F32.mul (F32.sub F32.one x) y;
     w11 := F32.mul x y |}.

(** [weight[wx][wy]] *)
Definition weight_at (wt : weights) (wx wy : Z) : mem spec_float :=
  match wx, wy with
  | 0, 0 => Ok (w00 wt)
  | 1, 0 => Ok (w10 wt)
  | 0, 1 => Ok (w01 wt)
  | 1, 1 => Ok (w11 wt)
  | _, _ => Fault (BadWeight wx wy)
  end.

(** ** Index macros *)

Definition IDX (ch : Z) (flow_w x y npb : Z) : Z :=
  Int32.add (Int32.add (Int32.mul y (Int32.mul flow_w npb)) (Int32.mul x npb)) ch.

Definition U_IDX (flow : FLOfile) (x y npb : Z) : Z := IDX 0 (flo_w flow) x y npb.
Definition V_IDX (flow : FLOfile) (x y npb : Z) : Z := IDX 1 (flo_w flow) x y npb.
Definition C_IDX (flow : FLOfile) (x y npb : Z) : Z := IDX 2 (flo_w flow) x y npb.

(** ** extrapolate *)

Definition EXIT_SUCCESS : Z := 0.
Definition EXIT_FAILURE : Z := 1.

(** the running sums [u], [v], [c] of one destination cell *)
Record sums : Type := mkSums { sum_u : spec_float; sum_v : spec_float; sum_c : spec_float }.

Definition sums_zero : sums := mkSums F32.zero F32.zero F32.zero.

(** the body of the two inner loops at corner [(ix, iy)], lines 273-277;
    the format tested at line 276 is that of the source (line 230) *)
Definition corner (in_flo : FLOfile) (npb : Z) (wt : weights)
    (ix iy wx wy : Z) (acc : sums) : mem sums :=
  if (flo_w in_flo <=? ix) || (flo_h in_flo <=? iy) then Ok acc
  else
    wgt ← weight_at wt wx wy;
    su ← peek (flo_data in_flo) (U_IDX in_flo ix iy npb);
    let u := F32.add (sum_u acc) (F32.mul wgt (load su)) in
    sv ← peek (flo_data in_flo) (V_IDX in_flo ix iy npb);
    let v := F32.add (sum_v acc) (F32.mul wgt (load sv)) in
    match flo_fmt in_flo with
    | FF_FLOW =>
        sc ← peek (flo_data in_flo) (C_IDX in_flo ix iy npb);
        Ok (mkSums u v (F32.add (sum_c acc) (F32.mul wgt (load sc))))
    | FF_FLO => Ok (mkSums u v (sum_c acc))
    end.

(** the sums of destination cell [(x, y)], lines 256-279 *)
Definition sample_cell (in_flo : FLOfile) (npb : Z) (sx sy : spec_float) (x y : Z) : mem sums :=
  let rx := F32.div (F32.of_int x) sx in
  let ry := F32.div (F32.of_int y) sy in
  let kx1 := F32.to_int_floor rx in
  let ky1 := F32.to_int_floor ry in
  let kx2 := Int32.add kx1 2 in
  let ky2 := Int32.add ky1 2 in
  let wt := interpolate2D_weights rx ry in
  for_lt ky1 ky2 (fun iy acc =>
    for_lt kx1 kx2 (fun ix acc =>
      corner in_flo npb wt ix iy (ix - kx1) (iy - ky1) acc) acc) sums_zero.

(** the stores of lines 280-283 *)
Definition store_cell (out_w : Z) (fmt : FLOformat) (npb x y : Z) (s : sums)
    (data : list float32) : mem (list float32) :=
  d1 ← poke data (IDX 0 out_w x y npb) (store (sum_u s));
  d2 ← poke d1 (IDX 1 out_w x y npb) (store (sum_v s));
  match fmt with
  | FF_FLOW => poke d2 (IDX 2 out_w x y npb) (store (sum_c s))
  | FF_FLO => Ok d2
  end.

(** [if (s <= 0.0f) s = (float)target / (float)source] *)
Definition effective_scale (s : spec_float) (target source : Z) : spec_float :=
  if F32.leb s F32.zero then F32.div (F32.of_int target) (F32.of_int source) else s.

(** [out_flo] after [malloc] and [memset], lines 229-247 *)
Definition alloc_out (in_flo : FLOfile) (w h : Z) : mem FLOfile :=
  let npb := items_per_block (flo_fmt in_flo) in
  let nmemb := Int32.mul (Int32.mul npb w) h in
  match malloc_floats (data_bytes nmemb) with
  | Some n => Ok (mkFLOfile w h (flo_fmt in_flo) nmemb (replicate n float32_zero))
  | None => Fault BadAlloc
  end.

(** the part of [extrapolate] between [read_flow] and [write_flow],
    lines 229-285: the field computed from the field read *)
Definition resample (in_flo : FLOfile) (w h : Z) (sx sy : spec_float) : mem FLOfile :=
  out_flo ← alloc_out in_flo w h;
  let npb := items_per_block (flo_fmt in_flo) in
  let sx := effective_scale sx w (flo_w in_flo) in
  let sy := effective_scale sy h (flo_h in_flo) in
  data ← for_lt 0 h (fun y data =>
            for_lt 0 w (fun x data =>
              s ← sample_cell in_flo npb sx sy x y;
              store_cell (flo_w out_flo) (flo_fmt out_flo) npb x y s data) data)
          (flo_data out_flo);
  Ok (mkFLOfile (flo_w out_flo) (flo_h out_flo) (flo_fmt out_flo) (flo_nmemb out_flo) data).

(** [stat] succeeds on the input *)
Definition test_file (f : option (list byte)) : bool :=
  match f with Some _ => true | None => false end.

Definition test_files (inf : option (list byte)) : bool := test_file inf.

(** how a run ends: [return status] with the content of the output file if
    one was written, or a memory fault *)
Inductive run : Type :=
  | Exit (status : Z) (written : option (list byte))
  | Crash.

(** [inf] is the content of the input file ([None]: missing or unreadable),
    [out_openable] whether the output file can be opened for writing *)
Definition extrapolate (w h : Z) (sx sy : spec_float)
    (inf : option (list byte)) (out_openable : bool) : run :=
  if negb (test_files inf) then Exit EXIT_FAILURE None
  else
    match read_flow inf with
    | ReadError _ => Exit EXIT_FAILURE None
    | ReadFault => Crash
    | ReadOk in_flo =>
        match resample in_flo w h sx sy with
        | Fault _ => Crash
        | Ok out_flo =>
            (* the value returned by write_flow is dropped *)
            let written := snd (write_flow out_openable out_flo) in
            Exit EXIT_SUCCESS written
        end
    end.

(** ** main *)

(** the options after [getopt]: [-w], [-h], [-x], [-y] *)
Record options : Type := mkOptions {
  opt_w : option Z;
  opt_h : option Z;
  opt_x : option spec_float;
  opt_y : option spec_float
}.

(** [sx = sy = -1.0] unless [-x] or [-y] is given *)
Definition scale_arg (o : option spec_float) : spec_float :=
  match o with Some s => s | None => F32.minus_one end.

Definition main (o : options) (inf : option (list byte)) (out_openable : bool) : run :=
  match opt_w o, opt_h o with
  | Some w, Some h => extrapolate w h (scale_arg (opt_x o)) (scale_arg (opt_y o)) inf out_openable
  | _, _ => Exit EXIT_FAILURE None
  end.

(** ** Well-formed fields *)

(** A [FLOfile] as the specification's MotionField: positive dimensions, a
    buffer of exactly [w * h * channels] floats, and [int] members that hold
    their values. *)
Definition valid_field (f : FLOfile) : Prop :=
  0 < flo_w f /\ 0 < flo_h f /\
  flo_nmemb f = flo_w f * flo_h f * items_per_block (flo_fmt f) /\
  flo_nmemb f <= Int32.max_signed /\
  length (flo_data f) = Z.to_nat (flo_nmemb f).

(** ** The specification's vocabulary *)

(** the error kinds of the specification *)
Inductive error_kind : Type :=
  | InputUnavailable
  | InvalidHeader
  | TruncatedHeader
  | InvalidDimensions
  | TruncatedData.

(** the kind each diagnostic of [read_flow] stands for: a short or unknown
    tag is an invalid header, a short width or height a truncated header *)
Definition error_kind_of (e : read_error) : error_kind :=
  match e with
  | CouldNotOpen => InputUnavailable
  | CouldNotReadHeader | InvalidFileType => InvalidHeader
  | CouldNotReadWidth | CouldNotReadHeight => TruncatedHeader
  | InvalidWidthOrHeight => InvalidDimensions
  | IncompleteData => TruncatedData
  end.

(** the twelve bytes in front of the samples *)
Definition header (fmt : FLOformat) (w h : Z) : list byte :=
  flo_formats fmt ++ bytes_of_int w ++ bytes_of_int h.

(** the number of floats the specification gives a field *)
Definition sample_count (fmt : FLOformat) (w h : Z) : Z := w * h * items_per_block fmt.

(** the value of channel [ch] (0: u, 1: v, 2: c) of cell [(x, y)], read the
    way the macros [_U], [_V] and [_C] read it *)
Definition channel (flow : FLOfile) (ch x y : Z) : mem spec_float :=
  s ← peek (flo_data flow) (IDX ch (flo_w flow) x y (items_per_block (flo_fmt flow)));
  Ok (load s).

(** ** Fields and values used in the examples *)

Definition float32_of_int (i : Z) : float32 := store (F32.of_int i).

(** 0.75, 0.5 and 0.25 *)
Definition three_quarters : spec_float := S754_finite false 12582912 (-24).
Definition one_half : spec_float := S754_finite false 8388608 (-24).
Definition one_quarter : spec_float := S754_finite false 8388608 (-25).

(** the 2x2 field of the end-to-end example:
    (0,0)=(1,0), (1,0)=(2,0), (0,1)=(0,1), (1,1)=(0,2) *)
Definition example_field : FLOfile :=
  mkFLOfile 2 2 FF_FLO 8 (map float32_of_int [1; 0; 2; 0; 0; 1; 0; 2]).

(** a 4x4 field of the samples 1, 2, ..., 32: u = 1, 3, 5, ... and
    v = 2, 4, 6, ... along the rows *)
Definition ramp_field : FLOfile :=
  mkFLOfile 4 4 FF_FLO 32
    (map (fun i => float32_of_int (Z.of_nat i)) (seq 1 32)).

(** a [w] x [h] field whose samples all are [s] *)
Definition constant_field (fmt : FLOformat) (w h : Z) (s : float32) : FLOfile :=
  mkFLOfile w h fmt (sample_count fmt w h) (replicate (Z.to_nat (sample_count fmt w h)) s).

(** ** Notions used in the statements and proofs *)

(** a value with the sign of a zero dropped: what adding it to +0.0 gives *)
Definition drop_zero_sign (v : spec_float) : spec_float :=
  match v with
  | S754_zero _ => S754_zero false
  | _ => v
  end.

(** a finite value other than -0.0 *)
Definition settled (v : spec_float) : Prop :=
  F32.is_finite v = true /\ v <> S754_zero true.

Definition settled_sums (acc : sums) : Prop :=
  settled (sum_u acc) /\ settled (sum_v acc) /\ settled (sum_c acc).

Definition all_finite (f : FLOfile) : Prop :=
  Forall (fun s => F32.is_finite (load s) = true) (flo_data f).

Definition sample_value (f : FLOfile) (i : Z) : spec_float :=
  load (default float32_zero (flo_data f !! Z.to_nat i)).

(** the position of the first channel of cell [(x, y)] *)
Definition cell_index (f : FLOfile) (x y : Z) : Z :=
  (y * flo_w f + x) * items_per_block (flo_fmt f).

(** the sums the identity resampling leaves for cell [(x, y)] *)
Definition identity_sums (f : FLOfile) (x y : Z) : sums :=
  let k := cell_index f x y in
  mkSums (drop_zero_sign (sample_value f k))
         (drop_zero_sign (sample_value f (k + 1)))
         (match flo_fmt f with
          | FF_FLOW => drop_zero_sign (sample_value f (k + 2))
          | FF_FLO => F32.zero
          end).

(** the floats of the cell that starts at [k] are the stored sums [s] *)
Definition stored_cell (data : list float32) (k : Z) (fmt : FLOformat) (s : sums) : Prop :=
  data !! Z.to_nat k = Some (store (sum_u s)) /\
  data !! Z.to_nat (k + 1) = Some (store (sum_v s)) /\
  (fmt = FF_FLOW -> data !! Z.to_nat (k + 2) = Some (store (sum_c s))).

(** the mantissa left when [m] is shifted right by [n] bits and rounded to
    nearest, ties to even *)
Definition shift_round (n m : positive) : Z :=
  let r := SpecFloat.iter_pos shr_1 n {| shr_m := Z.pos m; shr_r := false; shr_s := false |} in
  round_nearest_even (shr_m r) (loc_of_shr_record r).

(** the result of rounding a mantissa already aligned on the smallest
    exponent *)
Definition at_emin (s : bool) (z : Z) : spec_float :=
  match z with
  | 0 => S754_zero s
  | Z.pos m => S754_finite s m (-149)
  | Z.neg _ => S754_nan
  end.

(** the value the resampling of a constant 2x2 field to 4x4 leaves in a
    cell of the last row or column, from the sample value [v] *)
Definition edge_value (x y : Z) (v : spec_float) : spec_float :=
  if (x =? 3) && (y =? 3) then F32.add F32.zero (F32.mul one_quarter v)
  else if (x =? 1) || (y =? 1) then
    F32.add (F32.add F32.zero (F32.mul one_quarter v)) (F32.mul one_quarter v)
  else if (x =? 2) || (y =? 2) then F32.add F32.zero (F32.mul one_half v)
  else F32.add (F32.add F32.zero (F32.mul one_half v)) (F32.mul F32.zero v).

(** a value that is not a negative finite number: its floor, when it has
    one, is not negative *)
Definition not_negative (x : spec_float) : Prop :=
  match x with
  | S754_finite true _ _ => False
  | _ => True
  end.

(** a scale that compares greater than 0.0 *)
Definition positive_scale (s : spec_float) : Prop := F32.ltb F32.zero s = true.

(** 2^-37, about 7.3e-12 *)
Definition tiny_scale : spec_float := S754_finite false 8388608 (-60).

(** 2^-149, the smallest positive binary32 value *)
Definition smallest_subnormal : spec_float := S754_finite false 1 (-149).

(** a 1x1 field of the 3-channel format *)
Definition one_cell_flow : FLOfile := constant_field FF_FLOW 1 1 (float32_of_int 1).

(** a 3x3 field of ones whose cell (2,1) holds +infinity in its first
    channel *)
Definition infinity_field : FLOfile :=
  mkFLOfile 3 3 FF_FLO 18
    (<[10%nat := store (S754_infinity false)]> (replicate 18 (float32_of_int 1))).

(** ** The channels of a cell *)

(** the component of the sums stored in channel [ch] *)
Definition sums_channel (ch : Z) (s : sums) : spec_float :=
  if ch =? 0 then sum_u s else if ch =? 1 then sum_v s else sum_c s.

(** ** The option loop of main *)

(** what one call of [getopt(argc, argv, "Hw:h:x:y:")] returns, with
    [optarg] already converted the way the loop converts it: [atoi] for
    [-w] and [-h], [atof] narrowed to [float] for [-x] and [-y];
    [Opt_other] is any value the [switch] has no case for *)
Inductive getopt_event : Type :=
  | Opt_H
  | Opt_h (arg : Z)
  | Opt_w (arg : Z)
  | Opt_x (arg : spec_float)
  | Opt_y (arg : spec_float)
  | Opt_other.

(** the variables [wb], [hb], [w], [h], [sx], [sy] of [main] *)
Record main_vars : Type := mkVars {
  var_wb : bool;
  var_hb : bool;
  var_w : Z;
  var_h : Z;
  var_sx : spec_float;
  var_sy : spec_float
}.

(** [wb = hb = false; w = h = 0; sx = sy = -1.0] *)
Definition main_init : main_vars := mkVars false false 0 0 F32.minus_one F32.minus_one.

(** the [while] loop of lines 310-334: the status returned from inside the
    loop, or the variables when [getopt] has returned -1 *)
Fixpoint main_loop (events : list getopt_event) (v : main_vars) : Z + main_vars :=
  match events with
  | [] => inr v
  | Opt_H :: _ => inl EXIT_SUCCESS
  | Opt_h a :: rest =>
      main_loop rest (mkVars (var_wb v) true (var_w v) a (var_sx v) (var_sy v))
  | Opt_w a :: rest =>
      main_loop rest (mkVars true (var_hb v) a (var_h v) (var_sx v) (var_sy v))
  | Opt_x a :: rest =>
      main_loop rest (mkVars (var_wb v) (var_hb v) (var_w v) (var_h v) a (var_sy v))
  | Opt_y a :: rest =>
      main_loop rest (mkVars (var_wb v) (var_hb v) (var_w v) (var_h v) (var_sx v) a)
  | Opt_other :: _ => inl EXIT_FAILURE
  end.

(** [main] with its tests on [argc]: [events] is what the calls of [getopt]
    return in turn, [positional] is [argc - optind] after the loop, [inf]
    and [out_openable] stand for [argv[optind]] and [argv[optind+1]] *)
Definition main_argv (argc : Z) (events : list getopt_event) (positional : Z)
    (inf : option (list byte)) (out_openable : bool) : run :=
  if argc <=? 1 then Exit EXIT_FAILURE None
  else
    match main_loop events main_init with
    | inl status => Exit status None
    | inr v =>
        if negb (var_wb v) || negb (var_hb v) then Exit EXIT_FAILURE None
        else if negb (positional =? 2) then Exit EXIT_FAILURE None
        else extrapolate (var_w v) (var_h v) (var_sx v) (var_sy v) inf out_openable
    end.

(** the argument of the last occurrence of an option *)
Definition last_arg {A : Type} (pick : getopt_event -> option A)
    (events : list getopt_event) : option A :=
  last (omap pick events).

Definition pick_w (e : getopt_event) : option Z :=
  match e with Opt_w a => Some a | _ => None end.
Definition pick_h (e : getopt_event) : option Z :=
  match e with Opt_h a => Some a | _ => None end.
Definition pick_x (e : getopt_event) : option spec_float :=
  match e with Opt_x a => Some a | _ => None end.
Definition pick_y (e : getopt_event) : option spec_float :=
  match e with Opt_y a => Some a | _ => None end.

(** an option that sets a variable: neither [-H] nor an unknown one *)
Definition setting (e : getopt_event) : Prop := e <> Opt_H /\ e <> Opt_other.

(** ** The sum of a cell, written out *)

(** the sample of channel [ch] of source cell [(ix, iy)], as a value *)
Definition source_value (f : FLOfile) (ch ix iy : Z) : spec_float :=
  sample_value f (cell_index f ix iy + ch).

(** one pass of lines 273-277 over channel [ch]: the corner is added with
    its weight when it lies inside the source, skipped otherwise *)
Definition accumulate (f : FLOfile) (ch : Z) (wgt : spec_float) (ix iy : Z)
    (acc : spec_float) : spec_float :=
  if (ix <? flo_w f) && (iy <? flo_h f)
  then F32.add acc (F32.mul wgt (source_value f ch ix iy))
  else acc.

(** the four passes in the order of the loops: [(kx, ky)] with [w[0][0]],
    [(kx+1, ky)] with [w[1][0]], [(kx, ky+1)] with [w[0][1]] and
    [(kx+1, ky+1)] with [w[1][1]], starting from 0.0 *)
Definition bilinear (f : FLOfile) (ch : Z) (wt : weights) (kx ky : Z) : spec_float :=
  accumulate f ch (w11 wt) (kx + 1) (ky + 1)
    (accumulate f ch (w01 wt) kx (ky + 1)
       (accumulate f ch (w10 wt) (kx + 1) ky
          (accumulate f ch (w00 wt) kx ky F32.zero))).

Definition bilinear_sums (f : FLOfile) (wt : weights) (kx ky : Z) : sums :=
  mkSums (bilinear f 0 wt kx ky) (bilinear f 1 wt kx ky)
         (match flo_fmt f with
          | FF_FLOW => bilinear f 2 wt kx ky
          | FF_FLO => F32.zero
          end).


(** ** Values and rounding *)

(** 2^e as a rational *)
Definition pow2 (e : Z) : Q := (2 ^ e)%Q.

(** the absolute value of a finite binary32 number, as a rational *)
Definition magnitude (x : spec_float) : Q :=
  match x with
  | S754_finite _ m e => (inject_Z (Z.pos m) * pow2 e)%Q
  | _ => 0%Q
  end.

(** a zero, or a finite number of sign [s] *)
Definition signed (s : bool) (x : spec_float) : Prop :=
  match x with
  | S754_zero _ => True
  | S754_finite s' _ _ => s' = s
  | _ => False
  end.

(** a binary32 number that is a zero or finite of sign [s] *)
Definition finite_signed (s : bool) (x : spec_float) : Prop :=
  valid_binary 24 128 x = true /\ signed s x.

(** 2^-24, the largest relative error of rounding to nearest, and 2^-149,
    the smallest positive binary32 value *)
Definition unit_roundoff : Q := (1 # 16777216)%Q.
Definition least_positive : Q := (1 # 713623846352979940529142984724747568191373312)%Q.

(** [x] is [q * 2^E] with sign [s], as [binary_round_aux] returns it *)
Definition rounded (s : bool) (q E : Z) (x : spec_float) : Prop :=
  (q = 0 /\ x = S754_zero s) \/
  exists m e, x = S754_finite s m e /\ bounded 24 128 m e = true /\
              E <= e /\ q = Z.pos m * 2 ^ (e - E).

(** the record [rec] is the quotient N / D with the position of the
    remainder: exact, below, at or above the half *)
Definition located (rec : shr_record) (N D : Z) : Prop :=
  shr_m rec = N / D /\
  match shr_r rec, shr_s rec with
  | false, false => N mod D = 0
  | false, true => 0 < 2 * (N mod D) < D
  | true, false => 2 * (N mod D) = D
  | true, true => D < 2 * (N mod D)
  end.

(** [v] is smaller than [k] in magnitude, by the comparison of the program *)
Definition smaller_magnitude (v k : spec_float) : Prop :=
  F32.ltb (SFabs v) (SFabs k) = true.

(** * Properties *)

(** ** Integers and bytes *)

Lemma wrap_small z : Int32.in_range z -> Int32.wrap z = z.
Proof.
  unfold Int32.in_range, Int32.wrap, Int32.min_signed, Int32.max_signed, Int32.modulus.
  intros H. rewrite Z.mod_small; lia.
Qed.

Lemma Z_of_byte_range b : 0 <= Z_of_byte b < 256.
Proof.
  unfold Z_of_byte. pose proof (Byte.to_N_bounded b). lia.
Qed.

Lemma Z_of_byte_of_Z z : Z_of_byte (byte_of_Z z) = z mod 256.
Proof.
  unfold Z_of_byte, byte_of_Z.
  pose proof (Z.mod_pos_bound z 256 eq_refl) as Hb.
  destruct (Byte.of_N (Z.to_N (z mod 256))) as [b|] eqn:E.
  - apply Byte.to_of_N in E. rewrite E. rewrite Z2N.id; lia.
  - apply Byte.of_N_None_iff in E. lia.
Qed.

Lemma word_of_bytes_of_word z :
  0 <= z < 4294967296 ->
  word_of_bytes (byte_of_Z z) (byte_of_Z (z / 256)) (byte_of_Z (z / 65536))
                (byte_of_Z (z / 16777216)) = z.
Proof.
  intros Hz. unfold word_of_bytes. rewrite !Z_of_byte_of_Z.
  Z.div_mod_to_equations. lia.
Qed.

Lemma int_of_bytes_of_int i b0 b1 b2 b3 :
  Int32.in_range i ->
  bytes_of_int i = [b0; b1; b2; b3] ->
  int_of_bytes b0 b1 b2 b3 = i.
Proof.
  unfold bytes_of_int, bytes_of_word, int_of_bytes. intros Hi E.
  injection E as <- <- <- <-.
  pose proof (Z.mod_pos_bound i Int32.modulus eq_refl) as Hm.
  rewrite word_of_bytes_of_word by exact Hm.
  unfold Int32.in_range, Int32.min_signed, Int32.max_signed in Hi.
  unfold Int32.wrap, Int32.modulus in *.
  Z.div_mod_to_equations. lia.
Qed.

(** ** The codec *)

Lemma length_bytes_of_floats l : length (bytes_of_floats l) = (4 * length l)%nat.
Proof.
  unfold bytes_of_floats. induction l as [|s l IH]; simpl in *; [reflexivity|].
  rewrite IH. lia.
Qed.

Lemma floats_of_bytes_of_floats l : floats_of_bytes (bytes_of_floats l) = l.
Proof.
  unfold bytes_of_floats. induction l as [|[b0 b1 b2 b3] l IH]; simpl in *; [reflexivity|].
  rewrite IH. reflexivity.
Qed.

Lemma data_bytes_small n :
  0 <= n <= Int32.max_signed -> data_bytes n = 4 * n.
Proof.
  unfold data_bytes, SizeT.mul, SizeT.of_int, SizeT.modulus, sizeof_float, Int32.max_signed.
  intros H. rewrite (Z.mod_small n) by lia. rewrite Z.mod_small; lia.
Qed.

Lemma malloc_floats_small n :
  0 <= n <= Int32.max_signed -> malloc_floats (data_bytes n) = Some (Z.to_nat n).
Proof.
  intros H. rewrite data_bytes_small by exact H.
  unfold malloc_floats, SizeT.max_alloc, sizeof_float, Int32.max_signed in *.
  destruct (Z.leb_spec (4 * n) 9223372036854775807); [|lia].
  do 2 f_equal. Z.div_mod_to_equations. lia.
Qed.

Lemma valid_field_dims f :
  valid_field f ->
  0 < flo_w f <= Int32.max_signed /\ 0 < flo_h f <= Int32.max_signed /\
  0 < flo_w f * flo_h f <= Int32.max_signed /\
  0 < flo_nmemb f <= Int32.max_signed.
Proof.
  unfold valid_field, Int32.max_signed. intros (Hw & Hh & Hn & Hmax & _).
  assert (2 <= items_per_block (flo_fmt f) <= 3) as Hc
    by (destruct (flo_fmt f); simpl; lia).
  rewrite Hn in *. nia.
Qed.

Lemma flow_size_exact fmt w h :
  0 < w -> 0 < h -> w * h * items_per_block fmt <= Int32.max_signed ->
  flow_size fmt w h = w * h * items_per_block fmt.
Proof.
  intros Hw Hh Hn. unfold flow_size, Int32.mul.
  assert (2 <= items_per_block fmt <= 3) as Hc by (destruct fmt; simpl; lia).
  unfold Int32.max_signed in Hn.
  rewrite (wrap_small (w * h))
    by (unfold Int32.in_range, Int32.min_signed, Int32.max_signed; nia).
  apply wrap_small. unfold Int32.in_range, Int32.min_signed, Int32.max_signed. nia.
Qed.

Lemma read_flow_header fmt w h payload :
  Int32.in_range w -> Int32.in_range h ->
  read_flow (Some (flo_formats fmt ++ bytes_of_int w ++ bytes_of_int h ++ payload)) =
  if (w <=? 0) || (h <=? 0) then ReadError InvalidWidthOrHeight
  else
    let nmemb := flow_size fmt w h in
    let want := data_bytes nmemb in
    match malloc_floats want with
    | Some _ =>
        if Z.of_nat (length payload) <? want then ReadError IncompleteData
        else ReadOk (mkFLOfile w h fmt nmemb (floats_of_bytes (take (Z.to_nat want) payload)))
    | None => match payload with [] => ReadError IncompleteData | _ :: _ => ReadFault end
    end.
Proof.
  intros Hw Hh.
  pose proof (int_of_bytes_of_int w _ _ _ _ Hw eq_refl) as Ew.
  pose proof (int_of_bytes_of_int h _ _ _ _ Hh eq_refl) as Eh.
  unfold read_flow, bytes_of_int, bytes_of_word.
  destruct fmt; cbn [flo_formats app].
  - rewrite (eq_refl : tag_eqb [x50; x49; x45; x48] [x50; x49; x45; x48] = true).
    cbv iota. rewrite Ew, Eh. reflexivity.
  - rewrite (eq_refl : tag_eqb [x50; x49; x45; x49] [x50; x49; x45; x48] = false).
    rewrite (eq_refl : tag_eqb [x50; x49; x45; x49] [x50; x49; x45; x49] = true).
    cbv iota. rewrite Ew, Eh. reflexivity.
Qed.

(** C2. Round trip: reading back what [write_flow] wrote for a well-formed
    field gives the same field: same width, height, format, member count and
    the same floats, byte for byte. *)
Theorem read_flow_write_flow (f : FLOfile) :
  valid_field f ->
  write_flow true f = (0, Some (flow_bytes f)) /\
  read_flow (Some (flow_bytes f)) = ReadOk f.
Proof.
  intros Hv. split; [reflexivity|].
  pose proof (valid_field_dims f Hv) as (Hw & Hh & Hwh & Hn).
  destruct Hv as (_ & _ & Hnm & _ & Hlen).
  destruct f as [w h fmt nmemb data]; cbn [flo_w flo_h flo_fmt flo_nmemb flo_data] in *.
  assert (length (bytes_of_floats data) = Z.to_nat (4 * nmemb)) as Hbytes
    by (rewrite length_bytes_of_floats, Hlen; lia).
  unfold flow_bytes; cbn [flo_w flo_h flo_fmt flo_nmemb flo_data].
  rewrite read_flow_header
    by (unfold Int32.in_range, Int32.min_signed in *; lia).
  destruct (Z.leb_spec w 0); [lia|].
  destruct (Z.leb_spec h 0); [lia|].
  cbn [orb]. cbv zeta.
  rewrite flow_size_exact by lia. rewrite <- Hnm.
  rewrite malloc_floats_small by lia.
  rewrite data_bytes_small by lia.
  rewrite !firstn_all2 by lia.
  destruct (Z.ltb_spec (Z.of_nat (length (bytes_of_floats data))) (4 * nmemb)); [lia|].
  rewrite floats_of_bytes_of_floats. reflexivity.
Qed.

Lemma tag_eqb_eq a0 a1 a2 a3 fmt :
  tag_eqb [a0; a1; a2; a3] (flo_formats fmt) = true <-> [a0; a1; a2; a3] = flo_formats fmt.
Proof.
  destruct fmt; cbn [flo_formats tag_eqb]; unfold byte_eqb; split.
  - intros H. repeat (apply andb_prop in H; destruct H as [H ?]).
    repeat match goal with E : Byte.eqb _ _ = true |- _ => apply byte_dec_bl in E end.
    congruence.
  - intros [= -> -> -> ->]. reflexivity.
  - intros H. repeat (apply andb_prop in H; destruct H as [H ?]).
    repeat match goal with E : Byte.eqb _ _ = true |- _ => apply byte_dec_bl in E end.
    congruence.
  - intros [= -> -> -> ->]. reflexivity.
Qed.

(** a stream whose tag is none of the two identifiers is refused as an
    invalid file type *)
Lemma read_flow_unknown_tag t0 t1 t2 t3 rest :
  [t0; t1; t2; t3] <> flo_formats FF_FLO ->
  [t0; t1; t2; t3] <> flo_formats FF_FLOW ->
  read_flow (Some (t0 :: t1 :: t2 :: t3 :: rest)) = ReadError InvalidFileType.
Proof.
  intros H1 H2. cbn [read_flow].
  destruct (tag_eqb [t0; t1; t2; t3] (flo_formats FF_FLO)) eqn:E1.
  { apply tag_eqb_eq in E1. contradiction. }
  destruct (tag_eqb [t0; t1; t2; t3] (flo_formats FF_FLOW)) eqn:E2.
  { apply tag_eqb_eq in E2. contradiction. }
  reflexivity.
Qed.

(** a stream shorter than a tag is refused too *)
Lemma read_flow_short_tag bytes :
  (length bytes < 4)%nat -> read_flow (Some bytes) = ReadError CouldNotReadHeader.
Proof.
  intros H. destruct bytes as [|? [|? [|? [|? ?]]]]; simpl in H; try lia; reflexivity.
Qed.

Lemma length_floats_of_bytes n : forall bs r,
  length bs = (4 * n + r)%nat -> (r < 4)%nat -> length (floats_of_bytes bs) = n.
Proof.
  induction n as [|n IH]; intros bs r Hlen Hr.
  - destruct bs as [|? [|? [|? [|? ?]]]]; simpl in *; try reflexivity; lia.
  - destruct bs as [|? [|? [|? [|? bs]]]]; simpl in Hlen; try lia.
    cbn [floats_of_bytes length]. f_equal. apply (IH bs r); lia.
Qed.

Section KnownTag.

Variables (fmt : FLOformat) (w0 w1 w2 w3 h0 h1 h2 h3 : byte) (payload : list byte).

(** a stream with a known tag, the bytes of two integers and a payload *)
Local Abbreviation stream :=
  (flo_formats fmt ++ [w0; w1; w2; w3] ++ [h0; h1; h2; h3] ++ payload).
Local Abbreviation w := (int_of_bytes w0 w1 w2 w3).
Local Abbreviation h := (int_of_bytes h0 h1 h2 h3).

(** what [read_flow] does after the tag and the two integers *)
Lemma read_flow_known_tag :
  read_flow (Some stream) =
  if (w <=? 0) || (h <=? 0) then ReadError InvalidWidthOrHeight
  else
    let nmemb := flow_size fmt w h in
    let want := data_bytes nmemb in
    match malloc_floats want with
    | Some _ =>
        if Z.of_nat (length payload) <? want then ReadError IncompleteData
        else ReadOk (mkFLOfile w h fmt nmemb (floats_of_bytes (take (Z.to_nat want) payload)))
    | None => match payload with [] => ReadError IncompleteData | _ :: _ => ReadFault end
    end.
Proof.
  unfold read_flow. destruct fmt; cbn [flo_formats app].
  - rewrite (eq_refl : tag_eqb [x50; x49; x45; x48] [x50; x49; x45; x48] = true).
    reflexivity.
  - rewrite (eq_refl : tag_eqb [x50; x49; x45; x49] [x50; x49; x45; x48] = false).
    rewrite (eq_refl : tag_eqb [x50; x49; x45; x49] [x50; x49; x45; x49] = true).
    reflexivity.
Qed.

(** a width or a height that is not positive is refused as invalid
    dimensions *)
Lemma read_flow_bad_dimensions :
  w <= 0 \/ h <= 0 -> read_flow (Some stream) = ReadError InvalidWidthOrHeight.
Proof.
  intros H. rewrite read_flow_known_tag.
  destruct (Z.leb_spec w 0); destruct (Z.leb_spec h 0); try reflexivity; lia.
Qed.

(** when the sample count fits an [int], a payload shorter than the samples
    is refused as incomplete data: no field is returned *)
Lemma read_flow_short_payload :
  0 < w -> 0 < h ->
  sample_count fmt w h <= Int32.max_signed ->
  Z.of_nat (length payload) < sample_count fmt w h * sizeof_float ->
  read_flow (Some stream) = ReadError IncompleteData.
Proof.
  intros Hw Hh Hfit Hshort. rewrite read_flow_known_tag. cbv zeta.
  unfold sample_count, sizeof_float in *.
  destruct (Z.leb_spec w 0); [lia|]. destruct (Z.leb_spec h 0); [lia|]. cbn [orb].
  rewrite flow_size_exact by lia.
  assert (0 <= w * h * items_per_block fmt) as Hpos
    by (destruct fmt; cbn [items_per_block]; nia).
  rewrite malloc_floats_small by lia.
  rewrite data_bytes_small by lia.
  destruct (Z.ltb_spec (Z.of_nat (length payload)) (4 * (w * h * items_per_block fmt)));
    [reflexivity | lia].
Qed.

(** the length [read_flow] gives a field it accepts is the wrapped product
    it computed, whatever the dimensions in the header *)
Lemma read_flow_ok_length f :
  read_flow (Some stream) = ReadOk f ->
  flo_nmemb f = flow_size fmt (flo_w f) (flo_h f) /\
  length (flo_data f) = Z.to_nat (data_bytes (flo_nmemb f) / sizeof_float).
Proof.
  rewrite read_flow_known_tag. cbv zeta.
  destruct (_ || _); [discriminate|].
  destruct (malloc_floats _) eqn:Ea; [|destruct payload; discriminate].
  destruct (Z.ltb_spec (Z.of_nat (length payload)) (data_bytes (flow_size fmt w h)))
    as [|Hge]; [discriminate|].
  intros Hok.
  apply (f_equal (fun r => match r with ReadOk g => g | _ => f end)) in Hok.
  cbv beta iota in Hok. subst f.
  cbn [flo_nmemb flo_w flo_h flo_data]. split; [reflexivity|].
  set (want := data_bytes _) in *.
  assert (0 <= want) as Hwant
    by (unfold want, data_bytes, SizeT.mul; apply Z.mod_pos_bound; reflexivity).
  unfold sizeof_float. clearbody want.
  apply (length_floats_of_bytes _ _ (Z.to_nat (want mod 4))).
  - rewrite length_take. rewrite Nat.min_l by lia.
    pose proof (Z.div_mod want 4). pose proof (Z.mod_pos_bound want 4). lia.
  - pose proof (Z.mod_pos_bound want 4). lia.
Qed.

End KnownTag.

(** the rejections in the vocabulary of the specification *)
Lemma read_flow_rejects :
  (forall bytes, (length bytes < 4)%nat ->
     exists e, read_flow (Some bytes) = ReadError e /\ error_kind_of e = InvalidHeader) /\
  (forall t0 t1 t2 t3 rest,
     [t0; t1; t2; t3] <> flo_formats FF_FLO -> [t0; t1; t2; t3] <> flo_formats FF_FLOW ->
     exists e, read_flow (Some (t0 :: t1 :: t2 :: t3 :: rest)) = ReadError e /\
               error_kind_of e = InvalidHeader) /\
  (forall fmt w0 w1 w2 w3 h0 h1 h2 h3 payload,
     int_of_bytes w0 w1 w2 w3 <= 0 \/ int_of_bytes h0 h1 h2 h3 <= 0 ->
     exists e,
       read_flow (Some (flo_formats fmt ++ [w0; w1; w2; w3] ++ [h0; h1; h2; h3] ++ payload))
       = ReadError e /\ error_kind_of e = InvalidDimensions) /\
  (forall fmt w0 w1 w2 w3 h0 h1 h2 h3 payload,
     0 < int_of_bytes w0 w1 w2 w3 -> 0 < int_of_bytes h0 h1 h2 h3 ->
     sample_count fmt (int_of_bytes w0 w1 w2 w3) (int_of_bytes h0 h1 h2 h3)
       <= Int32.max_signed ->
     Z.of_nat (length payload) <
       sample_count fmt (int_of_bytes w0 w1 w2 w3) (int_of_bytes h0 h1 h2 h3) * sizeof_float ->
     exists e,
       read_flow (Some (flo_formats fmt ++ [w0; w1; w2; w3] ++ [h0; h1; h2; h3] ++ payload))
       = ReadError e /\ error_kind_of e = TruncatedData).
Proof.
  repeat split.
  - intros bytes H. eexists. split; [apply read_flow_short_tag; exact H | reflexivity].
  - intros. eexists. split; [apply read_flow_unknown_tag; assumption | reflexivity].
  - intros. eexists. split; [apply read_flow_bad_dimensions; assumption | reflexivity].
  - intros. eexists. split; [apply read_flow_short_payload; assumption | reflexivity].
Qed.

(** C8. A stream with the tag of the 3-channel format and the positive
    dimensions 65536 x 65536 but no sample at all is accepted: the product
    of the dimensions wraps to 0 in [int], so no sample is asked for. The
    stream has fewer bytes than width * height * channels * 4 and is not
    refused as incomplete data. *)
Theorem read_flow_accepts_short_payload :
  let payload : list byte := [] in
  Z.of_nat (length payload) < sample_count FF_FLOW 65536 65536 * sizeof_float /\
  read_flow (Some (header FF_FLOW 65536 65536 ++ payload)) =
  ReadOk (mkFLOfile 65536 65536 FF_FLOW 0 []).
Proof.
  split; vm_compute; reflexivity.
Qed.

(** C9. A stream with the tag of the 2-channel format, the positive
    dimensions 2147483647 x 2147483647 and two samples is accepted, and the
    field it gives has 2 samples, not width * height * 2: the product
    wrapped in [int]. *)
Theorem read_flow_length_wraps :
  let payload := float32_bytes (store F32.one) ++ float32_bytes (store F32.two) in
  let f := mkFLOfile 2147483647 2147483647 FF_FLO 2 [store F32.one; store F32.two] in
  read_flow (Some (header FF_FLO 2147483647 2147483647 ++ payload)) = ReadOk f /\
  Z.of_nat (length (flo_data f)) <> sample_count (flo_fmt f) (flo_w f) (flo_h f).
Proof.
  split; vm_compute; [reflexivity | discriminate].
Qed.

(** ** The pipeline *)

(** [extrapolate] drops the value [write_flow] returns: once the input is
    read and resampled, the run ends with EXIT_SUCCESS whether or not the
    output could be opened *)
Lemma extrapolate_drops_write_status w h sx sy inf in_flo out_flo openable :
  read_flow (Some inf) = ReadOk in_flo ->
  resample in_flo w h sx sy = Ok out_flo ->
  extrapolate w h sx sy (Some inf) openable =
  Exit EXIT_SUCCESS (snd (write_flow openable out_flo)).
Proof.
  intros Hr Hs. unfold extrapolate. cbn [test_files test_file negb].
  rewrite Hr, Hs. reflexivity.
Qed.

(** C3. The 2x2 example field is read and resampled to 4x4, and the output
    file cannot be opened: [write_flow] returns -1 and writes nothing, yet
    [extrapolate] returns EXIT_SUCCESS, and so does [main]. *)
Theorem extrapolate_succeeds_without_output :
  let inf := Some (flow_bytes example_field) in
  (exists out_flo, resample example_field 4 4 F32.minus_one F32.minus_one = Ok out_flo /\
                   write_flow false out_flo = (-1, None)) /\
  extrapolate 4 4 F32.minus_one F32.minus_one inf false = Exit EXIT_SUCCESS None /\
  main (mkOptions (Some 4) (Some 4) None None) inf false = Exit EXIT_SUCCESS None.
Proof.
  cbv zeta. split; [|split].
  - destruct (resample example_field 4 4 F32.minus_one F32.minus_one) as [out|] eqn:E.
    + exists out. split; reflexivity.
    + vm_compute in E. discriminate.
  - vm_compute. reflexivity.
  - vm_compute. reflexivity.
Qed.

(** ** The example of the specification *)

(** C4. The 2x2 two-channel field with samples 1,0, 2,0, 0,1, 0,2 resampled
    to 4x4 with both scales 2: cell (0,0) holds the source value (1, 0);
    cell (1,1) maps to (0.5, 0.5), its four weights are 0.25, and it holds
    0.75 in both channels. *)
Theorem end_to_end_example :
  exists out,
    resample example_field 4 4 F32.two F32.two = Ok out /\
    channel out 0 0 0 = Ok F32.one /\
    channel out 1 0 0 = Ok F32.zero /\
    channel out 0 0 0 = channel example_field 0 0 0 /\
    channel out 1 0 0 = channel example_field 1 0 0 /\
    F32.div (F32.of_int 1) F32.two = one_half /\
    interpolate2D_weights one_half one_half = mkWeights one_quarter one_quarter one_quarter one_quarter /\
    channel out 0 1 1 = Ok three_quarters /\
    channel out 1 1 1 = Ok three_quarters.
Proof.
  destruct (resample example_field 4 4 F32.two F32.two) as [out|] eqn:E;
    [|vm_compute in E; discriminate].
  exists out. split; [reflexivity|].
  vm_compute in E.
  apply (f_equal (fun r => match r with Ok g => g | _ => out end)) in E.
  subst out. vm_compute. repeat split.
Qed.

(** ** Loops and buffers *)

Ltac ok_inj H :=
  match type of H with
  | Ok ?a = Ok ?b =>
      apply (f_equal (fun r => match r with Ok g => g | Fault _ => b end)) in H;
      cbv beta iota in H
  end.

Lemma for_steps_invariant {S : Type} (P : S -> Prop) (body : Z -> S -> mem S) :
  (forall i s s', P s -> body i s = Ok s' -> P s') ->
  forall n i s s', P s -> for_steps n i body s = Ok s' -> P s'.
Proof.
  intros Hbody. induction n as [|n IH]; intros i s s' Hs Hrun; cbn [for_steps] in Hrun.
  - ok_inj Hrun. subst s'. exact Hs.
  - destruct (body i s) as [s1|] eqn:E1; cbn in Hrun; [|discriminate].
    apply (IH (i + 1) s1 s'); [|exact Hrun]. exact (Hbody i s s1 Hs E1).
Qed.

Lemma for_lt_invariant {S : Type} (P : S -> Prop) (body : Z -> S -> mem S) lo hi s s' :
  (forall i s s', P s -> body i s = Ok s' -> P s') ->
  P s -> for_lt lo hi body s = Ok s' -> P s'.
Proof.
  intros Hbody Hs Hrun. exact (for_steps_invariant P body Hbody _ _ _ _ Hs Hrun).
Qed.

Lemma poke_length data idx v data' :
  poke data idx v = Ok data' -> length data' = length data.
Proof.
  unfold poke. destruct (_ || _); [discriminate|]. intros H. ok_inj H. subst data'.
  apply length_insert.
Qed.

Lemma store_cell_length out_w fmt npb x y s data data' :
  store_cell out_w fmt npb x y s data = Ok data' -> length data' = length data.
Proof.
  unfold store_cell.
  destruct (poke data _ _) as [d1|] eqn:E1; cbn; [|discriminate].
  destruct (poke d1 _ _) as [d2|] eqn:E2; cbn; [|discriminate].
  apply poke_length in E1, E2.
  destruct fmt.
  - intros H. ok_inj H. subst data'. congruence.
  - intros H. apply poke_length in H. congruence.
Qed.

(** the shape of the field [resample] returns: the dimensions asked for,
    the format of the source, and as many floats as the [int] product
    [npb * w * h] says *)
Lemma resample_shape f w h sx sy out :
  resample f w h sx sy = Ok out ->
  flo_w out = w /\ flo_h out = h /\ flo_fmt out = flo_fmt f /\
  flo_nmemb out = Int32.mul (Int32.mul (items_per_block (flo_fmt f)) w) h /\
  length (flo_data out) = Z.to_nat (data_bytes (flo_nmemb out) / sizeof_float).
Proof.
  unfold resample, alloc_out.
  destruct (malloc_floats _) as [n|] eqn:Ea; cbn; [|discriminate].
  match goal with |- context [for_lt 0 h ?b ?d] =>
    destruct (for_lt 0 h b d) as [data|] eqn:Eloop end; cbn; [|discriminate].
  intros H. ok_inj H. subst out. cbn. repeat split.
  unfold malloc_floats in Ea. destruct (_ <=? _); [|discriminate].
  apply (f_equal (fun o => match o with Some k => k | None => n end)) in Ea.
  cbv beta iota in Ea. rewrite Ea.
  revert Eloop.
  apply (for_lt_invariant (fun d => length d = n)); [|apply length_replicate].
  intros y d d' Hd. apply (for_lt_invariant (fun d => length d = n)); [|exact Hd].
  intros x d1 d2 Hd1.
  destruct (sample_cell _ _ _ _ _ _) as [s|]; cbn; [|discriminate].
  intros Hst. apply store_cell_length in Hst. congruence.
Qed.

(** when the product fits an [int] the field has as many floats as the
    specification says *)
Lemma resample_shape_exact f w h sx sy out :
  0 < w -> 0 < h -> sample_count (flo_fmt f) w h <= Int32.max_signed ->
  resample f w h sx sy = Ok out ->
  flo_w out = w /\ flo_h out = h /\ flo_fmt out = flo_fmt f /\
  flo_nmemb out = sample_count (flo_fmt f) w h /\
  Z.of_nat (length (flo_data out)) = sample_count (flo_fmt f) w h.
Proof.
  intros Hw Hh Hfit Hr. apply resample_shape in Hr.
  destruct Hr as (Ew & Eh & Ef & En & El).
  unfold sample_count, Int32.max_signed in *.
  assert (2 <= items_per_block (flo_fmt f) <= 3) as Hc
    by (destruct (flo_fmt f); cbn; lia).
  assert (flo_nmemb out = w * h * items_per_block (flo_fmt f)) as En'.
  { rewrite En. unfold Int32.mul.
    rewrite (wrap_small (items_per_block (flo_fmt f) * w))
      by (unfold Int32.in_range, Int32.min_signed, Int32.max_signed; nia).
    rewrite wrap_small
      by (unfold Int32.in_range, Int32.min_signed, Int32.max_signed; nia).
    lia. }
  repeat split; try assumption.
  rewrite El, En'. rewrite data_bytes_small by (unfold Int32.max_signed; nia).
  unfold sizeof_float.
  rewrite Z.mul_comm, Z.div_mul by lia. nia.
Qed.

(** C5. Resampling the 2x2 example field to 65536 x 65536: the member count
    [npb * w * h] wraps to 0 in [int], the buffer allocated has no float
    instead of 65536 * 65536 * 2, and the store of the first cell is outside
    it. No field with width * height * channels samples is produced. *)
Theorem resample_length_wraps :
  sample_count (flo_fmt example_field) 65536 65536 = 8589934592 /\
  alloc_out example_field 65536 65536 = Ok (mkFLOfile 65536 65536 FF_FLO 0 []) /\
  resample example_field 65536 65536 F32.minus_one F32.minus_one = Fault (BadWrite 0).
Proof.
  split; [reflexivity|]. split; vm_compute; reflexivity.
Qed.

(** ** Default scales *)

Lemma effective_scale_default s target source :
  F32.leb s F32.zero = true ->
  effective_scale s target source = F32.div (F32.of_int target) (F32.of_int source).
Proof.
  intros H. unfold effective_scale. rewrite H. reflexivity.
Qed.

Lemma effective_scale_idempotent s target source :
  effective_scale (effective_scale s target source) target source =
  effective_scale s target source.
Proof.
  unfold effective_scale. destruct (F32.leb s F32.zero) eqn:E; [|rewrite E; reflexivity].
  match goal with |- (if ?c then _ else _) = _ => destruct c; reflexivity end.
Qed.

Lemma resample_effective_scale f w h sx sy :
  resample f w h sx sy =
  resample f w h (effective_scale sx w (flo_w f)) (effective_scale sy h (flo_h f)).
Proof.
  unfold resample. rewrite !effective_scale_idempotent. reflexivity.
Qed.

Lemma resample_scales_ext f w h sx sy tx ty :
  effective_scale sx w (flo_w f) = effective_scale tx w (flo_w f) ->
  effective_scale sy h (flo_h f) = effective_scale ty h (flo_h f) ->
  resample f w h sx sy = resample f w h tx ty.
Proof.
  intros Ex Ey. rewrite (resample_effective_scale f w h sx sy), Ex, Ey.
  symmetry. apply resample_effective_scale.
Qed.

Lemma effective_scale_quotient s target source :
  F32.leb s F32.zero = true ->
  effective_scale s target source =
  effective_scale (F32.div (F32.of_int target) (F32.of_int source)) target source.
Proof.
  intros H. rewrite <- (effective_scale_default s target source H).
  symmetry. apply effective_scale_idempotent.
Qed.

(** C7. Each scale is replaced on its own: a scale that is absent ([main]
    then passes -1.0) or not positive is replaced by target / source of its
    axis, computed in [float], whatever the scale of the other axis is, and
    the field computed is the one computed when that quotient is passed
    in its place. For a 4x4 source and an 8x8 target a run without [-x]
    is the run with [-x 2], a run without [-y] is the run with [-y 2],
    and the run without both is the run with [-x 2 -y 2]. *)
Theorem default_scale_derivation (f : FLOfile) (w h : Z) (s : spec_float) :
  F32.leb s F32.zero = true ->
  effective_scale s w (flo_w f) = F32.div (F32.of_int w) (F32.of_int (flo_w f)) /\
  effective_scale s h (flo_h f) = F32.div (F32.of_int h) (F32.of_int (flo_h f)) /\
  (forall sy, resample f w h s sy =
     resample f w h (F32.div (F32.of_int w) (F32.of_int (flo_w f))) sy) /\
  (forall sx, resample f w h sx s =
     resample f w h sx (F32.div (F32.of_int h) (F32.of_int (flo_h f)))) /\
  (forall t, F32.leb t F32.zero = true ->
     resample f w h s t =
     resample f w h (F32.div (F32.of_int w) (F32.of_int (flo_w f)))
                    (F32.div (F32.of_int h) (F32.of_int (flo_h f)))) /\
  F32.leb (scale_arg None) F32.zero = true /\
  (flo_w f = 4 -> flo_h f = 4 ->
   (forall sy, resample f 8 8 s sy = resample f 8 8 F32.two sy) /\
   (forall sx, resample f 8 8 sx s = resample f 8 8 sx F32.two) /\
   (forall t, F32.leb t F32.zero = true ->
      resample f 8 8 s t = resample f 8 8 F32.two F32.two) /\
   resample f 8 8 (scale_arg None) (scale_arg None) = resample f 8 8 F32.two F32.two /\
   forall inf openable o,
     read_flow inf = ReadOk f ->
     main (mkOptions (Some 8) (Some 8) None o) inf openable =
     main (mkOptions (Some 8) (Some 8) (Some F32.two) o) inf openable /\
     main (mkOptions (Some 8) (Some 8) o None) inf openable =
     main (mkOptions (Some 8) (Some 8) o (Some F32.two)) inf openable /\
     main (mkOptions (Some 8) (Some 8) None None) inf openable =
     main (mkOptions (Some 8) (Some 8) (Some F32.two) (Some F32.two)) inf openable).
Proof.
  intros Hs.
  assert (forall t sy, F32.leb t F32.zero = true ->
            resample f w h t sy =
            resample f w h (F32.div (F32.of_int w) (F32.of_int (flo_w f))) sy) as Hx.
  { intros t sy Ht. apply resample_scales_ext; [|reflexivity].
    apply effective_scale_quotient. exact Ht. }
  assert (forall t sx, F32.leb t F32.zero = true ->
            resample f w h sx t =
            resample f w h sx (F32.div (F32.of_int h) (F32.of_int (flo_h f)))) as Hy.
  { intros t sx Ht. apply resample_scales_ext; [reflexivity|].
    apply effective_scale_quotient. exact Ht. }
  split; [apply effective_scale_default; exact Hs|].
  split; [apply effective_scale_default; exact Hs|].
  split; [intros sy; apply Hx; exact Hs|].
  split; [intros sx; apply Hy; exact Hs|].
  split; [intros t Ht; rewrite (Hx s t Hs); apply Hy; exact Ht|].
  split; [reflexivity|].
  intros Hfw Hfh.
  assert (forall t sy, F32.leb t F32.zero = true ->
            resample f 8 8 t sy = resample f 8 8 F32.two sy) as Hx8.
  { intros t sy Ht. apply resample_scales_ext; [|reflexivity].
    rewrite (effective_scale_quotient t 8 (flo_w f) Ht), Hfw. reflexivity. }
  assert (forall t sx, F32.leb t F32.zero = true ->
            resample f 8 8 sx t = resample f 8 8 sx F32.two) as Hy8.
  { intros t sx Ht. apply resample_scales_ext; [reflexivity|].
    rewrite (effective_scale_quotient t 8 (flo_h f) Ht), Hfh. reflexivity. }
  split; [intros sy; apply Hx8; exact Hs|].
  split; [intros sx; apply Hy8; exact Hs|].
  split; [intros t Ht; rewrite (Hx8 s t Hs); apply Hy8; exact Ht|].
  split; [rewrite (Hx8 (scale_arg None) (scale_arg None) eq_refl); apply Hy8; reflexivity|].
  intros inf openable o Hread. unfold main, extrapolate.
  cbn [opt_w opt_h opt_x opt_y scale_arg]. rewrite Hread.
  rewrite (Hx8 F32.minus_one (scale_arg o) eq_refl).
  rewrite (Hy8 F32.minus_one (scale_arg o) eq_refl).
  rewrite (Hx8 F32.minus_one F32.minus_one eq_refl).
  rewrite (Hy8 F32.minus_one F32.two eq_refl).
  split; [reflexivity|]. split; reflexivity.
Qed.

(** ** Binary32 arithmetic *)

Lemma digits2_pos_size p : digits2_pos p = Pos.size p.
Proof. induction p; cbn; congruence. Qed.

Lemma digits2_pos_bounds p :
  2 ^ (Z.pos (digits2_pos p) - 1) <= Z.pos p < 2 ^ Z.pos (digits2_pos p).
Proof.
  rewrite digits2_pos_size.
  pose proof (Pos.size_gt p) as Hgt. pose proof (Pos.size_le p) as Hle.
  assert (Z.pos (2 ^ Pos.size p) = 2 ^ Z.pos (Pos.size p)) as E
    by (rewrite Pos2Z.inj_pow; reflexivity).
  assert (2 ^ Z.pos (Pos.size p) = 2 * 2 ^ (Z.pos (Pos.size p) - 1)) as E2.
  { rewrite <- Z.pow_succ_r by lia. f_equal. lia. }
  lia.
Qed.

Lemma fexp_eq z : fexp 24 128 z = Z.max (z - 24) (-149).
Proof. reflexivity. Qed.

Lemma shr_fexp_canonical m e :
  fexp 24 128 (Z.pos (digits2_pos m) + e) = e ->
  shr_fexp 24 128 (Z.pos m) e loc_Exact =
  ({| shr_m := Z.pos m; shr_r := false; shr_s := false |}, e).
Proof.
  intros H. unfold shr_fexp. cbn [Zdigits2]. rewrite H, Z.sub_diag. reflexivity.
Qed.

Lemma binary_round_aux_canonical s m e :
  bounded 24 128 m e = true ->
  binary_round_aux 24 128 s (Z.pos m) e loc_Exact = S754_finite s m e.
Proof.
  unfold bounded, canonical_mantissa. intros H.
  apply andb_prop in H as [Hc He]. apply Z.eqb_eq in Hc.
  unfold binary_round_aux. rewrite (shr_fexp_canonical m e Hc).
  cbn [shr_m loc_of_shr_record round_nearest_even].
  rewrite (shr_fexp_canonical m e Hc). cbn [shr_m]. rewrite He. reflexivity.
Qed.

Lemma Zdigits2_shl23 m :
  Zdigits2 (Z.pos (8388608 * m)) = 23 + Z.pos (digits2_pos m).
Proof. cbv [Zdigits2 Pos.mul digits2_pos]. fold digits2_pos. lia. Qed.

Lemma shr_fexp_shl23 m e k :
  fexp 24 128 (23 + Z.pos (digits2_pos m) + e) - e = Z.pos k ->
  shr_fexp 24 128 (Z.pos (8388608 * m)) e loc_Exact =
  (SpecFloat.iter_pos shr_1 k {| shr_m := Z.pos (8388608 * m); shr_r := false; shr_s := false |},
   e + Z.pos k).
Proof.
  intros H. unfold shr_fexp. rewrite Zdigits2_shl23, H. reflexivity.
Qed.

Lemma bounded_canonical m e :
  bounded 24 128 m e = true ->
  fexp 24 128 (Z.pos (digits2_pos m) + e) = e /\ e <= 104.
Proof.
  unfold bounded, canonical_mantissa. intros H.
  apply andb_prop in H as [Hc He]. apply Z.eqb_eq in Hc. apply Z.leb_le in He.
  split; [exact Hc | exact He].
Qed.

(** multiplying a finite binary32 value by 1.0 gives the value *)
Lemma mul_one_finite s m e :
  bounded 24 128 m e = true ->
  F32.mul F32.one (S754_finite s m e) = S754_finite s m e.
Proof.
  intros Hb. pose proof (bounded_canonical m e Hb) as [Hc He].
  unfold F32.mul, F32.one, F32.prec, F32.emax, SFmul. cbn [xorb].
  unfold binary_round_aux.
  rewrite (shr_fexp_shl23 m (-23 + e) 23) by (rewrite fexp_eq in *; lia).
  change (SpecFloat.iter_pos shr_1 23 _) with {| shr_m := Z.pos m; shr_r := false; shr_s := false |}.
  cbn [shr_m loc_of_shr_record round_nearest_even].
  replace (-23 + e + 23) with e by lia.
  rewrite (shr_fexp_canonical m e Hc). cbn [shr_m].
  destruct (Z.leb_spec e (128 - 24)); [reflexivity | lia].
Qed.

Lemma sub_self_finite s m e :
  F32.sub (S754_finite s m e) (S754_finite s m e) = S754_zero false.
Proof.
  unfold F32.sub, SFsub. cbv zeta. rewrite Z.sub_diag. reflexivity.
Qed.

Lemma pos_iter_xO p k : Z.pos (Pos.iter xO p k) = Z.pos p * 2 ^ Z.pos k.
Proof.
  induction k as [|k IH] using Pos.peano_ind.
  - cbn. lia.
  - rewrite Pos.iter_succ, Pos2Z.inj_xO, IH, Pos2Z.inj_succ, Z.pow_succ_r by lia. lia.
Qed.

Lemma digits2_pos_iter_xO p k :
  Z.pos (digits2_pos (Pos.iter xO p k)) = Z.pos (digits2_pos p) + Z.pos k.
Proof.
  induction k as [|k IH] using Pos.peano_ind.
  - cbn. lia.
  - rewrite Pos.iter_succ. cbn [digits2_pos]. lia.
Qed.

Lemma digits2_pos_le p n : 0 <= n -> Z.pos p < 2 ^ n -> Z.pos (digits2_pos p) <= n.
Proof.
  intros Hn Hp. pose proof (digits2_pos_bounds p) as [Hlo _].
  destruct (Z.le_gt_cases (Z.pos (digits2_pos p)) n) as [|Hgt]; [assumption|].
  assert (2 ^ n <= 2 ^ (Z.pos (digits2_pos p) - 1)) by (apply Z.pow_le_mono_r; lia).
  lia.
Qed.

Lemma digits2_pos_ge p n : 0 <= n -> 2 ^ n <= Z.pos p -> n + 1 <= Z.pos (digits2_pos p).
Proof.
  intros Hn Hp. pose proof (digits2_pos_bounds p) as [_ Hhi].
  destruct (Z.le_gt_cases (n + 1) (Z.pos (digits2_pos p))) as [|Hlt]; [assumption|].
  assert (2 ^ Z.pos (digits2_pos p) <= 2 ^ n) by (apply Z.pow_le_mono_r; lia).
  lia.
Qed.

(** [(float)x] for 0 < x < 2^24 is exact: a normal number m * 2^e with
    m = x * 2^(-e) *)
Lemma of_int_small x :
  0 < x < 16777216 ->
  exists m e,
    F32.of_int x = S754_finite false m e /\
    Z.pos (digits2_pos m) = 24 /\ -23 <= e <= 0 /\ Z.pos m = x * 2 ^ (- e).
Proof.
  intros Hx. destruct x as [|p|p]; try lia.
  unfold F32.of_int, F32.prec, F32.emax, binary_normalize, binary_round.
  set (d := Z.pos (digits2_pos p)).
  assert (1 <= d <= 24) as Hd.
  { subst d. split; [lia|]. apply digits2_pos_le; [lia|]. change (2 ^ 24) with 16777216. lia. }
  assert (fexp 24 128 (d + 0) = d - 24) as Hf by (rewrite fexp_eq; lia).
  rewrite Hf. unfold shl_align. rewrite Z.sub_0_r.
  destruct (d - 24) as [|k|k] eqn:Hk; try lia.
  - exists p, 0. split; [|split; [fold d; lia|split; [lia|cbn; lia]]].
    apply binary_round_aux_canonical. unfold bounded, canonical_mantissa.
    fold d. rewrite Hf. reflexivity.
  - exists (Pos.iter xO p k), (Z.neg k).
    assert (Z.pos (digits2_pos (Pos.iter xO p k)) = 24) as Hd'
      by (rewrite digits2_pos_iter_xO; fold d; lia).
    split; [|split; [exact Hd'|split; [lia|rewrite pos_iter_xO; reflexivity]]].
    apply binary_round_aux_canonical. unfold bounded, canonical_mantissa.
    rewrite Hd'. rewrite fexp_eq.
    apply andb_true_intro. split; [apply Z.eqb_eq | apply Z.leb_le]; lia.
Qed.

Lemma to_int_floor_exact m e x :
  0 <= x <= Int32.max_signed -> e <= 0 -> Z.pos m = x * 2 ^ (- e) ->
  F32.to_int_floor (S754_finite false m e) = x.
Proof.
  intros Hx He Hm. unfold F32.to_int_floor, F32.floor. rewrite Hm.
  assert ((if 0 <=? e then x * 2 ^ (- e) * 2 ^ e else x * 2 ^ (- e) / 2 ^ (- e)) = x) as E.
  { destruct (Z.leb_spec 0 e).
    - replace e with 0 by lia. cbn. lia.
    - apply Z.div_mul. apply Z.pow_nonzero; lia. }
  rewrite E. unfold Int32.min_signed, Int32.max_signed in *.
  destruct (Z.leb_spec (-2147483648) x); [|lia].
  destruct (Z.leb_spec x 2147483647); [reflexivity | lia].
Qed.

(** dividing a normal binary32 value of moderate exponent by 1.0 gives the
    value *)
Lemma div_one_normal m e :
  Z.pos (digits2_pos m) = 24 -> -23 <= e <= 0 ->
  F32.div (S754_finite false m e) F32.one = S754_finite false m e.
Proof.
  intros Hd He.
  unfold F32.div, F32.one, F32.prec, F32.emax, SFdiv. cbn [xorb].
  assert (SFdiv_core_binary 24 128 (Z.pos m) e 8388608 (-23) =
          (Z.pos m~0, e - 1, loc_Exact)) as Hcore.
  { unfold SFdiv_core_binary. cbn [Zdigits2]. rewrite Hd.
    change (Z.pos (digits2_pos 8388608)) with 24.
    replace (Z.min (fexp 24 128 (24 + e - (24 + -23))) (e - -23)) with (e - 1)
      by (rewrite fexp_eq; lia).
    replace (e - -23 - (e - 1)) with 24 by lia.
    cbv beta iota zeta.
    rewrite Z.shiftl_mul_pow2 by lia. change (2 ^ 24) with 16777216.
    pose proof (Z_div_mod (Z.pos m * 16777216) 8388608 eq_refl) as Hdm.
    destruct (Z.div_eucl (Z.pos m * 16777216) 8388608) as [q r].
    assert (r = 0) by lia. assert (q = Z.pos m~0) by lia. subst q r. reflexivity. }
  rewrite Hcore. unfold binary_round_aux.
  assert (shr_fexp 24 128 (Z.pos m~0) (e - 1) loc_Exact =
          ({| shr_m := Z.pos m; shr_r := false; shr_s := false |}, e)) as Hs.
  { unfold shr_fexp. cbn [Zdigits2 digits2_pos].
    replace (fexp 24 128 (Z.pos (Pos.succ (digits2_pos m)) + (e - 1)) - (e - 1)) with 1
      by (rewrite fexp_eq; lia).
    cbn [shr shr_record_of_loc SpecFloat.iter_pos shr_1 orb]. f_equal. lia. }
  rewrite Hs. cbn [shr_m loc_of_shr_record round_nearest_even].
  rewrite shr_fexp_canonical by (rewrite fexp_eq; lia).
  cbn [shr_m]. destruct (Z.leb_spec e (128 - 24)); [reflexivity | lia].
Qed.

Lemma of_bits_valid z : valid_binary 24 128 (F32.of_bits z) = true.
Proof.
  unfold F32.of_bits.
  pose proof (Z.mod_pos_bound (z / 8388608) 256 eq_refl) as He.
  pose proof (Z.mod_pos_bound z 8388608 eq_refl) as Hm.
  destruct (Z.eqb_spec ((z / 8388608) mod 256) 0) as [E0|E0].
  - destruct (z mod 8388608) as [|p|p] eqn:Em; try reflexivity.
    cbn [valid_binary]. unfold bounded, canonical_mantissa.
    assert (Z.pos (digits2_pos p) <= 23)
      by (apply digits2_pos_le; [lia | change (2 ^ 23) with 8388608; lia]).
    rewrite fexp_eq. apply andb_true_intro.
    split; [apply Z.eqb_eq | apply Z.leb_le]; lia.
  - destruct (Z.eqb_spec ((z / 8388608) mod 256) 255) as [E1|E1].
    + destruct (_ =? _); reflexivity.
    + destruct (z mod 8388608 + 8388608) as [|p|p] eqn:Em; try reflexivity.
      cbn [valid_binary]. unfold bounded, canonical_mantissa.
      assert (Z.pos (digits2_pos p) <= 24)
        by (apply digits2_pos_le; [lia | change (2 ^ 24) with 16777216; lia]).
      assert (23 + 1 <= Z.pos (digits2_pos p))
        by (apply digits2_pos_ge; [lia | change (2 ^ 23) with 8388608; lia]).
      rewrite fexp_eq. apply andb_true_intro.
      split; [apply Z.eqb_eq | apply Z.leb_le]; lia.
Qed.

Lemma load_valid s : valid_binary 24 128 (load s) = true.
Proof. apply of_bits_valid. Qed.

(** what validity says of a finite value *)
Lemma bounded_cases m e :
  bounded 24 128 m e = true ->
  e <= 104 /\
  ((Z.pos m < 8388608 /\ e = -149) \/
   (8388608 <= Z.pos m < 16777216 /\ -149 <= e /\ Z.pos (digits2_pos m) = 24)).
Proof.
  intros Hb. apply bounded_canonical in Hb as [Hc He]. rewrite fexp_eq in Hc.
  split; [exact He|].
  pose proof (digits2_pos_bounds m) as [Hlo Hhi].
  destruct (Z.lt_ge_cases (Z.pos m) 8388608) as [Hlt|Hge].
  - left. split; [exact Hlt|].
    assert (Z.pos (digits2_pos m) <= 23)
      by (apply digits2_pos_le; [lia | change (2 ^ 23) with 8388608; lia]).
    lia.
  - right.
    assert (23 + 1 <= Z.pos (digits2_pos m))
      by (apply digits2_pos_ge; [lia | change (2 ^ 23) with 8388608; lia]).
    assert (Z.pos (digits2_pos m) = 24) as Hd by lia.
    rewrite Hd in Hhi. change (2 ^ 24) with 16777216 in Hhi. lia.
Qed.

Lemma to_bits_range u :
  valid_binary 24 128 u = true -> 0 <= F32.to_bits u < 4294967296.
Proof.
  destruct u as [s|s| |s m e]; cbn [valid_binary F32.to_bits]; intros Hv;
    try (destruct s; cbn; lia); [cbn; lia|].
  apply bounded_cases in Hv as [He [[Hm Hs]|[Hm [Hs Hd]]]].
  - destruct (Z.ltb_spec (Z.pos m) 8388608); [|lia]. destruct s; cbn [F32.sign_bit]; lia.
  - destruct (Z.ltb_spec (Z.pos m) 8388608); [lia|]. destruct s; cbn [F32.sign_bit]; lia.
Qed.

Lemma of_bits_to_bits u :
  valid_binary 24 128 u = true -> F32.of_bits (F32.to_bits u) = u.
Proof.
  destruct u as [s|s| |s m e]; cbn [valid_binary F32.to_bits]; intros Hv;
    try (destruct s; reflexivity); [reflexivity|].
  apply bounded_cases in Hv as [He [[Hm Hs]|[Hm [Hs Hd]]]].
  - destruct (Z.ltb_spec (Z.pos m) 8388608); [|lia]. subst e.
    unfold F32.of_bits.
    assert ((2147483648 <=? (F32.sign_bit s + Z.pos m) mod 4294967296) = s) as E1.
    { destruct s; cbn [F32.sign_bit];
        [apply Z.leb_le | apply Z.leb_gt]; Z.div_mod_to_equations; lia. }
    assert (((F32.sign_bit s + Z.pos m) / 8388608) mod 256 = 0) as E2
      by (destruct s; cbn [F32.sign_bit]; Z.div_mod_to_equations; lia).
    assert ((F32.sign_bit s + Z.pos m) mod 8388608 = Z.pos m) as E3
      by (destruct s; cbn [F32.sign_bit]; Z.div_mod_to_equations; lia).
    rewrite E1, E2, E3. reflexivity.
  - destruct (Z.ltb_spec (Z.pos m) 8388608); [lia|].
    unfold F32.of_bits.
    set (z := F32.sign_bit s + (e + 150) * 8388608 + (Z.pos m - 8388608)).
    assert ((2147483648 <=? z mod 4294967296) = s) as E1.
    { subst z. destruct s; cbn [F32.sign_bit];
        [apply Z.leb_le | apply Z.leb_gt]; Z.div_mod_to_equations; lia. }
    assert ((z / 8388608) mod 256 = e + 150) as E2
      by (subst z; destruct s; cbn [F32.sign_bit]; Z.div_mod_to_equations; lia).
    assert (z mod 8388608 + 8388608 = Z.pos m) as E3
      by (subst z; destruct s; cbn [F32.sign_bit]; Z.div_mod_to_equations; lia).
    rewrite E1, E2, E3.
    destruct (Z.eqb_spec (e + 150) 0); [lia|].
    destruct (Z.eqb_spec (e + 150) 255); [lia|].
    f_equal. lia.
Qed.

Lemma word_of_float32_of_word z :
  0 <= z < 4294967296 -> word_of_float32 (float32_of_word z) = z.
Proof.
  intros Hz. unfold word_of_float32, float32_of_word. cbn [fb0 fb1 fb2 fb3].
  apply word_of_bytes_of_word. exact Hz.
Qed.

(** a valid value is read back as it was stored *)
Lemma load_store u : valid_binary 24 128 u = true -> load (store u) = u.
Proof.
  intros Hv. unfold load, store.
  rewrite word_of_float32_of_word by (apply to_bits_range; exact Hv).
  apply of_bits_to_bits. exact Hv.
Qed.

(** ** Scaling by a power of two *)

Lemma shift_round_1 m :
  0 <= shift_round 1 m < Z.pos m /\ 2 * shift_round 1 m <= Z.pos m + 1.
Proof.
  destruct m as [p|p|]; cbn; try lia.
  destruct p as [q|q|]; cbn; lia.
Qed.

Lemma shift_round_2 m :
  0 <= shift_round 2 m < Z.pos m /\
  (shift_round 2 m = 0 \/ 2 * shift_round 2 m < Z.pos m).
Proof.
  destruct m as [[p|p|]|[p|p|]|]; cbn; try lia;
    destruct p as [q|q|]; cbn; lia.
Qed.

Lemma second_stage s z :
  0 <= z < 16777216 ->
  (let '(mrs, e) := shr_fexp 24 128 z (-149) loc_Exact in
   match shr_m mrs with
   | 0 => S754_zero s
   | Z.pos m => if e <=? 128 - 24 then S754_finite s m e else S754_infinity s
   | Z.neg _ => S754_nan
   end) = at_emin s z.
Proof.
  intros Hz. destruct z as [|m|m]; try lia; [reflexivity|].
  rewrite shr_fexp_canonical; [reflexivity|].
  assert (Z.pos (digits2_pos m) <= 24)
    by (apply digits2_pos_le; [lia | change (2 ^ 24) with 16777216; lia]).
  rewrite fexp_eq. lia.
Qed.

(** multiplication by a power of two that keeps the exponent in range *)
Lemma mul_pow2_exact ce s m e :
  bounded 24 128 m e = true ->
  Z.pos (digits2_pos m) = 24 ->
  -149 <= ce + e + 23 <= 104 ->
  F32.mul (S754_finite false 8388608 ce) (S754_finite s m e) =
  S754_finite s m (ce + e + 23).
Proof.
  intros Hb Hd He.
  unfold F32.mul, F32.prec, F32.emax, SFmul. cbn [xorb].
  unfold binary_round_aux.
  rewrite (shr_fexp_shl23 m (ce + e) 23) by (rewrite fexp_eq; lia).
  change (SpecFloat.iter_pos shr_1 23 _)
    with {| shr_m := Z.pos m; shr_r := false; shr_s := false |}.
  cbn [shr_m loc_of_shr_record round_nearest_even].
  rewrite shr_fexp_canonical by (rewrite fexp_eq; lia).
  cbn [shr_m]. destruct (Z.leb_spec (ce + e + 23) (128 - 24)); [reflexivity | lia].
Qed.

(** multiplication by a power of two that falls [t] bits under the smallest
    exponent *)
Lemma mul_pow2_low ce t s m e :
  bounded 24 128 m e = true ->
  ce + e + 23 + Z.pos t = -149 ->
  (t = 1 \/ t = 2)%positive ->
  F32.mul (S754_finite false 8388608 ce) (S754_finite s m e) = at_emin s (shift_round t m).
Proof.
  intros Hb He Ht.
  pose proof (bounded_cases m e Hb) as [_ Hcases].
  assert (Z.pos m < 16777216) as Hm by lia.
  assert (Z.pos (digits2_pos m) <= 24) as Hd
    by (apply digits2_pos_le; [lia | change (2 ^ 24) with 16777216; lia]).
  unfold F32.mul, F32.prec, F32.emax, SFmul. cbn [xorb].
  unfold binary_round_aux.
  rewrite (shr_fexp_shl23 m (ce + e) (23 + t)) by (rewrite fexp_eq; lia).
  replace (ce + e + Z.pos (23 + t)) with (-149) by lia.
  assert (round_nearest_even
            (shr_m (SpecFloat.iter_pos shr_1 (23 + t)
                      {| shr_m := Z.pos (8388608 * m); shr_r := false; shr_s := false |}))
            (loc_of_shr_record
               (SpecFloat.iter_pos shr_1 (23 + t)
                  {| shr_m := Z.pos (8388608 * m); shr_r := false; shr_s := false |})) =
          shift_round t m) as E
    by (destruct Ht as [-> | ->]; reflexivity).
  rewrite E. apply second_stage.
  destruct Ht as [-> | ->].
  - pose proof (shift_round_1 m). lia.
  - pose proof (shift_round_2 m). lia.
Qed.

Lemma ltb_zero_pos m e : F32.ltb (S754_zero false) (S754_finite false m e) = true.
Proof. reflexivity. Qed.

Lemma ltb_lower_exponent m1 e1 m2 e2 :
  e1 < e2 -> F32.ltb (S754_finite false m1 e1) (S754_finite false m2 e2) = true.
Proof.
  intros H. unfold F32.ltb, SFltb, SFcompare.
  rewrite (proj2 (Z.compare_lt_iff e1 e2) H). reflexivity.
Qed.

Lemma ltb_lower_mantissa m1 m2 e :
  Z.pos m1 < Z.pos m2 -> F32.ltb (S754_finite false m1 e) (S754_finite false m2 e) = true.
Proof.
  intros H. unfold F32.ltb, SFltb, SFcompare. rewrite Z.compare_refl.
  change (Pos.compare_cont Eq m1 m2) with (Pos.compare m1 m2).
  rewrite (proj2 (Pos.compare_lt_iff m1 m2)) by lia. reflexivity.
Qed.

Lemma ltb_at_emin z m e :
  bounded 24 128 m e = true ->
  0 <= z ->
  (e = -149 -> z < Z.pos m) ->
  F32.ltb (at_emin false z) (S754_finite false m e) = true.
Proof.
  intros Hb Hz Hlt. pose proof (bounded_cases m e Hb) as [_ Hcases].
  destruct z as [|m'|m']; try lia; cbn [at_emin]; [apply ltb_zero_pos|].
  destruct (Z.eq_dec e (-149)) as [->|Hne].
  - apply ltb_lower_mantissa. apply Hlt. reflexivity.
  - apply ltb_lower_exponent. lia.
Qed.

(** the sum of a positive value with itself *)
Lemma add_self m e :
  bounded 24 128 m e = true -> e + 1 <= 104 ->
  F32.add (S754_finite false m e) (S754_finite false m e) =
  if Z.pos (digits2_pos m) =? 24 then S754_finite false m (e + 1)
  else S754_finite false m~0 e.
Proof.
  intros Hb He. pose proof (bounded_canonical m e Hb) as [Hc _].
  rewrite fexp_eq in Hc.
  unfold F32.add, F32.prec, F32.emax, SFadd. cbv zeta. rewrite Z.min_id.
  unfold shl_align at 1 2. rewrite Z.sub_diag. cbn [fst cond_Zopp].
  change (Z.pos m + Z.pos m) with (Z.pos (m + m)).
  replace (m + m)%positive with (m~0)%positive by lia.
  unfold binary_normalize, binary_round. cbn [digits2_pos].
  destruct (Z.eqb_spec (Z.pos (digits2_pos m)) 24) as [Hd|Hd].
  - replace (fexp 24 128 (Z.pos (Pos.succ (digits2_pos m)) + e)) with (e + 1)
      by (rewrite fexp_eq; lia).
    unfold shl_align. replace (e + 1 - e) with 1 by lia. cbv iota beta.
    unfold binary_round_aux.
    assert (shr_fexp 24 128 (Z.pos m~0) e loc_Exact =
            ({| shr_m := Z.pos m; shr_r := false; shr_s := false |}, e + 1)) as Hs.
    { unfold shr_fexp. cbn [Zdigits2 digits2_pos].
      replace (fexp 24 128 (Z.pos (Pos.succ (digits2_pos m)) + e) - e) with 1
        by (rewrite fexp_eq; lia).
      reflexivity. }
    rewrite Hs. cbn [shr_m loc_of_shr_record round_nearest_even].
    rewrite shr_fexp_canonical by (rewrite fexp_eq; lia).
    cbn [shr_m]. destruct (Z.leb_spec (e + 1) (128 - 24)); [reflexivity | lia].
  - assert (e = -149 /\ Z.pos (digits2_pos m) < 24) as [-> Hlt] by lia.
    replace (fexp 24 128 (Z.pos (Pos.succ (digits2_pos m)) + -149)) with (-149)
      by (rewrite fexp_eq; lia).
    cbn [shl_align Z.sub Z.add Z.opp Z.pos_sub]. unfold shl_align.
    rewrite Z.sub_diag.
    apply binary_round_aux_canonical.
    unfold bounded, canonical_mantissa. cbn [digits2_pos].
    rewrite fexp_eq. apply andb_true_intro.
    split; [apply Z.eqb_eq | apply Z.leb_le]; lia.
Qed.

Lemma add_zero_at_emin z : 0 <= z -> F32.add F32.zero (at_emin false z) = at_emin false z.
Proof. destruct z; try lia; reflexivity. Qed.

(** the product of a positive finite value by 0.5, and by 0.25 *)
Lemma mul_half_cases m e :
  bounded 24 128 m e = true ->
  (-149 < e /\ F32.mul one_half (S754_finite false m e) = S754_finite false m (e - 1)) \/
  (e = -149 /\ F32.mul one_half (S754_finite false m e) = at_emin false (shift_round 1 m)).
Proof.
  intros Hb. pose proof (bounded_cases m e Hb) as [He Hcases].
  destruct (Z.eq_dec e (-149)) as [->|Hne].
  - right. split; [reflexivity|].
    apply (mul_pow2_low (-24) 1 false m (-149) Hb); [reflexivity | left; reflexivity].
  - left. split; [lia|].
    unfold one_half.
    rewrite (mul_pow2_exact (-24) false m e Hb) by lia. f_equal. lia.
Qed.

Lemma mul_quarter_cases m e :
  bounded 24 128 m e = true ->
  (-148 < e /\ F32.mul one_quarter (S754_finite false m e) = S754_finite false m (e - 2)) \/
  (e = -148 /\ F32.mul one_quarter (S754_finite false m e) = at_emin false (shift_round 1 m)) \/
  (e = -149 /\ F32.mul one_quarter (S754_finite false m e) = at_emin false (shift_round 2 m)).
Proof.
  intros Hb. pose proof (bounded_cases m e Hb) as [He Hcases].
  destruct (Z.eq_dec e (-149)) as [->|Hne]; [|destruct (Z.eq_dec e (-148)) as [->|Hne']].
  - right. right. split; [reflexivity|].
    apply (mul_pow2_low (-25) 2 false m (-149) Hb); [reflexivity | right; reflexivity].
  - right. left. split; [reflexivity|].
    apply (mul_pow2_low (-25) 1 false m (-148) Hb); [reflexivity | left; reflexivity].
  - left. split; [lia|].
    unfold one_quarter.
    rewrite (mul_pow2_exact (-25) false m e Hb) by lia. f_equal. lia.
Qed.

Lemma bounded_normal m e :
  Z.pos (digits2_pos m) = 24 -> -149 <= e <= 104 -> bounded 24 128 m e = true.
Proof.
  intros Hd He. unfold bounded, canonical_mantissa. rewrite Hd, fexp_eq.
  apply andb_true_intro. split; [apply Z.eqb_eq | apply Z.leb_le]; lia.
Qed.

Lemma bounded_at_emin m : Z.pos m < 16777216 -> bounded 24 128 m (-149) = true.
Proof.
  intros Hm. unfold bounded, canonical_mantissa.
  assert (Z.pos (digits2_pos m) <= 24)
    by (apply digits2_pos_le; [lia | change (2 ^ 24) with 16777216; lia]).
  rewrite fexp_eq. apply andb_true_intro.
  split; [apply Z.eqb_eq | apply Z.leb_le]; lia.
Qed.

Lemma at_emin_valid z : 0 <= z < 16777216 -> valid_binary 24 128 (at_emin false z) = true.
Proof.
  intros Hz. destruct z as [|m|m]; try lia; [reflexivity|].
  apply bounded_at_emin. lia.
Qed.

Lemma add_at_emin_zero z :
  0 <= z -> F32.add (at_emin false z) (S754_zero false) = at_emin false z.
Proof. destruct z; try lia; reflexivity. Qed.

(** half of a positive finite value: a valid value less than the value,
    which a further term of weight 0 leaves as it is *)
Lemma half_lt m e :
  bounded 24 128 m e = true ->
  let k := S754_finite false m e in
  let r := F32.add F32.zero (F32.mul one_half k) in
  valid_binary 24 128 r = true /\ F32.ltb r k = true /\
  F32.add r (F32.mul F32.zero k) = r.
Proof.
  intros Hb k r. subst k r. pose proof (bounded_cases m e Hb) as [He Hcases].
  change (F32.mul F32.zero (S754_finite false m e)) with (S754_zero false).
  destruct (mul_half_cases m e Hb) as [[He' ->] | [-> ->]].
  - change (F32.add F32.zero (S754_finite false m (e - 1)))
      with (S754_finite false m (e - 1)).
    split; [apply bounded_normal; lia|].
    split; [apply ltb_lower_exponent; lia | reflexivity].
  - pose proof (shift_round_1 m).
    rewrite add_zero_at_emin by lia.
    split; [apply at_emin_valid; lia|].
    split; [apply ltb_at_emin; [exact Hb | lia | lia] | apply add_at_emin_zero; lia].
Qed.

(** a quarter of a positive finite value: a valid value less than the
    value *)
Lemma quarter_lt m e :
  bounded 24 128 m e = true ->
  let k := S754_finite false m e in
  let r := F32.add F32.zero (F32.mul one_quarter k) in
  valid_binary 24 128 r = true /\ F32.ltb r k = true.
Proof.
  intros Hb k r. subst k r. pose proof (bounded_cases m e Hb) as [He Hcases].
  destruct (mul_quarter_cases m e Hb) as [[He' ->] | [[-> ->] | [-> ->]]].
  - change (F32.add F32.zero (S754_finite false m (e - 2)))
      with (S754_finite false m (e - 2)).
    split; [apply bounded_normal; lia | apply ltb_lower_exponent; lia].
  - pose proof (shift_round_1 m).
    rewrite add_zero_at_emin by lia.
    split; [apply at_emin_valid; lia | apply ltb_at_emin; [exact Hb | lia | lia]].
  - pose proof (shift_round_2 m).
    rewrite add_zero_at_emin by lia.
    split; [apply at_emin_valid; lia | apply ltb_at_emin; [exact Hb | lia | lia]].
Qed.

(** the sum of two quarters of a positive finite value: a valid value less
    than the value *)
Lemma quarter_twice_lt m e :
  bounded 24 128 m e = true ->
  let k := S754_finite false m e in
  let r := F32.add (F32.add F32.zero (F32.mul one_quarter k)) (F32.mul one_quarter k) in
  valid_binary 24 128 r = true /\ F32.ltb r k = true.
Proof.
  intros Hb k r. subst k r. pose proof (bounded_cases m e Hb) as [He Hcases].
  assert (forall z, 0 <= z < 8388608 + 1 ->
            (e = -149 -> z = 0 \/ 2 * z < Z.pos m) ->
            (e = -148 -> z < Z.pos m) ->
            (e = -149 \/ e = -148) ->
            valid_binary 24 128
              (F32.add (F32.add F32.zero (at_emin false z)) (at_emin false z)) = true /\
            F32.ltb (F32.add (F32.add F32.zero (at_emin false z)) (at_emin false z))
                    (S754_finite false m e) = true) as Hlow.
  { intros z Hz H149 H148 Hcase. rewrite add_zero_at_emin by lia.
    destruct z as [|m'|m']; try lia; cbn [at_emin]; [split; reflexivity|].
    rewrite add_self by (first [apply bounded_at_emin; lia | lia]).
    pose proof (digits2_pos_bounds m') as [Hlo Hhi].
    destruct (Z.eqb_spec (Z.pos (digits2_pos m')) 24) as [Hd|Hd].
    - rewrite Hd in Hlo. change (2 ^ (24 - 1)) with 8388608 in Hlo.
      split; [apply bounded_normal; [exact Hd | lia]|].
      destruct Hcase as [-> | ->].
      + specialize (H149 eq_refl). lia.
      + change (-149 + 1) with (-148). apply ltb_lower_mantissa. apply H148. reflexivity.
    - assert (Z.pos m' < 8388608) as Hsmall.
      { destruct (Z.lt_ge_cases (Z.pos m') 8388608) as [|Hge]; [assumption|].
        exfalso. apply Hd.
        assert (23 + 1 <= Z.pos (digits2_pos m'))
          by (apply digits2_pos_ge; [lia | change (2 ^ 23) with 8388608; lia]).
        assert (Z.pos (digits2_pos m') <= 24)
          by (apply digits2_pos_le; [lia | change (2 ^ 24) with 16777216; lia]).
        lia. }
      split; [apply bounded_at_emin; lia|].
      destruct Hcase as [-> | ->].
      + apply ltb_lower_mantissa. specialize (H149 eq_refl). lia.
      + apply ltb_lower_exponent. lia. }
  destruct (mul_quarter_cases m e Hb) as [[He' ->] | [[-> ->] | [-> ->]]].
  - change (F32.add F32.zero (S754_finite false m (e - 2)))
      with (S754_finite false m (e - 2)).
    assert (Z.pos (digits2_pos m) = 24) as Hd by lia.
    rewrite add_self by (first [apply bounded_normal; lia | lia]).
    rewrite Hd. change (24 =? 24) with true. cbv iota.
    split; [apply bounded_normal; lia | apply ltb_lower_exponent; lia].
  - pose proof (shift_round_1 m). apply Hlow; [lia | intros; lia | intros; lia | lia].
  - pose proof (shift_round_2 m). apply Hlow; [lia | intros; lia | intros; lia | lia].
Qed.

(** ** The sign of a coordinate *)

Lemma binary_round_aux_sign s m e l :
  match binary_round_aux 24 128 s m e l with
  | S754_finite s' _ _ => s' = s
  | _ => True
  end.
Proof.
  unfold binary_round_aux.
  destruct (shr_fexp 24 128 m e l) as [mrs' e'].
  destruct (shr_fexp 24 128 _ e' loc_Exact) as [mrs'' e''].
  destruct (shr_m mrs''); [exact I | | exact I].
  destruct (e'' <=? 128 - 24); [reflexivity | exact I].
Qed.

Lemma binary_round_aux_not_negative m e l :
  not_negative (binary_round_aux 24 128 false m e l).
Proof.
  pose proof (binary_round_aux_sign false m e l) as H. unfold not_negative.
  destruct (binary_round_aux 24 128 false m e l) as [| | |s ? ?]; try exact I.
  subst s. exact I.
Qed.

Lemma of_int_sign x :
  0 <= x ->
  match F32.of_int x with
  | S754_zero s | S754_finite s _ _ => s = false
  | _ => True
  end.
Proof.
  intros Hx. destruct x as [|p|p]; try lia; [reflexivity|].
  unfold F32.of_int, F32.prec, F32.emax, binary_normalize, binary_round.
  destruct (shl_align p 0 _) as [mz ez].
  pose proof (binary_round_aux_sign false (Z.pos mz) ez loc_Exact) as H.
  unfold binary_round_aux in *.
  destruct (shr_fexp 24 128 (Z.pos mz) ez loc_Exact) as [mrs' e'].
  destruct (shr_fexp 24 128 _ e' loc_Exact) as [mrs'' e''].
  destruct (shr_m mrs''); [reflexivity | | exact I].
  destruct (e'' <=? 128 - 24); [reflexivity | exact I].
Qed.

(** the quotient of a non-negative integer by a positive scale is not a
    negative number *)
Lemma div_not_negative x s :
  0 <= x -> positive_scale s -> not_negative (F32.div (F32.of_int x) s).
Proof.
  intros Hx Hs. pose proof (of_int_sign x Hx) as Ha.
  unfold positive_scale in Hs.
  destruct s as [ss|ss| |ss ms es]; try discriminate;
    destruct ss; try discriminate;
    destruct (F32.of_int x) as [sa|sa| |sa ma ea]; try subst sa; try exact I.
  unfold F32.div, F32.prec, F32.emax, SFdiv. cbn [xorb].
  destruct (SFdiv_core_binary 24 128 (Z.pos ma) ea (Z.pos ms) es) as [[mz ez] lz].
  apply binary_round_aux_not_negative.
Qed.

Lemma to_int_floor_not_negative r :
  not_negative r ->
  F32.to_int_floor r = Int32.min_signed \/ 0 <= F32.to_int_floor r.
Proof.
  intros Hr. unfold F32.to_int_floor, F32.floor.
  destruct r as [s|s| |s m e]; try (left; reflexivity); [right; cbn; lia|].
  destruct s; [contradiction|].
  assert (0 <= (if 0 <=? e then Z.pos m * 2 ^ e else Z.pos m / 2 ^ (- e))) as Hz.
  { destruct (Z.leb_spec 0 e).
    - apply Z.mul_nonneg_nonneg; [lia | apply Z.pow_nonneg; lia].
    - apply Z.div_pos; [lia | apply Z.pow_pos_nonneg; lia]. }
  destruct (_ && _); [right; exact Hz | left; reflexivity].
Qed.

(** ** Weights 1 and 0 *)

Lemma settled_drop_zero_sign v : F32.is_finite v = true -> settled (drop_zero_sign v).
Proof.
  destruct v; cbn; intros H; try discriminate; (split; [reflexivity | discriminate]).
Qed.

Lemma valid_drop_zero_sign v :
  valid_binary 24 128 v = true -> valid_binary 24 128 (drop_zero_sign v) = true.
Proof. destruct v; cbn; congruence. Qed.

Lemma settled_zero : settled F32.zero.
Proof. split; [reflexivity | discriminate]. Qed.

Lemma add_zero_mul_one v :
  valid_binary 24 128 v = true -> F32.is_finite v = true ->
  F32.add F32.zero (F32.mul F32.one v) = drop_zero_sign v.
Proof.
  destruct v as [s|s| |s m e]; cbn [valid_binary F32.is_finite]; intros Hv Hf;
    try discriminate.
  - destruct s; reflexivity.
  - rewrite mul_one_finite by exact Hv. reflexivity.
Qed.

Lemma add_mul_zero u v :
  settled u -> F32.is_finite v = true -> F32.add u (F32.mul F32.zero v) = u.
Proof.
  intros [Hu Hn] Hv.
  destruct v as [sv|sv| |sv mv ev]; try discriminate;
    destruct u as [su|su| |su mu eu]; try discriminate;
    try reflexivity; destruct su; try congruence; destruct sv; reflexivity.
Qed.

Lemma eqb_drop_zero_sign v :
  F32.is_finite v = true -> F32.eqb (drop_zero_sign v) v = true.
Proof.
  destruct v as [s|s| |s m e]; cbn [F32.is_finite]; intros H; try discriminate.
  - reflexivity.
  - unfold F32.eqb, SFeqb, drop_zero_sign, SFcompare.
    rewrite Z.compare_refl, Pos.compare_cont_refl. destruct s; reflexivity.
Qed.

Lemma coord_identity x :
  0 <= x < 16777216 ->
  F32.to_int_floor (F32.div (F32.of_int x) F32.one) = x /\
  F32.sub (F32.div (F32.of_int x) F32.one) (F32.of_int x) = S754_zero false.
Proof.
  intros Hx. destruct (Z.eq_dec x 0) as [->|Hne]; [split; reflexivity|].
  destruct (of_int_small x) as (m & e & Eo & Hd & He & Hm); [lia|].
  rewrite Eo, div_one_normal by assumption. split.
  - apply to_int_floor_exact; [unfold Int32.max_signed; lia | lia | exact Hm].
  - apply sub_self_finite.
Qed.

Lemma weights_identity x y :
  0 <= x < 16777216 -> 0 <= y < 16777216 ->
  interpolate2D_weights (F32.div (F32.of_int x) F32.one) (F32.div (F32.of_int y) F32.one) =
  mkWeights F32.one F32.zero F32.zero F32.zero.
Proof.
  intros Hx Hy. unfold interpolate2D_weights.
  destruct (coord_identity x Hx) as [Ex1 Ex2]. destruct (coord_identity y Hy) as [Ey1 Ey2].
  rewrite Ex1, Ey1, Ex2, Ey2. reflexivity.
Qed.

(** ** Indices and loops *)

Lemma peek_in_range data i :
  0 <= i < Z.of_nat (length data) ->
  peek data i = Ok (default float32_zero (data !! Z.to_nat i)).
Proof.
  intros Hi. unfold peek. destruct (Z.ltb_spec i 0); [lia|].
  destruct (lookup_lt_is_Some_2 data (Z.to_nat i)) as [s Hs]; [lia|].
  rewrite Hs. reflexivity.
Qed.

Lemma peek_lookup data i s :
  0 <= i -> data !! Z.to_nat i = Some s -> peek data i = Ok s.
Proof.
  intros Hi Hs. unfold peek. destruct (Z.ltb_spec i 0); [lia|]. rewrite Hs. reflexivity.
Qed.

Lemma poke_in_range data i s :
  0 <= i < Z.of_nat (length data) -> poke data i s = Ok (<[Z.to_nat i := s]> data).
Proof.
  intros Hi. unfold poke.
  destruct (Z.ltb_spec i 0); [lia|].
  destruct (Z.leb_spec (Z.of_nat (length data)) i); [lia|]. reflexivity.
Qed.

Lemma cell_index_bound w h npb x y ch :
  0 <= x < w -> 0 <= y < h -> 0 <= ch < npb ->
  0 <= (y * w + x) * npb + ch < w * h * npb.
Proof.
  intros Hx Hy Hc.
  assert (0 <= y * w + x <= w * h - 1) by nia.
  split; [nia|].
  assert ((y * w + x) * npb <= (w * h - 1) * npb) by (apply Z.mul_le_mono_nonneg_r; lia).
  lia.
Qed.

Lemma IDX_no_wrap w h npb ch x y :
  0 <= x < w -> 0 <= y < h -> 0 <= ch < npb ->
  w * h * npb <= Int32.max_signed ->
  IDX ch w x y npb = (y * w + x) * npb + ch.
Proof.
  intros Hx Hy Hc Hfit.
  pose proof (cell_index_bound w h npb x y ch Hx Hy Hc) as Hb.
  pose proof (cell_index_bound w h npb x y 0 Hx Hy ltac:(lia)) as Hb0.
  unfold Int32.max_signed in *.
  assert (0 <= w * npb <= 2147483647) by nia.
  assert (0 <= x * npb <= 2147483647) by nia.
  assert (0 <= y * (w * npb) <= 2147483647) by nia.
  assert (Hrange : forall z, 0 <= z <= 2147483647 -> Int32.wrap z = z).
  { intros z Hz. apply wrap_small. unfold Int32.in_range, Int32.min_signed, Int32.max_signed. lia. }
  unfold IDX, Int32.add, Int32.mul.
  rewrite (Hrange (w * npb)) by lia.
  rewrite (Hrange (y * (w * npb))) by lia.
  rewrite (Hrange (x * npb)) by lia.
  rewrite (Hrange (y * (w * npb) + x * npb)) by lia.
  rewrite Hrange by lia. lia.
Qed.

Lemma IDX_exact f ch x y :
  valid_field f ->
  0 <= x < flo_w f -> 0 <= y < flo_h f -> 0 <= ch < items_per_block (flo_fmt f) ->
  IDX ch (flo_w f) x y (items_per_block (flo_fmt f)) = cell_index f x y + ch /\
  0 <= cell_index f x y + ch < Z.of_nat (length (flo_data f)).
Proof.
  intros Hv Hx Hy Hc.
  pose proof (valid_field_dims f Hv) as (Hw & Hh & Hwh & Hn).
  destruct Hv as (_ & _ & Hnm & _ & Hlen).
  pose proof (cell_index_bound (flo_w f) (flo_h f) (items_per_block (flo_fmt f)) x y ch
                Hx Hy Hc) as Hb.
  unfold cell_index. split; [|lia].
  apply (IDX_no_wrap (flo_w f) (flo_h f)); try assumption. lia.
Qed.

Lemma sample_value_valid f i : valid_binary 24 128 (sample_value f i) = true.
Proof. apply load_valid. Qed.

Lemma sample_value_finite f i :
  all_finite f -> 0 <= i < Z.of_nat (length (flo_data f)) ->
  F32.is_finite (sample_value f i) = true.
Proof.
  intros Hall Hi. unfold sample_value.
  destruct (lookup_lt_is_Some_2 (flo_data f) (Z.to_nat i)) as [s Hs]; [lia|].
  rewrite Hs. cbn [default].
  unfold all_finite in Hall. rewrite Forall_lookup in Hall. exact (Hall _ _ Hs).
Qed.

Lemma for_steps_progress {S : Type} (P : Z -> S -> Prop) (body : Z -> S -> mem S) :
  forall n i s,
    P i s ->
    (forall j t, i <= j < i + Z.of_nat n -> P j t -> exists t', body j t = Ok t' /\ P (j + 1) t') ->
    exists s', for_steps n i body s = Ok s' /\ P (i + Z.of_nat n) s'.
Proof.
  induction n as [|n IH]; intros i s Hs Hbody.
  - exists s. split; [reflexivity|]. rewrite Z.add_0_r. exact Hs.
  - destruct (Hbody i s ltac:(lia) Hs) as (s1 & E1 & H1).
    destruct (IH (i + 1) s1 H1) as (s' & E' & H').
    { intros j t Hj. apply Hbody. lia. }
    exists s'. split.
    + cbn [for_steps]. rewrite E1. exact E'.
    + replace (i + Z.of_nat (Datatypes.S n)) with (i + 1 + Z.of_nat n) by lia. exact H'.
Qed.

Lemma for_lt_progress {S : Type} (P : Z -> S -> Prop) (body : Z -> S -> mem S) lo hi s :
  lo <= hi ->
  P lo s ->
  (forall j t, lo <= j < hi -> P j t -> exists t', body j t = Ok t' /\ P (j + 1) t') ->
  exists s', for_lt lo hi body s = Ok s' /\ P hi s'.
Proof.
  intros Hle Hs Hbody.
  destruct (for_steps_progress P body (Z.to_nat (hi - lo)) lo s Hs) as (s' & E & H).
  { intros j t Hj. apply Hbody. lia. }
  exists s'. split; [exact E|]. replace hi with (lo + Z.of_nat (Z.to_nat (hi - lo))) by lia.
  exact H.
Qed.

Lemma for_lt_total {S : Type} (P : S -> Prop) (body : Z -> S -> mem S) lo hi s :
  P s ->
  (forall j t, lo <= j < hi -> P t -> exists t', body j t = Ok t' /\ P t') ->
  exists s', for_lt lo hi body s = Ok s' /\ P s'.
Proof.
  intros Hs Hbody.
  destruct (for_steps_progress (fun _ t => P t) body (Z.to_nat (hi - lo)) lo s Hs)
    as (s' & E & H).
  { intros j t Hj. apply Hbody. lia. }
  exists s'. split; assumption.
Qed.

Lemma for_lt_two {S : Type} (body : Z -> S -> mem S) k s :
  Int32.min_signed <= k <= Int32.max_signed - 2 ->
  for_lt k (Int32.add k 2) body s = s1 ← body k s; body (k + 1) s1.
Proof.
  intros Hk. unfold Int32.add. rewrite wrap_small
    by (unfold Int32.in_range, Int32.min_signed, Int32.max_signed in *; lia).
  unfold for_lt. replace (Z.to_nat (k + 2 - k)) with 2%nat by lia.
  cbn [for_steps]. destruct (body k s) as [s1|]; cbn [mbind mem_bind]; [|reflexivity].
  destruct (body (k + 1) s1); reflexivity.
Qed.

Lemma wrap_le z : 0 <= z -> Int32.wrap z <= z.
Proof.
  intros Hz. unfold Int32.wrap, Int32.modulus.
  pose proof (Z.mod_le (z + 2147483648) 4294967296 ltac:(lia) ltac:(lia)). lia.
Qed.

(** ** Corners, cells and the field *)

(** a corner outside the source leaves the sums as they are *)
Lemma corner_out_of_range in_flo npb wt ix iy wx wy acc :
  flo_w in_flo <= ix \/ flo_h in_flo <= iy ->
  corner in_flo npb wt ix iy wx wy acc = Ok acc.
Proof.
  intros H. unfold corner.
  destruct (Z.leb_spec (flo_w in_flo) ix); [reflexivity|].
  destruct (Z.leb_spec (flo_h in_flo) iy); [reflexivity|]. lia.
Qed.

(** a corner inside the source adds weight * sample to each sum *)
Lemma corner_in_range f wt ix iy wx wy acc wgt :
  valid_field f ->
  0 <= ix < flo_w f -> 0 <= iy < flo_h f ->
  weight_at wt wx wy = Ok wgt ->
  let k := cell_index f ix iy in
  corner f (items_per_block (flo_fmt f)) wt ix iy wx wy acc =
  Ok (mkSums (F32.add (sum_u acc) (F32.mul wgt (sample_value f k)))
             (F32.add (sum_v acc) (F32.mul wgt (sample_value f (k + 1))))
             (match flo_fmt f with
              | FF_FLOW => F32.add (sum_c acc) (F32.mul wgt (sample_value f (k + 2)))
              | FF_FLO => sum_c acc
              end)).
Proof.
  intros Hv Hx Hy Hw k. unfold corner.
  destruct (Z.leb_spec (flo_w f) ix); [lia|].
  destruct (Z.leb_spec (flo_h f) iy); [lia|]. cbn [orb].
  rewrite Hw. cbn [mbind mem_bind]. unfold U_IDX, V_IDX, C_IDX.
  assert (2 <= items_per_block (flo_fmt f) <= 3) as Hc
    by (destruct (flo_fmt f); cbn; lia).
  destruct (IDX_exact f 0 ix iy Hv Hx Hy ltac:(lia)) as [E0 B0].
  destruct (IDX_exact f 1 ix iy Hv Hx Hy ltac:(lia)) as [E1 B1].
  rewrite E0, E1, Z.add_0_r in *. fold k in B0, B1 |- *.
  rewrite (peek_in_range _ k B0), (peek_in_range _ (k + 1) B1). cbn [mbind mem_bind].
  unfold sample_value.
  destruct (flo_fmt f) eqn:Ef; [reflexivity|].
  destruct (IDX_exact f 2 ix iy Hv Hx Hy ltac:(rewrite Ef; cbn; lia)) as [E2 B2].
  rewrite Ef in E2. cbn [items_per_block] in E2 |- *. rewrite E2. fold k in B2 |- *.
  rewrite (peek_in_range _ (k + 2) B2). reflexivity.
Qed.

(** a corner with non-negative indices is read inside the source buffer *)
Lemma corner_total f wt ix iy wx wy acc :
  valid_field f ->
  0 <= ix -> 0 <= iy -> 0 <= wx <= 1 -> 0 <= wy <= 1 ->
  exists acc', corner f (items_per_block (flo_fmt f)) wt ix iy wx wy acc = Ok acc'.
Proof.
  intros Hv Hx Hy Hwx Hwy.
  destruct (Z.le_gt_cases (flo_w f) ix) as [|Hxw];
    [exists acc; apply corner_out_of_range; left; assumption|].
  destruct (Z.le_gt_cases (flo_h f) iy) as [|Hyh];
    [exists acc; apply corner_out_of_range; right; assumption|].
  assert (exists wgt, weight_at wt wx wy = Ok wgt) as [wgt Hw].
  { assert (wx = 0 \/ wx = 1) as [-> | ->] by lia;
      assert (wy = 0 \/ wy = 1) as [-> | ->] by lia; eexists; reflexivity. }
  eexists. apply (corner_in_range f wt ix iy wx wy acc wgt Hv); [lia | lia | exact Hw].
Qed.

(** the sums of a cell whose top-left corner has non-negative indices are
    computed without a read outside the source *)
Lemma sample_cell_total f sx sy x y :
  valid_field f ->
  0 <= F32.to_int_floor (F32.div (F32.of_int x) sx) ->
  0 <= F32.to_int_floor (F32.div (F32.of_int y) sy) ->
  exists s, sample_cell f (items_per_block (flo_fmt f)) sx sy x y = Ok s.
Proof.
  intros Hv Hkx Hky. unfold sample_cell.
  set (kx1 := F32.to_int_floor (F32.div (F32.of_int x) sx)) in *.
  set (ky1 := F32.to_int_floor (F32.div (F32.of_int y) sy)) in *.
  set (wt := interpolate2D_weights _ _).
  pose proof (wrap_le (kx1 + 2) ltac:(lia)) as Hx2.
  pose proof (wrap_le (ky1 + 2) ltac:(lia)) as Hy2.
  destruct (for_lt_total (fun _ => True)
              (fun iy acc =>
                 for_lt kx1 (Int32.add kx1 2)
                   (fun ix acc => corner f (items_per_block (flo_fmt f)) wt ix iy
                                    (ix - kx1) (iy - ky1) acc) acc)
              ky1 (Int32.add ky1 2) sums_zero I) as (s & E & _).
  - intros iy acc Hiy _.
    destruct (for_lt_total (fun _ => True)
                (fun ix acc => corner f (items_per_block (flo_fmt f)) wt ix iy
                                 (ix - kx1) (iy - ky1) acc)
                kx1 (Int32.add kx1 2) acc I) as (acc' & E & _).
    + intros ix a Hix _. unfold Int32.add in *.
      destruct (corner_total f wt ix iy (ix - kx1) (iy - ky1) a Hv) as [a' Ea]; try lia.
      exists a'. split; [exact Ea | exact I].
    + exists acc'. split; [exact E | exact I].
  - exists s. exact E.
Qed.

(** with positive scales, a cell whose conversions to [int] are in range
    has a top-left corner with non-negative indices, and its sums are
    computed without a read outside the source *)
Lemma sample_cell_in_bounds f sx sy x y :
  valid_field f ->
  0 <= x -> 0 <= y ->
  positive_scale sx -> positive_scale sy ->
  F32.to_int_floor (F32.div (F32.of_int x) sx) <> Int32.min_signed ->
  F32.to_int_floor (F32.div (F32.of_int y) sy) <> Int32.min_signed ->
  exists s, sample_cell f (items_per_block (flo_fmt f)) sx sy x y = Ok s.
Proof.
  intros Hv Hx Hy Hsx Hsy Hkx Hky.
  destruct (to_int_floor_not_negative _ (div_not_negative x sx Hx Hsx)) as [|Hx1];
    [contradiction|].
  destruct (to_int_floor_not_negative _ (div_not_negative y sy Hy Hsy)) as [|Hy1];
    [contradiction|].
  apply sample_cell_total; assumption.
Qed.

Lemma store_cell_stored w h fmt x y s data :
  0 <= x < w -> 0 <= y < h ->
  w * h * items_per_block fmt <= Int32.max_signed ->
  Z.of_nat (length data) = w * h * items_per_block fmt ->
  exists data',
    store_cell w fmt (items_per_block fmt) x y s data = Ok data' /\
    length data' = length data /\
    stored_cell data' ((y * w + x) * items_per_block fmt) fmt s /\
    forall i : nat, Z.of_nat i < (y * w + x) * items_per_block fmt -> data' !! i = data !! i.
Proof.
  intros Hx Hy Hfit Hlen.
  assert (2 <= items_per_block fmt <= 3) as Hc by (destruct fmt; cbn; lia).
  pose proof (cell_index_bound w h (items_per_block fmt) x y 0 Hx Hy ltac:(lia)) as B0.
  pose proof (cell_index_bound w h (items_per_block fmt) x y 1 Hx Hy ltac:(lia)) as B1.
  unfold store_cell.
  rewrite (IDX_no_wrap w h (items_per_block fmt) 0 x y Hx Hy ltac:(lia) Hfit).
  rewrite (IDX_no_wrap w h (items_per_block fmt) 1 x y Hx Hy ltac:(lia) Hfit).
  set (k := (y * w + x) * items_per_block fmt) in *. rewrite Z.add_0_r in *.
  rewrite poke_in_range by lia. cbn [mbind mem_bind].
  rewrite poke_in_range by (rewrite length_insert; lia). cbn [mbind mem_bind].
  destruct fmt; cbn [items_per_block] in *.
  - eexists. split; [reflexivity|]. split; [rewrite !length_insert; reflexivity|].
    split; [split; [|split; [|discriminate]]|].
    + rewrite list_lookup_insert_ne by lia. apply list_lookup_insert_eq. lia.
    + apply list_lookup_insert_eq. rewrite length_insert. lia.
    + intros i Hi. rewrite !list_lookup_insert_ne by lia. reflexivity.
  - pose proof (cell_index_bound w h 3 x y 2 Hx Hy ltac:(lia)) as B2. fold k in B2.
    rewrite (IDX_no_wrap w h 3 2 x y Hx Hy ltac:(lia) Hfit). fold k.
    rewrite poke_in_range by (rewrite !length_insert; lia).
    eexists. split; [reflexivity|]. split; [rewrite !length_insert; reflexivity|].
    split; [split; [|split]|].
    + rewrite !list_lookup_insert_ne by lia. apply list_lookup_insert_eq. lia.
    + rewrite list_lookup_insert_ne by lia. apply list_lookup_insert_eq.
      rewrite length_insert. lia.
    + intros _. apply list_lookup_insert_eq. rewrite !length_insert. lia.
    + intros i Hi. rewrite !list_lookup_insert_ne by lia. reflexivity.
Qed.

(** every cell whose sums are computed without fault is stored, and stays
    as stored until the loops end *)
Lemma resample_cells f w h sx sy :
  0 < w -> 0 < h ->
  sample_count (flo_fmt f) w h <= Int32.max_signed ->
  (forall x y, 0 <= x < w -> 0 <= y < h ->
     exists s, sample_cell f (items_per_block (flo_fmt f))
                 (effective_scale sx w (flo_w f)) (effective_scale sy h (flo_h f)) x y = Ok s) ->
  exists out,
    resample f w h sx sy = Ok out /\
    flo_w out = w /\ flo_h out = h /\ flo_fmt out = flo_fmt f /\
    flo_nmemb out = sample_count (flo_fmt f) w h /\
    Z.of_nat (length (flo_data out)) = sample_count (flo_fmt f) w h /\
    forall x y s, 0 <= x < w -> 0 <= y < h ->
      sample_cell f (items_per_block (flo_fmt f))
        (effective_scale sx w (flo_w f)) (effective_scale sy h (flo_h f)) x y = Ok s ->
      stored_cell (flo_data out) ((y * w + x) * items_per_block (flo_fmt f)) (flo_fmt f) s.
Proof.
  intros Hw Hh Hfit Hcells. unfold sample_count in *.
  set (npb := items_per_block (flo_fmt f)) in *.
  set (ex := effective_scale sx w (flo_w f)) in *.
  set (ey := effective_scale sy h (flo_h f)) in *.
  assert (2 <= npb <= 3) as Hc by (subst npb; destruct (flo_fmt f); cbn; lia).
  unfold resample, alloc_out. fold npb ex ey.
  assert (Int32.mul (Int32.mul npb w) h = w * h * npb) as En.
  { unfold Int32.mul, Int32.max_signed in *.
    rewrite (wrap_small (npb * w))
      by (unfold Int32.in_range, Int32.min_signed, Int32.max_signed; nia).
    rewrite wrap_small
      by (unfold Int32.in_range, Int32.min_signed, Int32.max_signed; nia).
    lia. }
  assert (0 <= w * h * npb) as Hpos by nia.
  rewrite En, malloc_floats_small by lia.
  cbn [mbind mem_bind flo_w flo_h flo_fmt flo_nmemb flo_data].
  pose (Inv := fun (l : Z) (data : list float32) =>
    Z.of_nat (length data) = w * h * npb /\
    forall x y s, 0 <= x < w -> 0 <= y < h -> y * w + x < l ->
      sample_cell f npb ex ey x y = Ok s ->
      stored_cell data ((y * w + x) * npb) (flo_fmt f) s).
  destruct (for_lt_progress (fun y data => Inv (y * w) data)
              (fun y data =>
                 for_lt 0 w (fun x data =>
                   s ← sample_cell f npb ex ey x y;
                   store_cell w (flo_fmt f) npb x y s data) data)
              0 h (replicate (Z.to_nat (w * h * npb)) float32_zero))
    as (data & Erun & Hlen & Hdone).
  - lia.
  - split; [rewrite length_replicate; lia|]. intros x y s Hx Hy Hl. nia.
  - intros y data Hy Hrow.
    destruct (for_lt_progress (fun x data => Inv (y * w + x) data)
                (fun x data =>
                   s ← sample_cell f npb ex ey x y;
                   store_cell w (flo_fmt f) npb x y s data)
                0 w data) as (data' & Erow & Hrow').
    + lia.
    + rewrite Z.add_0_r. exact Hrow.
    + intros x d Hx [Hdl Hd].
      destruct (Hcells x y ltac:(lia) ltac:(lia)) as [s Es]. rewrite Es.
      cbn [mbind mem_bind].
      destruct (store_cell_stored w h (flo_fmt f) x y s d ltac:(lia) ltac:(lia) Hfit Hdl)
        as (d' & E & Hl' & Hst & Hkeep).
      exists d'. split; [exact E|]. split; [lia|].
      intros x' y' s' Hx' Hy' Hl Es'.
      destruct (Z.eq_dec (y' * w + x') (y * w + x)) as [Heq|Hne].
      * assert (y' = y) by nia. subst y'. assert (x' = x) by lia. subst x'.
        rewrite Es in Es'. ok_inj Es'. subst s'. exact Hst.
      * assert (y' * w + x' < y * w + x) as Hlt by lia.
        destruct (Hd x' y' s' Hx' Hy' Hlt Es') as (S0 & S1 & S2).
        assert ((y' * w + x') * npb + npb <= (y * w + x) * npb) as Hsep by nia.
        assert (0 <= (y' * w + x') * npb) by nia.
        split; [|split].
        -- rewrite Hkeep by lia. exact S0.
        -- rewrite Hkeep by lia. exact S1.
        -- intros Ef. rewrite Hkeep; [exact (S2 Ef)|].
           subst npb. rewrite Ef in *. cbn [items_per_block] in *. lia.
    + exists data'. split; [exact Erow|].
      replace ((y + 1) * w) with (y * w + w) by lia. exact Hrow'.
  - rewrite Erun. cbn [mbind mem_bind].
    eexists. split; [reflexivity|].
    cbn [flo_w flo_h flo_fmt flo_nmemb flo_data].
    repeat (split; [first [reflexivity | lia]|]).
    intros x y s Hx Hy Es. apply (Hdone x y s Hx Hy); [nia | exact Es].
Qed.

(** the whole field is computed when the product of the target dimensions
    fits an [int] and the conversions of every cell are in range *)
Lemma resample_total f w h sx sy :
  valid_field f ->
  0 < w -> 0 < h ->
  sample_count (flo_fmt f) w h <= Int32.max_signed ->
  positive_scale (effective_scale sx w (flo_w f)) ->
  positive_scale (effective_scale sy h (flo_h f)) ->
  (forall x, 0 <= x < w ->
     F32.to_int_floor (F32.div (F32.of_int x) (effective_scale sx w (flo_w f)))
     <> Int32.min_signed) ->
  (forall y, 0 <= y < h ->
     F32.to_int_floor (F32.div (F32.of_int y) (effective_scale sy h (flo_h f)))
     <> Int32.min_signed) ->
  exists out,
    resample f w h sx sy = Ok out /\
    flo_w out = w /\ flo_h out = h /\ flo_fmt out = flo_fmt f /\
    flo_nmemb out = sample_count (flo_fmt f) w h /\
    Z.of_nat (length (flo_data out)) = sample_count (flo_fmt f) w h.
Proof.
  intros Hv Hw Hh Hfit Hsx Hsy Hkx Hky.
  destruct (resample_cells f w h sx sy Hw Hh Hfit) as (out & E & H1 & H2 & H3 & H4 & H5 & _).
  { intros x y Hx Hy. apply sample_cell_in_bounds; try assumption; try lia.
    - apply Hkx. lia.
    - apply Hky. lia. }
  exists out. repeat split; assumption.
Qed.

Lemma channel_source f ch x y :
  valid_field f ->
  0 <= x < flo_w f -> 0 <= y < flo_h f -> 0 <= ch < items_per_block (flo_fmt f) ->
  channel f ch x y = Ok (sample_value f (cell_index f x y + ch)).
Proof.
  intros Hv Hx Hy Hc. unfold channel.
  destruct (IDX_exact f ch x y Hv Hx Hy Hc) as [E B].
  rewrite E, (peek_in_range _ _ B). reflexivity.
Qed.

(** the value of a channel of a stored cell *)
Lemma channel_stored out w h x y ch s :
  flo_w out = w ->
  0 <= x < w -> 0 <= y < h -> 0 <= ch < items_per_block (flo_fmt out) ->
  w * h * items_per_block (flo_fmt out) <= Int32.max_signed ->
  stored_cell (flo_data out) ((y * w + x) * items_per_block (flo_fmt out)) (flo_fmt out) s ->
  channel out ch x y =
  Ok (load (store (if ch =? 0 then sum_u s else if ch =? 1 then sum_v s else sum_c s))).
Proof.
  intros Ew Hx Hy Hc Hfit (S0 & S1 & S2). unfold channel. rewrite Ew.
  rewrite (IDX_no_wrap w h _ ch x y Hx Hy Hc Hfit).
  assert (2 <= items_per_block (flo_fmt out) <= 3) as Hnpb
    by (destruct (flo_fmt out); cbn; lia).
  assert (0 <= (y * w + x) * items_per_block (flo_fmt out))
    by (apply Z.mul_nonneg_nonneg; nia).
  assert (ch = 0 \/ ch = 1 \/ (ch = 2 /\ flo_fmt out = FF_FLOW)) as [-> | [-> | [-> Ef]]]
    by (revert Hc; destruct (flo_fmt out); cbn [items_per_block]; intros Hc;
        [assert (ch = 0 \/ ch = 1) as [-> | ->] by lia
        |assert (ch = 0 \/ ch = 1 \/ ch = 2) as [-> | [-> | ->]] by lia]; auto).
  - rewrite Z.add_0_r. rewrite (peek_lookup _ _ _ H S0). reflexivity.
  - apply peek_lookup in S1; [|lia]. rewrite S1. reflexivity.
  - specialize (S2 Ef). apply peek_lookup in S2; [|lia]. rewrite S2. reflexivity.
Qed.

(** ** Identity scaling *)

Create HintDb flo discriminated.

#[local] Hint Resolve load_valid sample_value_valid sample_value_finite
  valid_drop_zero_sign settled_drop_zero_sign settled_zero : flo.

Section Identity.

Variable f : FLOfile.
Hypothesis Hv : valid_field f.
Hypothesis Hall : all_finite f.
Hypothesis Hw : flo_w f <= 16777216.
Hypothesis Hh : flo_h f <= 16777216.

Local Abbreviation npb := (items_per_block (flo_fmt f)).

Lemma channels_of_field : 2 <= npb <= 3.
Proof. destruct (flo_fmt f); cbn; lia. Qed.

Lemma identity_sums_settled x y :
  0 <= x < flo_w f -> 0 <= y < flo_h f -> settled_sums (identity_sums f x y).
Proof.
  intros Hx Hy. pose proof channels_of_field as Hc.
  destruct (IDX_exact f 0 x y Hv Hx Hy ltac:(lia)) as [_ B0].
  destruct (IDX_exact f 1 x y Hv Hx Hy ltac:(lia)) as [_ B1].
  rewrite Z.add_0_r in B0.
  unfold settled_sums, identity_sums. cbn [sum_u sum_v sum_c].
  split; [auto with flo | split; [auto with flo|]].
  destruct (flo_fmt f) eqn:Ef; [auto with flo|].
  destruct (IDX_exact f 2 x y Hv Hx Hy ltac:(rewrite Ef; cbn; lia)) as [_ B2].
  auto with flo.
Qed.

(** the corner of weight 1 met first sets the sums to the source cell *)
Lemma corner_unit_weight wt x y wx wy :
  0 <= x < flo_w f -> 0 <= y < flo_h f ->
  weight_at wt wx wy = Ok F32.one ->
  corner f npb wt x y wx wy sums_zero = Ok (identity_sums f x y).
Proof.
  intros Hx Hy Hwt. pose proof channels_of_field as Hc.
  destruct (IDX_exact f 0 x y Hv Hx Hy ltac:(lia)) as [_ B0].
  destruct (IDX_exact f 1 x y Hv Hx Hy ltac:(lia)) as [_ B1].
  rewrite Z.add_0_r in B0.
  rewrite (corner_in_range f wt x y wx wy sums_zero F32.one Hv Hx Hy Hwt).
  cbv zeta. unfold identity_sums. cbn [sum_u sum_v sum_c sums_zero].
  rewrite !add_zero_mul_one by auto with flo.
  destruct (flo_fmt f) eqn:Ef; [reflexivity|].
  destruct (IDX_exact f 2 x y Hv Hx Hy ltac:(rewrite Ef; cbn; lia)) as [_ B2].
  rewrite add_zero_mul_one by auto with flo.
  reflexivity.
Qed.

(** a corner of weight 0, inside the source or not, changes nothing when the
    samples are finite *)
Lemma corner_zero_weight wt ix iy wx wy acc :
  0 <= ix -> 0 <= iy ->
  weight_at wt wx wy = Ok F32.zero ->
  settled_sums acc ->
  corner f npb wt ix iy wx wy acc = Ok acc.
Proof.
  intros Hx Hy Hwt (Hu & Hvv & Hcc). pose proof channels_of_field as Hc.
  destruct (Z.le_gt_cases (flo_w f) ix) as [|Hxw];
    [apply corner_out_of_range; left; assumption|].
  destruct (Z.le_gt_cases (flo_h f) iy) as [|Hyh];
    [apply corner_out_of_range; right; assumption|].
  destruct (IDX_exact f 0 ix iy Hv ltac:(lia) ltac:(lia) ltac:(lia)) as [_ B0].
  destruct (IDX_exact f 1 ix iy Hv ltac:(lia) ltac:(lia) ltac:(lia)) as [_ B1].
  rewrite Z.add_0_r in B0.
  rewrite (corner_in_range f wt ix iy wx wy acc F32.zero Hv ltac:(lia) ltac:(lia) Hwt).
  cbv zeta.
  rewrite !add_mul_zero by auto with flo.
  destruct (flo_fmt f) eqn:Ef; [destruct acc; reflexivity|].
  destruct (IDX_exact f 2 ix iy Hv ltac:(lia) ltac:(lia) ltac:(rewrite Ef; cbn; lia))
    as [_ B2].
  rewrite add_mul_zero by auto with flo.
  destruct acc; reflexivity.
Qed.

(** with both scales 1 and finite samples, the sums of a cell are the
    source cell *)
Lemma sample_cell_identity x y :
  0 <= x < flo_w f -> 0 <= y < flo_h f ->
  sample_cell f npb F32.one F32.one x y = Ok (identity_sums f x y).
Proof.
  intros Hx Hy. unfold sample_cell.
  destruct (coord_identity x ltac:(lia)) as [Ex _].
  destruct (coord_identity y ltac:(lia)) as [Ey _].
  rewrite weights_identity by lia. rewrite Ex, Ey.
  rewrite for_lt_two by (unfold Int32.min_signed, Int32.max_signed; lia).
  rewrite for_lt_two by (unfold Int32.min_signed, Int32.max_signed; lia).
  rewrite !Z.sub_diag.
  rewrite corner_unit_weight by (first [assumption | reflexivity]).
  cbn [mbind mem_bind].
  pose proof (identity_sums_settled x y Hx Hy) as Hs.
  replace (x + 1 - x) with 1 by lia. replace (y + 1 - y) with 1 by lia.
  rewrite corner_zero_weight by (first [assumption | reflexivity | lia]).
  cbn [mbind mem_bind].
  rewrite for_lt_two by (unfold Int32.min_signed, Int32.max_signed; lia).
  rewrite !Z.sub_diag. replace (x + 1 - x) with 1 by lia.
  rewrite corner_zero_weight by (first [assumption | reflexivity | lia]).
  cbn [mbind mem_bind].
  apply corner_zero_weight; first [assumption | reflexivity | lia].
Qed.

End Identity.

(** C6, for finite samples. For a well-formed field whose samples are all
    finite and whose dimensions do not exceed 2^24, resampling to its own
    dimensions with both scales 1 computes a field in which every cell,
    interior or not, holds for every channel the source value: the stored
    value compares equal to the source value and is the same value, a zero
    being stored as +0.0. *)
Theorem identity_scaling (f : FLOfile) :
  valid_field f -> all_finite f ->
  flo_w f <= 16777216 -> flo_h f <= 16777216 ->
  exists out,
    resample f (flo_w f) (flo_h f) F32.one F32.one = Ok out /\
    forall x y ch,
      0 <= x < flo_w f -> 0 <= y < flo_h f -> 0 <= ch < items_per_block (flo_fmt f) ->
      exists v,
        channel f ch x y = Ok v /\
        channel out ch x y = Ok (drop_zero_sign v) /\
        F32.eqb (drop_zero_sign v) v = true.
Proof.
  intros Hv Hall Hw Hh.
  pose proof (valid_field_dims f Hv) as (Hwp & Hhp & Hwh & Hn).
  pose proof Hv as (_ & _ & Hnm & _ & Hlen).
  assert (sample_count (flo_fmt f) (flo_w f) (flo_h f) <= Int32.max_signed) as Hfit
    by (unfold sample_count; lia).
  destruct (resample_cells f (flo_w f) (flo_h f) F32.one F32.one) as
    (out & Erun & Eow & Eoh & Eof & _ & _ & Hcells); try lia.
  { intros x y Hx Hy. exists (identity_sums f x y).
    apply sample_cell_identity; assumption. }
  exists out. split; [exact Erun|].
  intros x y ch Hx Hy Hc.
  exists (sample_value f (cell_index f x y + ch)).
  split; [apply channel_source; assumption|].
  assert (2 <= items_per_block (flo_fmt f) <= 3) as Hnpb
    by (destruct (flo_fmt f); cbn; lia).
  destruct (IDX_exact f ch x y Hv Hx Hy Hc) as [_ B].
  split; [|apply eqb_drop_zero_sign, sample_value_finite; assumption].
  pose proof (Hcells x y (identity_sums f x y) Hx Hy
                (sample_cell_identity f Hv Hall Hw Hh x y Hx Hy)) as Hst.
  rewrite <- Eof in Hst, Hc.
  rewrite (channel_stored out (flo_w f) (flo_h f) x y ch (identity_sums f x y)
             Eow Hx Hy Hc ltac:(rewrite Eof; exact Hfit) Hst).
  rewrite load_store.
  - f_equal. unfold identity_sums. cbn [sum_u sum_v sum_c].
    rewrite Eof in Hc.
    assert (ch = 0 \/ ch = 1 \/ (ch = 2 /\ flo_fmt f = FF_FLOW)) as [-> | [-> | [-> Ef]]]
      by (revert Hc; destruct (flo_fmt f); cbn [items_per_block]; intros Hc;
          [assert (ch = 0 \/ ch = 1) as [-> | ->] by lia
          |assert (ch = 0 \/ ch = 1 \/ ch = 2) as [-> | [-> | ->]] by lia]; auto).
    + rewrite Z.add_0_r. reflexivity.
    + reflexivity.
    + rewrite Ef. reflexivity.
  - unfold identity_sums. cbn [sum_u sum_v sum_c].
    destruct (ch =? 0); [apply valid_drop_zero_sign, sample_value_valid|].
    destruct (ch =? 1); [apply valid_drop_zero_sign, sample_value_valid|].
    destruct (flo_fmt f); [reflexivity | apply valid_drop_zero_sign, sample_value_valid].
Qed.

(** the claim C6 as stated fails: the interior cell (1,1) of
    [infinity_field] holds 1.0 and its right neighbour +infinity; the
    identity resampling stores 0 * infinity + 1.0, a NaN, in the cell *)
Lemma identity_scaling_counterexample :
  valid_field infinity_field /\
  exists out,
    resample infinity_field 3 3 F32.one F32.one = Ok out /\
    channel infinity_field 0 1 1 = Ok F32.one /\
    channel out 0 1 1 = Ok S754_nan.
Proof.
  split.
  - unfold valid_field, infinity_field. cbn [flo_w flo_h flo_fmt flo_nmemb flo_data].
    repeat split; try lia; try reflexivity. vm_compute. discriminate.
  - destruct (resample infinity_field 3 3 F32.one F32.one) as [out|] eqn:E;
      [|vm_compute in E; discriminate].
    exists out. split; [reflexivity|].
    vm_compute in E. ok_inj E. subst out. split; vm_compute; reflexivity.
Qed.

(** beyond 2^24 the conversion of a column to [float] rounds: in a field
    wider than 2^24 + 1, cell (2^24 + 1, 0) receives the value of source cell
    (2^24, 0), not its own *)
Lemma sample_cell_rounded_column f :
  valid_field f -> all_finite f -> 16777217 < flo_w f ->
  sample_cell f (items_per_block (flo_fmt f)) F32.one F32.one 16777217 0 =
  Ok (identity_sums f 16777216 0).
Proof.
  intros Hv Hall Hw.
  pose proof (valid_field_dims f Hv) as (_ & Hh & _).
  assert (F32.div (F32.of_int 16777217) F32.one = S754_finite false 8388608 1) as Ex
    by (vm_compute; reflexivity).
  assert (F32.div (F32.of_int 0) F32.one = F32.zero) as Ey by (vm_compute; reflexivity).
  unfold sample_cell. rewrite Ex, Ey.
  assert (interpolate2D_weights (S754_finite false 8388608 1) F32.zero =
          mkWeights F32.one F32.zero F32.zero F32.zero) as -> by (vm_compute; reflexivity).
  assert (F32.to_int_floor (S754_finite false 8388608 1) = 16777216) as ->
    by (vm_compute; reflexivity).
  assert (F32.to_int_floor F32.zero = 0) as -> by (vm_compute; reflexivity).
  pose proof (identity_sums_settled f Hv Hall 16777216 0 ltac:(lia) ltac:(lia)) as Hs.
  rewrite for_lt_two by (unfold Int32.min_signed, Int32.max_signed; lia).
  rewrite for_lt_two by (unfold Int32.min_signed, Int32.max_signed; lia).
  rewrite !Z.sub_diag.
  rewrite (corner_unit_weight f Hv Hall) by (first [reflexivity | lia]).
  cbn [mbind mem_bind].
  replace (16777216 + 1 - 16777216) with 1 by lia. replace (0 + 1 - 0) with 1 by lia.
  rewrite (corner_zero_weight f Hv Hall) by (first [assumption | reflexivity | lia]).
  cbn [mbind mem_bind].
  rewrite for_lt_two by (unfold Int32.min_signed, Int32.max_signed; lia).
  rewrite !Z.sub_diag. replace (16777216 + 1 - 16777216) with 1 by lia.
  rewrite (corner_zero_weight f Hv Hall) by (first [assumption | reflexivity | lia]).
  cbn [mbind mem_bind].
  apply (corner_zero_weight f Hv Hall); first [assumption | reflexivity | lia].
Qed.

(** a source -0.0 is not kept bit for bit: 0.0 + 1.0 * (-0.0) is +0.0 *)
Lemma identity_negative_zero :
  let f := constant_field FF_FLO 1 1 (store (S754_zero true)) in
  resample f 1 1 F32.one F32.one = Ok (constant_field FF_FLO 1 1 float32_zero) /\
  store (S754_zero true) <> float32_zero.
Proof.
  split; [vm_compute; reflexivity | discriminate].
Qed.

(** ** The boundary of a constant field *)

Lemma constant_field_valid fmt w h s :
  0 < w -> 0 < h -> sample_count fmt w h <= Int32.max_signed ->
  valid_field (constant_field fmt w h s).
Proof.
  intros Hw Hh Hfit. unfold valid_field, constant_field. cbn [flo_w flo_h flo_fmt flo_nmemb flo_data].
  repeat split; try assumption. apply length_replicate.
Qed.

Lemma sample_value_constant fmt w h s i :
  0 <= i < sample_count fmt w h ->
  sample_value (constant_field fmt w h s) i = load s.
Proof.
  intros Hi. unfold sample_value, constant_field. cbn [flo_data].
  rewrite lookup_replicate_2 by lia. reflexivity.
Qed.

Ltac eval_corner f Hv :=
  first
    [ rewrite corner_out_of_range by (unfold f, constant_field; cbn [flo_w flo_h]; lia)
    | erewrite (corner_in_range f);
      [ | exact Hv
        | unfold f, constant_field; cbn [flo_w flo_h]; lia
        | unfold f, constant_field; cbn [flo_w flo_h]; lia
        | reflexivity ] ];
  cbn [mbind mem_bind].

Lemma edge_cell_sums fmt k x y :
  0 <= x <= 3 -> 0 <= y <= 3 -> x = 3 \/ y = 3 ->
  let f := constant_field fmt 2 2 k in
  let v := edge_value x y (load k) in
  sample_cell f (items_per_block (flo_fmt f)) F32.two F32.two x y =
  Ok (mkSums v v (match fmt with FF_FLOW => v | FF_FLO => F32.zero end)).
Proof.
  intros Hx Hy Hedge f v.
  assert (valid_field f) as Hv
    by (apply constant_field_valid; [lia | lia | destruct fmt; vm_compute; discriminate]).
  assert (forall i, 0 <= i < sample_count fmt 2 2 -> sample_value f i = load k) as Hs
    by (intros i Hi; apply sample_value_constant; exact Hi).
  assert (x = 0 \/ x = 1 \/ x = 2 \/ x = 3) as Hxs by lia.
  assert (y = 0 \/ y = 1 \/ y = 2 \/ y = 3) as Hys by lia.
  unfold sample_cell.
  destruct Hxs as [-> | [-> | [-> | ->]]]; destruct Hys as [-> | [-> | [-> | ->]]];
    try (exfalso; lia);
    match goal with
    | |- for_lt ?ky1 _ (fun iy acc => for_lt ?kx1 _ (fun ix acc' => corner _ _ ?wt _ _ _ _ _) _) _ = _ =>
        let a := eval vm_compute in kx1 in
        let b := eval vm_compute in ky1 in
        let c := eval vm_compute in wt in
        change kx1 with a; change ky1 with b; change wt with c
    end;
    rewrite for_lt_two by (unfold Int32.min_signed, Int32.max_signed; lia);
    rewrite for_lt_two by (unfold Int32.min_signed, Int32.max_signed; lia);
    cbn [mbind mem_bind];
    eval_corner f Hv; eval_corner f Hv;
    rewrite for_lt_two by (unfold Int32.min_signed, Int32.max_signed; lia);
    eval_corner f Hv; eval_corner f Hv;
    cbn [sum_u sum_v sum_c sums_zero w00 w10 w01 w11];
    rewrite ?Hs by (destruct fmt; vm_compute; split; congruence);
    subst v f; unfold edge_value; cbn [Z.eqb Pos.eqb andb orb];
    destruct fmt; cbn [constant_field flo_fmt]; reflexivity.
Qed.

Lemma edge_value_lt x y m e :
  bounded 24 128 m e = true ->
  let k := S754_finite false m e in
  valid_binary 24 128 (edge_value x y k) = true /\ F32.ltb (edge_value x y k) k = true.
Proof.
  intros Hb k. unfold edge_value.
  destruct ((x =? 3) && (y =? 3)); [apply quarter_lt; exact Hb|].
  destruct ((x =? 1) || (y =? 1)); [apply quarter_twice_lt; exact Hb|].
  destruct (half_lt m e Hb) as (Hv & Hlt & Hz).
  destruct ((x =? 2) || (y =? 2)); [split; assumption|].
  fold k in Hz. rewrite Hz. split; assumption.
Qed.

Lemma sample_cell_constant_total fmt k x y :
  0 <= x <= 3 -> 0 <= y <= 3 ->
  let f := constant_field fmt 2 2 k in
  exists s, sample_cell f (items_per_block (flo_fmt f)) F32.two F32.two x y = Ok s.
Proof.
  intros Hx Hy f. apply sample_cell_total.
  - apply constant_field_valid; [lia | lia | destruct fmt; vm_compute; discriminate].
  - assert (x = 0 \/ x = 1 \/ x = 2 \/ x = 3) as [-> | [-> | [-> | ->]]] by lia;
      vm_compute; discriminate.
  - assert (y = 0 \/ y = 1 \/ y = 2 \/ y = 3) as [-> | [-> | [-> | ->]]] by lia;
      vm_compute; discriminate.
Qed.

Lemma example_field_valid : valid_field example_field.
Proof.
  unfold valid_field, example_field. cbn [flo_w flo_h flo_fmt flo_nmemb flo_data].
  repeat split; try lia; try reflexivity. vm_compute. discriminate.
Qed.

(** On the 4x4 grid with both scales 2 the weights left at the edge are
    0.25 and 0.5, and scaling by them is exact or rounds down: for a 2x2
    source whose samples all are a positive finite k, subnormal ones
    included, every cell of the last row and of the last column holds
    [edge_value], the weights 0.25 or 0.5 of the corners inside the source
    times k, summed, and that value is strictly less than k. *)
Lemma edge_cells_double (fmt : FLOformat) (k : float32) (m : positive) (e : Z)
    (sx sy : spec_float) :
  load k = S754_finite false m e ->
  effective_scale sx 4 2 = F32.two ->
  effective_scale sy 4 2 = F32.two ->
  (forall in_flo npb wt ix iy wx wy acc,
     flo_w in_flo <= ix \/ flo_h in_flo <= iy ->
     corner in_flo npb wt ix iy wx wy acc = Ok acc) /\
  exists out,
    resample (constant_field fmt 2 2 k) 4 4 sx sy = Ok out /\
    forall x y ch,
      0 <= x <= 3 -> 0 <= y <= 3 -> x = 3 \/ y = 3 ->
      0 <= ch < items_per_block fmt ->
      channel out ch x y = Ok (edge_value x y (load k)) /\
      F32.ltb (edge_value x y (load k)) (load k) = true.
Proof.
  intros Hk Hsx Hsy.
  split; [intros; apply corner_out_of_range; assumption|].
  set (f := constant_field fmt 2 2 k).
  assert (bounded 24 128 m e = true) as Hb
    by (pose proof (load_valid k) as Hv; rewrite Hk in Hv; exact Hv).
  assert (sample_count (flo_fmt f) 4 4 <= Int32.max_signed) as Hfit
    by (destruct fmt; vm_compute; discriminate).
  destruct (resample_cells f 4 4 sx sy) as
    (out & Erun & Eow & Eoh & Eof & _ & _ & Hcells); [lia | lia | exact Hfit | |].
  { intros x y Hx Hy.
    change (flo_w f) with 2. change (flo_h f) with 2. rewrite Hsx, Hsy.
    apply sample_cell_constant_total; lia. }
  exists out. split; [exact Erun|].
  intros x y ch Hx Hy Hedge Hc.
  destruct (edge_value_lt x y m e Hb) as [Hvalid Hlt]. rewrite <- Hk in Hvalid, Hlt.
  split; [|exact Hlt].
  pose proof (edge_cell_sums fmt k x y Hx Hy Hedge) as Hsums. cbv zeta in Hsums.
  fold f in Hsums.
  specialize (Hcells x y _ ltac:(lia) ltac:(lia)
                ltac:(change (flo_w f) with 2; change (flo_h f) with 2;
                      rewrite Hsx, Hsy; exact Hsums)).
  change (flo_fmt f) with fmt in *.
  rewrite <- Eof in Hcells, Hc.
  rewrite (channel_stored out 4 4 x y ch _ Eow ltac:(lia) ltac:(lia) Hc
             ltac:(rewrite Eof; exact Hfit) Hcells).
  cbn [sum_u sum_v sum_c]. rewrite Eof in Hc |- *.
  assert ((if ch =? 0 then edge_value x y (load k)
           else if ch =? 1 then edge_value x y (load k)
           else match fmt with
                | FF_FLO => F32.zero
                | FF_FLOW => edge_value x y (load k)
                end) = edge_value x y (load k)) as ->.
  { destruct (Z.eqb_spec ch 0); [reflexivity|].
    destruct (Z.eqb_spec ch 1); [reflexivity|].
    revert Hc. destruct fmt; cbn [items_per_block]; intros Hc; [lia | reflexivity]. }
  rewrite load_store by exact Hvalid. reflexivity.
Qed.

(** the claim C1 as stated fails for a negative constant: with every
    sample -1.0 the corner cell (3,3) of the 4x4 result holds -0.25, which
    is greater than -1.0, not less *)
Lemma boundary_attenuation_counterexample :
  let k := F32.minus_one in
  let f := constant_field FF_FLO 2 2 (store k) in
  valid_field f /\ load (store k) = k /\
  exists out,
    resample f 4 4 (scale_arg None) (scale_arg None) = Ok out /\
    channel out 0 3 3 = Ok (S754_finite true 8388608 (-25)) /\
    F32.ltb (S754_finite true 8388608 (-25)) k = false /\
    F32.ltb k (S754_finite true 8388608 (-25)) = true.
Proof.
  cbv zeta. split; [apply constant_field_valid; [lia | lia | vm_compute; discriminate]|].
  split; [vm_compute; reflexivity|].
  destruct (resample (constant_field FF_FLO 2 2 (store F32.minus_one)) 4 4
              (scale_arg None) (scale_arg None)) as [out|] eqn:E;
    [|vm_compute in E; discriminate].
  exists out. split; [reflexivity|].
  vm_compute in E. ok_inj E. subst out. repeat split; vm_compute; reflexivity.
Qed.

(** on a 3x3 target the weight left at an edge is 2/3, and a constant too
    small to be scaled by it is rounded back to itself: with every sample
    the smallest subnormal, the edge cells (2,0) and (0,2) hold the constant,
    not less *)
Lemma boundary_smallest_subnormal :
  let f := constant_field FF_FLO 2 2 (store smallest_subnormal) in
  exists out,
    resample f 3 3 (scale_arg None) (scale_arg None) = Ok out /\
    channel out 0 2 0 = Ok smallest_subnormal /\
    channel out 0 0 2 = Ok smallest_subnormal.
Proof.
  cbv zeta.
  destruct (resample (constant_field FF_FLO 2 2 (store smallest_subnormal)) 3 3
              (scale_arg None) (scale_arg None)) as [out|] eqn:E;
    [|vm_compute in E; discriminate].
  exists out. split; [reflexivity|].
  vm_compute in E. ok_inj E. subst out. split; vm_compute; reflexivity.
Qed.

(** ** A scale too small for [int] *)

(** C10. A 1x1 field of the 3-channel format resampled to 2x1 with the
    positive scale 2^-37 in x: cell (1,0) maps to 2^37, outside the range of
    [int]; the conversion yields INT_MIN, the one-sided test lets that index
    through, and the source is read at the negative position -2147483648. *)
Theorem negative_index_read :
  valid_field one_cell_flow /\
  positive_scale tiny_scale /\ positive_scale F32.one /\
  F32.floor (F32.div (F32.of_int 1) tiny_scale) = Some 137438953472 /\
  F32.to_int_floor (F32.div (F32.of_int 1) tiny_scale) = Int32.min_signed /\
  sample_cell one_cell_flow 3 tiny_scale F32.one 1 0 = Fault (BadRead (-2147483648)) /\
  resample one_cell_flow 2 1 tiny_scale F32.one = Fault (BadRead (-2147483648)) /\
  extrapolate 2 1 tiny_scale F32.one (Some (flow_bytes one_cell_flow)) true = Crash.
Proof.
  split; [apply constant_field_valid; [lia | lia | vm_compute; discriminate]|].
  repeat split; vm_compute; reflexivity.
Qed.

(** ** The theorems at concrete inputs *)

Lemma read_flow_write_flow_witness :
  valid_field example_field /\
  (write_flow true example_field = (0, Some (flow_bytes example_field)) /\
   read_flow (Some (flow_bytes example_field)) = ReadOk example_field).
Proof.
  split; [exact example_field_valid|].
  apply (read_flow_write_flow example_field). exact example_field_valid.
Defined.

Lemma default_scale_derivation_witness :
  F32.leb F32.minus_one F32.zero = true /\
  exists out,
    resample ramp_field 8 8 F32.minus_one F32.two = Ok out /\
    resample ramp_field 8 8 F32.two F32.minus_one = Ok out /\
    resample ramp_field 8 8 F32.minus_one F32.minus_one = Ok out /\
    resample ramp_field 8 8 F32.two F32.two = Ok out /\
    channel ramp_field 0 0 0 = Ok (F32.of_int 1) /\
    channel ramp_field 0 1 0 = Ok (F32.of_int 3) /\
    channel out 0 1 0 = Ok (F32.of_int 2).
Proof.
  split; [reflexivity|].
  destruct (default_scale_derivation ramp_field 8 8 F32.minus_one eq_refl)
    as (_ & _ & _ & _ & _ & _ & H).
  destruct (H eq_refl eq_refl) as (Hx & Hy & Hb & _). clear H.
  destruct (resample ramp_field 8 8 F32.two F32.two) as [out|] eqn:E;
    [|vm_compute in E; discriminate].
  exists out.
  split; [rewrite Hx; exact E|].
  split; [rewrite Hy; exact E|].
  split; [exact (Hb F32.minus_one eq_refl)|].
  split; [reflexivity|].
  vm_compute in E. ok_inj E. subst out.
  split; [vm_compute; reflexivity|].
  split; vm_compute; reflexivity.
Defined.

Lemma identity_scaling_witness :
  valid_field example_field /\ all_finite example_field /\
  exists out,
    resample example_field 2 2 F32.one F32.one = Ok out /\
    channel out 0 1 0 = Ok (F32.of_int 2).
Proof.
  assert (all_finite example_field) as Hall
    by (unfold all_finite, example_field; cbn [flo_data map];
        repeat constructor).
  split; [exact example_field_valid|]. split; [exact Hall|].
  destruct (identity_scaling example_field example_field_valid Hall) as (out & E & H);
    [cbn; lia | cbn; lia |].
  exists out. split; [exact E|].
  destruct (H 1 0 0) as (v & Ev & Eo & _); [cbn; lia | cbn; lia | cbn; lia |].
  rewrite Eo. vm_compute in Ev. ok_inj Ev. subst v. reflexivity.
Defined.

(** * Further properties of the code *)

(** ** More on the codec *)

Lemma byte_of_Z_of_byte b : byte_of_Z (Z_of_byte b) = b.
Proof.
  unfold byte_of_Z. pose proof (Z_of_byte_range b) as Hb.
  rewrite Z.mod_small by exact Hb. unfold Z_of_byte.
  rewrite N2Z.id, Byte.of_to_N. reflexivity.
Qed.

Lemma byte_of_Z_eq z b : z mod 256 = Z_of_byte b -> byte_of_Z z = b.
Proof.
  intros E. rewrite <- (byte_of_Z_of_byte b), <- E.
  unfold byte_of_Z. rewrite Z.mod_mod by lia. reflexivity.
Qed.

Lemma bytes_of_word_of_bytes b0 b1 b2 b3 :
  bytes_of_word (word_of_bytes b0 b1 b2 b3) = [b0; b1; b2; b3].
Proof.
  unfold bytes_of_word, word_of_bytes.
  pose proof (Z_of_byte_range b0). pose proof (Z_of_byte_range b1).
  pose proof (Z_of_byte_range b2). pose proof (Z_of_byte_range b3).
  f_equal; [|f_equal; [|f_equal; [|f_equal]]];
    apply byte_of_Z_eq; Z.div_mod_to_equations; lia.
Qed.

Lemma word_of_bytes_range b0 b1 b2 b3 : 0 <= word_of_bytes b0 b1 b2 b3 < 4294967296.
Proof.
  unfold word_of_bytes.
  pose proof (Z_of_byte_range b0). pose proof (Z_of_byte_range b1).
  pose proof (Z_of_byte_range b2). pose proof (Z_of_byte_range b3). lia.
Qed.

Lemma int_of_bytes_range b0 b1 b2 b3 : Int32.in_range (int_of_bytes b0 b1 b2 b3).
Proof.
  unfold int_of_bytes, Int32.in_range, Int32.wrap, Int32.min_signed, Int32.max_signed,
    Int32.modulus.
  pose proof (word_of_bytes_range b0 b1 b2 b3). Z.div_mod_to_equations. lia.
Qed.

Lemma bytes_of_int_of_bytes b0 b1 b2 b3 :
  bytes_of_int (int_of_bytes b0 b1 b2 b3) = [b0; b1; b2; b3].
Proof.
  unfold bytes_of_int, int_of_bytes.
  pose proof (word_of_bytes_range b0 b1 b2 b3) as Hr.
  replace (Int32.wrap (word_of_bytes b0 b1 b2 b3) mod Int32.modulus)
    with (word_of_bytes b0 b1 b2 b3).
  - apply bytes_of_word_of_bytes.
  - unfold Int32.wrap, Int32.modulus. Z.div_mod_to_equations. lia.
Qed.

Lemma bytes_of_floats_of_bytes n : forall bs,
  length bs = (4 * n)%nat -> bytes_of_floats (floats_of_bytes bs) = bs.
Proof.
  induction n as [|n IH]; intros bs Hlen.
  - destruct bs; [reflexivity | discriminate].
  - destruct bs as [|b0 [|b1 [|b2 [|b3 bs]]]]; simpl in Hlen; try lia.
    cbn [floats_of_bytes]. unfold bytes_of_floats in *. cbn [map concat float32_bytes fb0 fb1 fb2 fb3 app].
    rewrite IH by lia. reflexivity.
Qed.

(** a request [malloc] grants for [nmemb] floats shows that [nmemb] is not
    negative: a negative [int] converts to a [size_t] above PTRDIFF_MAX *)
Lemma malloc_floats_granted nmemb n :
  Int32.in_range nmemb ->
  malloc_floats (data_bytes nmemb) = Some n ->
  0 <= nmemb /\ data_bytes nmemb = 4 * nmemb /\ n = Z.to_nat nmemb.
Proof.
  unfold Int32.in_range, Int32.min_signed, Int32.max_signed. intros Hr.
  destruct (Z.lt_ge_cases nmemb 0) as [Hneg|Hpos].
  - unfold malloc_floats, data_bytes, SizeT.mul, SizeT.of_int, SizeT.modulus, SizeT.max_alloc,
      sizeof_float.
    destruct (Z.leb_spec ((nmemb mod 18446744073709551616 * 4) mod 18446744073709551616)
                9223372036854775807) as [Hle|]; [|discriminate].
    exfalso. revert Hle. Z.div_mod_to_equations. lia.
  - intros Hm. rewrite malloc_floats_small in Hm by (unfold Int32.max_signed; lia).
    rewrite data_bytes_small by (unfold Int32.max_signed; lia).
    injection Hm as <-. auto.
Qed.

Lemma flow_size_range fmt w h : Int32.in_range (flow_size fmt w h).
Proof.
  unfold flow_size, Int32.mul, Int32.wrap, Int32.in_range, Int32.min_signed,
    Int32.max_signed, Int32.modulus.
  Z.div_mod_to_equations. lia.
Qed.

(** a stream that ends inside the width or the height *)
Lemma read_flow_short_header fmt rest :
  (length rest < 8)%nat ->
  read_flow (Some (flo_formats fmt ++ rest)) =
  ReadError (if (length rest <? 4)%nat then CouldNotReadWidth else CouldNotReadHeight).
Proof.
  intros H.
  destruct rest as [|w0 [|w1 [|w2 [|w3 [|h0 [|h1 [|h2 [|h3 payload]]]]]]]];
    try (exfalso; simpl in H; lia); destruct fmt; reflexivity.
Qed.

(** a stream [read_flow] accepts has a known tag and twelve header bytes *)
Lemma read_flow_ok_shape bytes f :
  read_flow (Some bytes) = ReadOk f ->
  exists fmt w0 w1 w2 w3 h0 h1 h2 h3 payload,
    bytes = flo_formats fmt ++ [w0; w1; w2; w3] ++ [h0; h1; h2; h3] ++ payload.
Proof.
  intros Hok.
  destruct (Nat.lt_ge_cases (length bytes) 4) as [Hlt|Hge].
  { rewrite (read_flow_short_tag bytes Hlt) in Hok. discriminate. }
  destruct bytes as [|t0 [|t1 [|t2 [|t3 rest]]]]; try (exfalso; simpl in Hge; lia).
  clear Hge.
  assert (exists fmt, [t0; t1; t2; t3] = flo_formats fmt) as [fmt Etag].
  { destruct (tag_eqb [t0; t1; t2; t3] (flo_formats FF_FLO)) eqn:E1.
    { exists FF_FLO. apply tag_eqb_eq. exact E1. }
    destruct (tag_eqb [t0; t1; t2; t3] (flo_formats FF_FLOW)) eqn:E2.
    { exists FF_FLOW. apply tag_eqb_eq. exact E2. }
    rewrite read_flow_unknown_tag in Hok; [discriminate | |].
    - intros E. apply tag_eqb_eq in E. congruence.
    - intros E. apply tag_eqb_eq in E. congruence. }
  assert (t0 :: t1 :: t2 :: t3 :: rest = flo_formats fmt ++ rest) as Eb
    by (rewrite <- Etag; reflexivity).
  rewrite Eb in Hok |- *. clear Eb Etag.
  destruct (Nat.lt_ge_cases (length rest) 8) as [Hshort|Hlong].
  { rewrite (read_flow_short_header fmt rest Hshort) in Hok. discriminate. }
  destruct rest as [|w0 [|w1 [|w2 [|w3 [|h0 [|h1 [|h2 [|h3 payload]]]]]]]];
    try (exfalso; simpl in Hlong; lia).
  exists fmt, w0, w1, w2, w3, h0, h1, h2, h3, payload. reflexivity.
Qed.

(** the streams [read_flow] accepts: a known tag, two positive integers and
    at least as many payload bytes as the computed member count asks for *)
Lemma read_flow_ok_inv bytes f :
  read_flow (Some bytes) = ReadOk f ->
  exists fmt w0 w1 w2 w3 h0 h1 h2 h3 payload nmemb,
    bytes = flo_formats fmt ++ [w0; w1; w2; w3] ++ [h0; h1; h2; h3] ++ payload /\
    0 < int_of_bytes w0 w1 w2 w3 /\ 0 < int_of_bytes h0 h1 h2 h3 /\
    nmemb = flow_size fmt (int_of_bytes w0 w1 w2 w3) (int_of_bytes h0 h1 h2 h3) /\
    0 <= nmemb /\
    4 * nmemb <= Z.of_nat (length payload) /\
    f = mkFLOfile (int_of_bytes w0 w1 w2 w3) (int_of_bytes h0 h1 h2 h3) fmt nmemb
          (floats_of_bytes (take (Z.to_nat (4 * nmemb)) payload)).
Proof.
  intros Hok.
  destruct (read_flow_ok_shape bytes f Hok)
    as (fmt & w0 & w1 & w2 & w3 & h0 & h1 & h2 & h3 & payload & ->).
  rewrite read_flow_known_tag in Hok. cbv zeta in Hok.
  exists fmt, w0, w1, w2, w3, h0, h1, h2, h3, payload,
    (flow_size fmt (int_of_bytes w0 w1 w2 w3) (int_of_bytes h0 h1 h2 h3)).
  pose proof (flow_size_range fmt (int_of_bytes w0 w1 w2 w3) (int_of_bytes h0 h1 h2 h3))
    as Hrange.
  generalize dependent (flow_size fmt (int_of_bytes w0 w1 w2 w3) (int_of_bytes h0 h1 h2 h3)).
  generalize (int_of_bytes w0 w1 w2 w3) as w. generalize (int_of_bytes h0 h1 h2 h3) as h.
  intros h w nmemb Hok Hrange.
  destruct (Z.leb_spec w 0); [discriminate|].
  destruct (Z.leb_spec h 0); [discriminate|]. cbn [orb] in Hok.
  destruct (malloc_floats (data_bytes nmemb)) as [n|] eqn:Ea;
    [|destruct payload; discriminate].
  destruct (malloc_floats_granted _ _ Hrange Ea) as (Hn & Hd & _).
  rewrite Hd in Hok.
  destruct (Z.ltb_spec (Z.of_nat (length payload)) (4 * nmemb)); [discriminate|].
  apply (f_equal (fun r => match r with ReadOk g => g | _ => f end)) in Hok.
  cbv beta iota in Hok. subst f.
  repeat split; assumption.
Qed.

(** the file of a well-formed field: the header and every float, nothing
    else *)
Lemma flow_bytes_valid f :
  Z.of_nat (length (flo_data f)) = flo_nmemb f -> flo_nmemb f <= Int32.max_signed ->
  flow_bytes f =
  flo_formats (flo_fmt f) ++ bytes_of_int (flo_w f) ++ bytes_of_int (flo_h f)
  ++ bytes_of_floats (flo_data f).
Proof.
  intros Hlen Hmax. unfold flow_bytes.
  rewrite data_bytes_small by lia.
  rewrite firstn_all2 by (rewrite length_bytes_of_floats; lia).
  reflexivity.
Qed.

Lemma length_flo_formats fmt : length (flo_formats fmt) = 4%nat.
Proof. destruct fmt; reflexivity. Qed.

Lemma valid_field_buffer f :
  valid_field f ->
  Z.of_nat (length (flo_data f)) = flo_nmemb f /\ 0 < flo_nmemb f <= Int32.max_signed.
Proof.
  intros Hv. pose proof (valid_field_dims f Hv) as (_ & _ & _ & Hn).
  destruct Hv as (_ & _ & _ & _ & Hlen). rewrite Hlen. lia.
Qed.

(** X1. A stream whose first four bytes are neither "PIEH" nor "PIEI" is
    refused whatever follows them: as an unreadable header when it has fewer
    than four bytes, as an invalid file type otherwise. *)
Theorem read_flow_refuses_foreign_tag (bytes : list byte) :
  take 4 bytes <> flo_formats FF_FLO -> take 4 bytes <> flo_formats FF_FLOW ->
  read_flow (Some bytes) =
  ReadError (if (length bytes <? 4)%nat then CouldNotReadHeader else InvalidFileType).
Proof.
  intros H1 H2.
  destruct (Nat.ltb_spec (length bytes) 4) as [Hlt|Hge].
  - apply read_flow_short_tag. exact Hlt.
  - destruct bytes as [|t0 [|t1 [|t2 [|t3 rest]]]]; try (exfalso; simpl in Hge; lia).
    apply read_flow_unknown_tag; assumption.
Qed.

(** X2. Every strict prefix of the file of a well-formed field is refused,
    and the diagnostic tells where the stream ends: in the tag (fewer than 4
    bytes), in the width (fewer than 8), in the height (fewer than 12) or in
    the samples. *)
Theorem read_flow_refuses_prefix (f : FLOfile) (n : nat) :
  valid_field f -> (n < length (flow_bytes f))%nat ->
  read_flow (Some (take n (flow_bytes f))) =
  ReadError (if (n <? 4)%nat then CouldNotReadHeader
             else if (n <? 8)%nat then CouldNotReadWidth
             else if (n <? 12)%nat then CouldNotReadHeight
             else IncompleteData).
Proof.
  intros Hv Hn.
  destruct (valid_field_buffer f Hv) as (Hlen & Hpos & Hmax).
  pose proof (valid_field_dims f Hv) as (Hw & Hh & Hwh & _).
  pose proof Hv as (_ & _ & Hnm & _).
  rewrite flow_bytes_valid in Hn |- * by lia.
  rewrite !length_app, length_flo_formats, length_bytes_of_floats in Hn.
  change (length (bytes_of_int (flo_w f))) with 4%nat in Hn.
  change (length (bytes_of_int (flo_h f))) with 4%nat in Hn.
  destruct (Nat.ltb_spec n 4) as [H4|H4].
  { apply read_flow_short_tag. rewrite length_take. lia. }
  rewrite take_app_ge by (rewrite length_flo_formats; lia).
  rewrite length_flo_formats.
  destruct (Nat.ltb_spec n 12) as [H12|H12].
  { rewrite read_flow_short_header
      by (rewrite length_take, !length_app; cbn [length bytes_of_int bytes_of_word]; lia).
    rewrite length_take, !length_app. cbn [length bytes_of_int bytes_of_word].
    rewrite Nat.min_l by lia.
    destruct (Nat.ltb_spec n 8); destruct (Nat.ltb_spec (n - 4) 4); try reflexivity; lia. }
  destruct (Nat.ltb_spec n 8); [lia|].
  rewrite take_app_ge by (cbn [length bytes_of_int bytes_of_word]; lia).
  rewrite take_app_ge by (cbn [length bytes_of_int bytes_of_word]; lia).
  cbn [length bytes_of_int bytes_of_word].
  rewrite read_flow_header
    by (unfold Int32.in_range, Int32.min_signed; lia).
  destruct (Z.leb_spec (flo_w f) 0); [lia|]. destruct (Z.leb_spec (flo_h f) 0); [lia|].
  cbn [orb]. cbv zeta.
  rewrite flow_size_exact by lia. rewrite <- Hnm.
  rewrite malloc_floats_small by lia. rewrite data_bytes_small by lia.
  rewrite length_take, length_bytes_of_floats.
  destruct (Z.ltb_spec (Z.of_nat ((n - 4 - 4 - 4) `min` (4 * length (flo_data f))))
              (4 * flo_nmemb f)); [reflexivity | lia].
Qed.

(** X3. After a known tag, a width or a height that is zero or negative
    is refused as an invalid width or height, whatever the other dimension
    and whatever payload follows. *)
Theorem read_flow_refuses_dimensions (fmt : FLOformat) (w h : Z) (payload : list byte) :
  Int32.in_range w -> Int32.in_range h ->
  w <= 0 \/ h <= 0 ->
  read_flow (Some (header fmt w h ++ payload)) = ReadError InvalidWidthOrHeight.
Proof.
  intros Hw Hh Hbad. unfold header. rewrite <- !app_assoc.
  rewrite read_flow_header by assumption.
  destruct (Z.leb_spec w 0); destruct (Z.leb_spec h 0); try reflexivity; lia.
Qed.

(** X4. A header with positive dimensions whose sample count fits an
    [int], followed by at least four bytes per sample, is accepted: the
    field has the dimensions and format of the header and the first
    width * height * channels floats of the payload, and it is well
    formed. *)
Theorem read_flow_accepts (fmt : FLOformat) (w h : Z) (payload : list byte) :
  0 < w -> 0 < h ->
  sample_count fmt w h <= Int32.max_signed ->
  sample_count fmt w h * sizeof_float <= Z.of_nat (length payload) ->
  let f := mkFLOfile w h fmt (sample_count fmt w h)
             (floats_of_bytes (take (Z.to_nat (sample_count fmt w h * sizeof_float)) payload)) in
  read_flow (Some (header fmt w h ++ payload)) = ReadOk f /\ valid_field f.
Proof.
  intros Hw Hh Hfit Hlen f. unfold sample_count, sizeof_float in *.
  assert (2 <= items_per_block fmt <= 3) as Hc by (destruct fmt; cbn; lia).
  unfold Int32.max_signed in Hfit.
  split.
  - unfold header. rewrite <- !app_assoc.
    rewrite read_flow_header
      by (unfold Int32.in_range, Int32.min_signed, Int32.max_signed; nia).
    destruct (Z.leb_spec w 0); [lia|]. destruct (Z.leb_spec h 0); [lia|].
    cbn [orb]. cbv zeta.
    rewrite flow_size_exact by (unfold Int32.max_signed; lia).
    rewrite malloc_floats_small by (unfold Int32.max_signed; nia).
    rewrite data_bytes_small by (unfold Int32.max_signed; nia).
    destruct (Z.ltb_spec (Z.of_nat (length payload)) (4 * (w * h * items_per_block fmt)));
      [lia|].
    subst f. replace (w * h * items_per_block fmt * 4) with (4 * (w * h * items_per_block fmt))
      by lia.
    reflexivity.
  - subst f. unfold valid_field. cbn [flo_w flo_h flo_fmt flo_nmemb flo_data].
    repeat split; try assumption; try reflexivity.
    apply (length_floats_of_bytes _ _ 0%nat); [|lia].
    rewrite length_take. nia.
Qed.

(** X5. Bytes after the last sample are ignored: a stream [read_flow]
    accepts is read as the same field when anything is appended to it. *)
Theorem read_flow_ignores_trailing_bytes (bytes trailing : list byte) (f : FLOfile) :
  read_flow (Some bytes) = ReadOk f ->
  read_flow (Some (bytes ++ trailing)) = ReadOk f.
Proof.
  intros Hok.
  destruct (read_flow_ok_inv bytes f Hok)
    as (fmt & w0 & w1 & w2 & w3 & h0 & h1 & h2 & h3 & payload & nmemb
        & -> & Hw & Hh & En & Hn & Hlen & ->).
  pose proof (flow_size_range fmt (int_of_bytes w0 w1 w2 w3) (int_of_bytes h0 h1 h2 h3))
    as Hr.
  rewrite <- En in Hr. unfold Int32.in_range in Hr.
  rewrite <- !app_assoc. rewrite read_flow_known_tag. cbv zeta.
  rewrite <- En. clear En.
  destruct (Z.leb_spec (int_of_bytes w0 w1 w2 w3) 0); [lia|].
  destruct (Z.leb_spec (int_of_bytes h0 h1 h2 h3) 0); [lia|]. cbn [orb].
  rewrite malloc_floats_small by lia. rewrite data_bytes_small by lia.
  rewrite length_app.
  destruct (Z.ltb_spec (Z.of_nat (length payload + length trailing)) (4 * nmemb)); [lia|].
  rewrite take_app_le by lia. reflexivity.
Qed.

(** X6. Writing back a field just read restores the stream read, up to
    the bytes that followed the last sample: the stream is the file
    [write_flow] writes for the field, then the trailing bytes. *)
Theorem write_flow_read_flow (bytes : list byte) (f : FLOfile) :
  read_flow (Some bytes) = ReadOk f ->
  exists trailing,
    write_flow true f = (0, Some (flow_bytes f)) /\
    bytes = flow_bytes f ++ trailing.
Proof.
  intros Hok.
  destruct (read_flow_ok_inv bytes f Hok)
    as (fmt & w0 & w1 & w2 & w3 & h0 & h1 & h2 & h3 & payload & nmemb
        & -> & Hw & Hh & En & Hn & Hlen & ->).
  pose proof (flow_size_range fmt (int_of_bytes w0 w1 w2 w3) (int_of_bytes h0 h1 h2 h3))
    as Hr.
  rewrite <- En in Hr. unfold Int32.in_range in Hr. clear Hok En.
  exists (drop (Z.to_nat (4 * nmemb)) payload). split; [reflexivity|].
  unfold flow_bytes. cbn [flo_w flo_h flo_fmt flo_nmemb flo_data].
  rewrite !bytes_of_int_of_bytes. rewrite data_bytes_small by lia.
  rewrite (bytes_of_floats_of_bytes (Z.to_nat nmemb))
    by (rewrite length_take; lia).
  rewrite firstn_all2 by (rewrite length_take; lia).
  rewrite <- !app_assoc. rewrite take_drop. reflexivity.
Qed.

(** X7. A field [read_flow] returns has positive dimensions, the format
    its tag names, a member count that is never negative and is the [int]
    product computed from the dimensions, and a buffer of exactly that many
    floats. *)
Theorem read_flow_ok_buffer (bytes : list byte) (f : FLOfile) :
  read_flow (Some bytes) = ReadOk f ->
  0 < flo_w f <= Int32.max_signed /\ 0 < flo_h f <= Int32.max_signed /\
  0 <= flo_nmemb f <= Int32.max_signed /\
  flo_nmemb f = flow_size (flo_fmt f) (flo_w f) (flo_h f) /\
  Z.of_nat (length (flo_data f)) = flo_nmemb f /\
  take 4 bytes = flo_formats (flo_fmt f).
Proof.
  intros Hok.
  destruct (read_flow_ok_inv bytes f Hok)
    as (fmt & w0 & w1 & w2 & w3 & h0 & h1 & h2 & h3 & payload & nmemb
        & -> & Hw & Hh & En & Hn & Hlen & ->).
  pose proof (flow_size_range fmt (int_of_bytes w0 w1 w2 w3) (int_of_bytes h0 h1 h2 h3))
    as Hr.
  rewrite <- En in Hr. unfold Int32.in_range in Hr.
  pose proof (int_of_bytes_range w0 w1 w2 w3) as Hwr.
  pose proof (int_of_bytes_range h0 h1 h2 h3) as Hhr.
  unfold Int32.in_range in Hwr, Hhr.
  cbn [flo_w flo_h flo_fmt flo_nmemb flo_data].
  repeat split; try lia; try assumption.
  - rewrite (length_floats_of_bytes (Z.to_nat nmemb) _ 0%nat); [lia | | lia].
    rewrite length_take. lia.
  - rewrite take_app_length' by (symmetry; apply length_flo_formats). reflexivity.
Qed.

(** X8. For a field whose buffer holds [nmemb] floats the file written
    is the tag, the two dimensions and every float in order: 12 + 4 * nmemb
    bytes, the tag first, the floats from offset 12 on. The dimensions are
    written as they are, checked against nothing. *)
Theorem write_flow_layout (f : FLOfile) :
  Z.of_nat (length (flo_data f)) = flo_nmemb f -> flo_nmemb f <= Int32.max_signed ->
  write_flow true f =
    (0, Some (header (flo_fmt f) (flo_w f) (flo_h f) ++ bytes_of_floats (flo_data f))) /\
  Z.of_nat (length (flow_bytes f)) = 12 + 4 * flo_nmemb f /\
  take 4 (flow_bytes f) = flo_formats (flo_fmt f) /\
  floats_of_bytes (drop 12 (flow_bytes f)) = flo_data f.
Proof.
  intros Hlen Hmax. unfold write_flow.
  rewrite (flow_bytes_valid f Hlen Hmax). unfold header. rewrite <- !app_assoc.
  split; [reflexivity|]. split; [|split].
  - rewrite !length_app, length_flo_formats, length_bytes_of_floats.
    cbn [length bytes_of_int bytes_of_word]. lia.
  - rewrite take_app_length' by (symmetry; apply length_flo_formats). reflexivity.
  - rewrite drop_app_ge by (rewrite length_flo_formats; lia).
    rewrite length_flo_formats. cbn [bytes_of_int bytes_of_word app drop Nat.sub].
    apply floats_of_bytes_of_floats.
Qed.

(** ** The index macros *)

Lemma index_unique w npb x y ch x' y' ch' :
  0 <= x < w -> 0 <= x' < w -> 0 <= y -> 0 <= y' -> 0 <= ch < npb -> 0 <= ch' < npb ->
  (y * w + x) * npb + ch = (y' * w + x') * npb + ch' ->
  x = x' /\ y = y' /\ ch = ch'.
Proof.
  intros Hx Hx' Hy Hy' Hc Hc' E.
  assert (y * w + x = y' * w + x') as E1 by nia.
  assert (ch = ch') as E2 by nia.
  assert (y = y') as E3 by nia.
  repeat split; try assumption. nia.
Qed.

(** X9. In a well-formed field the macros [_U_IDX], [_V_IDX] and, for the
    3-channel format, [_C_IDX] of a cell inside the field evaluate without
    wrap-around to (y * w + x) * npb + 0, 1 and 2, positions inside the
    buffer. *)
Theorem IDX_in_buffer (f : FLOfile) (x y : Z) :
  valid_field f ->
  0 <= x < flo_w f -> 0 <= y < flo_h f ->
  let npb := items_per_block (flo_fmt f) in
  let n := Z.of_nat (length (flo_data f)) in
  U_IDX f x y npb = (y * flo_w f + x) * npb /\
  V_IDX f x y npb = (y * flo_w f + x) * npb + 1 /\
  0 <= U_IDX f x y npb /\ V_IDX f x y npb < n /\
  (flo_fmt f = FF_FLOW ->
   C_IDX f x y npb = (y * flo_w f + x) * npb + 2 /\ C_IDX f x y npb < n).
Proof.
  intros Hv Hx Hy npb n. subst npb n. unfold U_IDX, V_IDX, C_IDX.
  assert (2 <= items_per_block (flo_fmt f) <= 3) as Hc by (destruct (flo_fmt f); cbn; lia).
  destruct (IDX_exact f 0 x y Hv Hx Hy ltac:(lia)) as [E0 B0].
  destruct (IDX_exact f 1 x y Hv Hx Hy ltac:(lia)) as [E1 B1].
  unfold cell_index in *. rewrite E0, E1.
  split; [lia|]. split; [lia|]. split; [lia|]. split; [lia|].
  intros Ef. destruct (IDX_exact f 2 x y Hv Hx Hy ltac:(rewrite Ef; cbn; lia)) as [E2 B2].
  unfold cell_index in *. lia.
Qed.

(** X10. In a well-formed field two places (cell and channel) with the
    same index are the same place: no two samples share a position of the
    buffer. *)
Theorem IDX_distinct (f : FLOfile) (x y ch x' y' ch' : Z) :
  valid_field f ->
  0 <= x < flo_w f -> 0 <= y < flo_h f -> 0 <= ch < items_per_block (flo_fmt f) ->
  0 <= x' < flo_w f -> 0 <= y' < flo_h f -> 0 <= ch' < items_per_block (flo_fmt f) ->
  IDX ch (flo_w f) x y (items_per_block (flo_fmt f)) =
  IDX ch' (flo_w f) x' y' (items_per_block (flo_fmt f)) ->
  x = x' /\ y = y' /\ ch = ch'.
Proof.
  intros Hv Hx Hy Hc Hx' Hy' Hc' E.
  destruct (IDX_exact f ch x y Hv Hx Hy Hc) as [E1 _].
  destruct (IDX_exact f ch' x' y' Hv Hx' Hy' Hc') as [E2 _].
  rewrite E1, E2 in E. unfold cell_index in E.
  apply (index_unique (flo_w f) (items_per_block (flo_fmt f))); try lia.
Qed.

(** ** More on the weights *)

Lemma div_one_of_int x :
  0 <= x < 16777216 -> F32.div (F32.of_int x) F32.one = F32.of_int x.
Proof.
  intros Hx. destruct (Z.eq_dec x 0) as [->|Hne]; [reflexivity|].
  destruct (of_int_small x) as (m & e & Eo & Hd & He & Hm); [lia|].
  rewrite Eo. apply div_one_normal; assumption.
Qed.

Lemma F32_mul_comm x y : F32.mul x y = F32.mul y x.
Proof.
  unfold F32.mul, SFmul.
  destruct x as [sx|sx| |sx mx ex], y as [sy|sy| |sy my ey];
    rewrite ?(xorb_comm sx sy); try reflexivity.
  rewrite (Pos.mul_comm mx my), (Z.add_comm ex ey). reflexivity.
Qed.

(** X11. At integer coordinates below 2^24 the weights are exactly 1 for
    the top-left corner and 0 for the three others. *)
Theorem interpolate2D_weights_integer (x y : Z) :
  0 <= x < 16777216 -> 0 <= y < 16777216 ->
  interpolate2D_weights (F32.of_int x) (F32.of_int y) =
  mkWeights F32.one F32.zero F32.zero F32.zero.
Proof.
  intros Hx Hy. rewrite <- (div_one_of_int x Hx), <- (div_one_of_int y Hy).
  apply weights_identity; assumption.
Qed.

(** X12. Exchanging the two coordinates transposes the weights:
    [w[0][0]] and [w[1][1]] stay, [w[1][0]] and [w[0][1]] are exchanged,
    for all float arguments, NaN and infinities included. *)
Theorem interpolate2D_weights_transpose (rx ry : spec_float) :
  let a := interpolate2D_weights rx ry in
  let b := interpolate2D_weights ry rx in
  w00 b = w00 a /\ w10 b = w01 a /\ w01 b = w10 a /\ w11 b = w11 a.
Proof.
  cbv zeta. unfold interpolate2D_weights. cbn [w00 w10 w01 w11].
  repeat split; apply F32_mul_comm.
Qed.

(** ** More on the pipeline *)

(** the file of a well-formed field is read back as the field *)
Lemma read_flow_flow_bytes f : valid_field f -> read_flow (Some (flow_bytes f)) = ReadOk f.
Proof.
  intros Hv.
  destruct (valid_field_buffer f Hv) as (Hlen & Hpos & Hmax).
  pose proof (valid_field_dims f Hv) as (Hw & Hh & _).
  pose proof Hv as (_ & _ & Hnm & _).
  rewrite flow_bytes_valid by lia.
  rewrite read_flow_header by (unfold Int32.in_range, Int32.min_signed; lia).
  destruct (Z.leb_spec (flo_w f) 0); [lia|]. destruct (Z.leb_spec (flo_h f) 0); [lia|].
  cbn [orb]. cbv zeta.
  rewrite flow_size_exact by lia. rewrite <- Hnm.
  rewrite malloc_floats_small by lia. rewrite data_bytes_small by lia.
  rewrite length_bytes_of_floats.
  destruct (Z.ltb_spec (Z.of_nat (4 * length (flo_data f))) (4 * flo_nmemb f)); [lia|].
  rewrite firstn_all2 by (rewrite length_bytes_of_floats; lia).
  rewrite floats_of_bytes_of_floats. destruct f; reflexivity.
Qed.

(** a field [resample] returns for positive dimensions whose product fits
    an [int] is well formed *)
Lemma resample_valid f w h sx sy out :
  0 < w -> 0 < h -> sample_count (flo_fmt f) w h <= Int32.max_signed ->
  resample f w h sx sy = Ok out ->
  valid_field out.
Proof.
  intros Hw Hh Hfit Hr.
  destruct (resample_shape_exact f w h sx sy out Hw Hh Hfit Hr) as (Ew & Eh & Ef & En & El).
  unfold valid_field, sample_count in *. rewrite Ew, Eh, Ef, En.
  repeat split; try assumption; lia.
Qed.

(** X13. Whenever [resample] returns a field for positive target
    dimensions whose sample count fits an [int], that field has the target
    dimensions, the format of the source and a buffer of exactly
    w * h * channels floats: it is well formed. *)
Theorem resample_dimensions (f : FLOfile) (w h : Z) (sx sy : spec_float) (out : FLOfile) :
  0 < w -> 0 < h -> sample_count (flo_fmt f) w h <= Int32.max_signed ->
  resample f w h sx sy = Ok out ->
  flo_w out = w /\ flo_h out = h /\ flo_fmt out = flo_fmt f /\
  flo_nmemb out = w * h * items_per_block (flo_fmt f) /\
  Z.of_nat (length (flo_data out)) = w * h * items_per_block (flo_fmt f) /\
  valid_field out.
Proof.
  intros Hw Hh Hfit Hr.
  destruct (resample_shape_exact f w h sx sy out Hw Hh Hfit Hr) as (Ew & Eh & Ef & En & El).
  split; [exact Ew|]. split; [exact Eh|]. split; [exact Ef|].
  split; [exact En|]. split; [exact El|].
  apply (resample_valid f w h sx sy); assumption.
Qed.

(** X14. A run on a well-formed input with positive target dimensions
    whose sample count fits an [int], positive scales and source coordinates
    that convert to [int] ends with EXIT_SUCCESS, and the file it writes is
    read back by [read_flow] as a field of the target dimensions in the
    format of the input; the file has 12 + 4 * w * h * channels bytes. *)
Theorem extrapolate_writes_readable_file (f : FLOfile) (w h : Z) (sx sy : spec_float)
    (inf : list byte) :
  read_flow (Some inf) = ReadOk f -> valid_field f ->
  0 < w -> 0 < h ->
  sample_count (flo_fmt f) w h <= Int32.max_signed ->
  positive_scale (effective_scale sx w (flo_w f)) ->
  positive_scale (effective_scale sy h (flo_h f)) ->
  (forall x, 0 <= x < w ->
     F32.to_int_floor (F32.div (F32.of_int x) (effective_scale sx w (flo_w f)))
     <> Int32.min_signed) ->
  (forall y, 0 <= y < h ->
     F32.to_int_floor (F32.div (F32.of_int y) (effective_scale sy h (flo_h f)))
     <> Int32.min_signed) ->
  exists out,
    extrapolate w h sx sy (Some inf) true = Exit EXIT_SUCCESS (Some (flow_bytes out)) /\
    read_flow (Some (flow_bytes out)) = ReadOk out /\
    flo_w out = w /\ flo_h out = h /\ flo_fmt out = flo_fmt f /\
    Z.of_nat (length (flow_bytes out)) = 12 + 4 * (w * h * items_per_block (flo_fmt f)).
Proof.
  intros Hread Hv Hw Hh Hfit Hsx Hsy Hcx Hcy.
  destruct (resample_total f w h sx sy Hv Hw Hh Hfit Hsx Hsy Hcx Hcy)
    as (out & Hr & Ew & Eh & Ef & En & El).
  exists out.
  pose proof (resample_valid f w h sx sy out Hw Hh Hfit Hr) as Hvo.
  split; [|split; [apply read_flow_flow_bytes; exact Hvo|]].
  - rewrite (extrapolate_drops_write_status w h sx sy inf f out true Hread Hr). reflexivity.
  - split; [exact Ew|]. split; [exact Eh|]. split; [exact Ef|].
    destruct (valid_field_buffer out Hvo) as (Hlen & _ & Hmax).
    rewrite flow_bytes_valid by lia.
    rewrite !length_app, length_flo_formats, length_bytes_of_floats.
    cbn [length bytes_of_int bytes_of_word]. unfold sample_count in El. lia.
Qed.

(** ** Target dimensions that are not positive *)

Lemma for_steps_skip {S : Type} (body : Z -> S -> mem S) :
  (forall i s, body i s = Ok s) -> forall n i s, for_steps n i body s = Ok s.
Proof.
  intros Hb. induction n as [|n IH]; intros i s; cbn [for_steps]; [reflexivity|].
  rewrite Hb. cbn [mbind mem_bind]. apply IH.
Qed.

Lemma for_lt_empty {S : Type} (body : Z -> S -> mem S) lo hi s :
  hi <= lo -> for_lt lo hi body s = Ok s.
Proof.
  intros H. unfold for_lt. rewrite Z2Nat.nonpos by lia. reflexivity.
Qed.

(** with a target dimension that is not positive no cell is computed: the
    field returned is the one allocated *)
Lemma resample_no_cell f w h sx sy :
  w <= 0 \/ h <= 0 -> resample f w h sx sy = alloc_out f w h.
Proof.
  intros Hd. unfold resample.
  destruct (alloc_out f w h) as [out|flt]; cbn [mbind mem_bind]; [|reflexivity].
  match goal with |- context [for_lt 0 h ?b ?d] =>
    assert (for_lt 0 h b d = Ok d) as -> end.
  { destruct (Z.le_gt_cases h 0) as [Hh|Hh]; [apply for_lt_empty; exact Hh|].
    unfold for_lt at 1. apply for_steps_skip. intros y d.
    apply for_lt_empty. lia. }
  cbn [mbind mem_bind]. destruct out; reflexivity.
Qed.

(** X16. Target dimensions are not validated: with a width or a height
    that is zero or negative no cell is computed, and a run that writes a
    file reports EXIT_SUCCESS, the floats written are the zeros of [memset],
    and [read_flow] refuses that file for its invalid width or height. *)
Theorem extrapolate_target_not_positive (f : FLOfile) (w h : Z) (sx sy : spec_float)
    (inf : list byte) (status : Z) (written : list byte) :
  Int32.in_range w -> Int32.in_range h ->
  w <= 0 \/ h <= 0 ->
  read_flow (Some inf) = ReadOk f ->
  extrapolate w h sx sy (Some inf) true = Exit status (Some written) ->
  status = EXIT_SUCCESS /\
  (exists out, alloc_out f w h = Ok out /\ written = flow_bytes out /\
               Forall (fun s => s = float32_zero) (flo_data out)) /\
  read_flow (Some written) = ReadError InvalidWidthOrHeight.
Proof.
  intros Hwr Hhr Hd Hread Hrun.
  unfold extrapolate in Hrun. cbn [test_files test_file negb] in Hrun.
  rewrite Hread, resample_no_cell in Hrun by exact Hd.
  destruct (alloc_out f w h) as [out|flt] eqn:Ea; [|discriminate].
  cbn [write_flow snd] in Hrun.
  injection Hrun as <- <-. split; [reflexivity|].
  unfold alloc_out in Ea.
  destruct (malloc_floats _) as [n|]; [|discriminate].
  ok_inj Ea. subst out. split.
  - eexists. split; [reflexivity|]. split; [reflexivity|].
    cbn [flo_data]. apply Forall_replicate. reflexivity.
  - unfold flow_bytes. cbn [flo_w flo_h flo_fmt flo_nmemb flo_data].
    rewrite read_flow_header by assumption.
    destruct (Z.leb_spec w 0); destruct (Z.leb_spec h 0); try reflexivity; lia.
Qed.

(** ** Division by a power of two and by itself *)

(** the quotient of a normal value by 2^(k+23) keeps the mantissa *)
Lemma div_pow2_normal m e k :
  Z.pos (digits2_pos m) = 24 -> -148 <= e - k - 23 <= 104 ->
  F32.div (S754_finite false m e) (S754_finite false 8388608 k) =
  S754_finite false m (e - k - 23).
Proof.
  intros Hd He.
  unfold F32.div, F32.prec, F32.emax, SFdiv. cbn [xorb].
  assert (SFdiv_core_binary 24 128 (Z.pos m) e 8388608 k =
          (Z.pos m~0, e - k - 24, loc_Exact)) as Hcore.
  { unfold SFdiv_core_binary. cbn [Zdigits2]. rewrite Hd.
    change (Z.pos (digits2_pos 8388608)) with 24.
    replace (Z.min (fexp 24 128 (24 + e - (24 + k))) (e - k)) with (e - k - 24)
      by (rewrite fexp_eq; lia).
    replace (e - k - (e - k - 24)) with 24 by lia.
    cbv beta iota zeta.
    rewrite Z.shiftl_mul_pow2 by lia. change (2 ^ 24) with 16777216.
    pose proof (Z_div_mod (Z.pos m * 16777216) 8388608 eq_refl) as Hdm.
    destruct (Z.div_eucl (Z.pos m * 16777216) 8388608) as [q r].
    assert (r = 0) by lia. assert (q = Z.pos m~0) by lia. subst q r. reflexivity. }
  rewrite Hcore. unfold binary_round_aux.
  assert (shr_fexp 24 128 (Z.pos m~0) (e - k - 24) loc_Exact =
          ({| shr_m := Z.pos m; shr_r := false; shr_s := false |}, e - k - 23)) as Hs.
  { unfold shr_fexp. cbn [Zdigits2 digits2_pos].
    replace (fexp 24 128 (Z.pos (Pos.succ (digits2_pos m)) + (e - k - 24)) - (e - k - 24))
      with 1 by (rewrite fexp_eq; lia).
    cbn [shr shr_record_of_loc SpecFloat.iter_pos shr_1 orb]. f_equal. lia. }
  rewrite Hs. cbn [shr_m loc_of_shr_record round_nearest_even].
  rewrite shr_fexp_canonical by (rewrite fexp_eq; lia).
  cbn [shr_m]. destruct (Z.leb_spec (e - k - 23) (128 - 24)); [reflexivity | lia].
Qed.




Lemma of_int_double i :
  0 < i -> 2 * i < 16777216 ->
  F32.div (F32.of_int (2 * i)) F32.two = F32.of_int i.
Proof.
  intros Hi H2.
  destruct (of_int_small i) as (m & e & Eo & Hd & He & Hm); [lia|].
  destruct (of_int_small (2 * i)) as (m2 & e2 & Eo2 & Hd2 & He2 & Hm2); [lia|].
  assert (e2 = e + 1 /\ m2 = m) as [-> ->].
  { pose proof (digits2_pos_bounds m) as Bm. pose proof (digits2_pos_bounds m2) as Bm2.
    rewrite Hd in Bm. rewrite Hd2 in Bm2.
    change (2 ^ (24 - 1)) with 8388608 in *. change (2 ^ 24) with 16777216 in *.
    assert (e <= -1) as He1
      by (destruct (Z.eq_dec e 0) as [->|]; [change (2 ^ (- 0)) with 1 in Hm; lia | lia]).
    assert (e2 = e + 1) as ->.
    { destruct (Z.lt_trichotomy e2 (e + 1)) as [Hlt|[Heq|Hgt]]; [exfalso|exact Heq|exfalso].
      - assert (2 ^ (- e2) = 2 ^ (- e2 - (- e - 1)) * 2 ^ (- e - 1)) as Ep
          by (rewrite <- Z.pow_add_r by lia; f_equal; lia).
        assert (2 ^ (- e) = 2 * 2 ^ (- e - 1)) as Eq
          by (rewrite <- Z.pow_succ_r by lia; f_equal; lia).
        assert (2 <= 2 ^ (- e2 - (- e - 1)))
          by (change 2 with (2 ^ 1) at 1; apply Z.pow_le_mono_r; lia).
        assert (0 < 2 ^ (- e - 1)) by (apply Z.pow_pos_nonneg; lia).
        nia.
      - assert (2 ^ (- e) = 2 ^ (- e - (- e2)) * 2 ^ (- e2)) as Ep
          by (rewrite <- Z.pow_add_r by lia; f_equal; lia).
        assert (4 <= 2 ^ (- e - (- e2)))
          by (change 4 with (2 ^ 2) at 1; apply Z.pow_le_mono_r; lia).
        assert (0 < 2 ^ (- e2)) by (apply Z.pow_pos_nonneg; lia).
        nia. }
    split; [reflexivity|].
    assert (2 ^ (- e) = 2 * 2 ^ (- (e + 1))) as Eq
      by (rewrite <- Z.pow_succ_r by lia; f_equal; lia).
    assert (Z.pos m2 = Z.pos m) by nia. congruence. }
  rewrite Eo2, Eo. unfold F32.two.
  rewrite div_pow2_normal by (try assumption; lia). f_equal. lia.
Qed.

Lemma to_int_floor_finite m e :
  e < 0 -> Z.pos m / 2 ^ (- e) <= Int32.max_signed ->
  F32.to_int_floor (S754_finite false m e) = Z.pos m / 2 ^ (- e).
Proof.
  intros He Hmax. unfold F32.to_int_floor, F32.floor.
  destruct (Z.leb_spec 0 e); [lia|].
  assert (0 <= Z.pos m / 2 ^ (- e)) by (apply Z.div_pos; [lia | apply Z.pow_pos_nonneg; lia]).
  unfold Int32.min_signed, Int32.max_signed in *.
  destruct (Z.leb_spec (-2147483648) (Z.pos m / 2 ^ (- e))); [|lia].
  destruct (Z.leb_spec (Z.pos m / 2 ^ (- e)) 2147483647); [reflexivity | lia].
Qed.

(** the source column of destination column [x] under scale 2 *)
Lemma to_int_floor_half x :
  0 <= x < 16777216 ->
  F32.to_int_floor (F32.div (F32.of_int x) F32.two) = x / 2.
Proof.
  intros Hx. destruct (Z.eq_dec x 0) as [->|Hne]; [reflexivity|].
  destruct (of_int_small x) as (m & e & Eo & Hd & He & Hm); [lia|].
  rewrite Eo. unfold F32.two. rewrite div_pow2_normal by (try assumption; lia).
  replace (e - -22 - 23) with (e - 1) by lia.
  assert (2 ^ (- (e - 1)) = 2 * 2 ^ (- e)) as Ep
    by (rewrite <- Z.pow_succ_r by lia; f_equal; lia).
  assert (0 < 2 ^ (- e)) as Hp by (apply Z.pow_pos_nonneg; lia).
  assert (Z.pos m / 2 ^ (- (e - 1)) = x / 2) as Eq.
  { rewrite Ep, Hm. apply Z.div_mul_cancel_r; lia. }
  rewrite to_int_floor_finite; [exact Eq | lia |].
  rewrite Eq. unfold Int32.max_signed. Z.div_mod_to_equations. lia.
Qed.

(** ** Cells that map to an integer source coordinate *)

Section IntegerCoordinate.

Variable f : FLOfile.
Hypothesis Hv : valid_field f.
Hypothesis Hall : all_finite f.

Local Abbreviation npb := (items_per_block (flo_fmt f)).


End IntegerCoordinate.

(** ** The value of a destination cell *)

(** when every cell is computed without fault, each channel of each
    destination cell holds the sum computed for it *)
Lemma resample_channel f w h sx sy :
  0 < w -> 0 < h ->
  sample_count (flo_fmt f) w h <= Int32.max_signed ->
  (forall x y, 0 <= x < w -> 0 <= y < h ->
     exists s, sample_cell f (items_per_block (flo_fmt f))
                 (effective_scale sx w (flo_w f)) (effective_scale sy h (flo_h f)) x y = Ok s) ->
  exists out,
    resample f w h sx sy = Ok out /\
    forall x y ch s,
      0 <= x < w -> 0 <= y < h -> 0 <= ch < items_per_block (flo_fmt f) ->
      sample_cell f (items_per_block (flo_fmt f))
        (effective_scale sx w (flo_w f)) (effective_scale sy h (flo_h f)) x y = Ok s ->
      channel out ch x y = Ok (load (store (sums_channel ch s))).
Proof.
  intros Hw Hh Hfit Htot.
  destruct (resample_cells f w h sx sy Hw Hh Hfit Htot)
    as (out & Erun & Eow & Eoh & Eof & _ & _ & Hcells).
  exists out. split; [exact Erun|].
  intros x y ch s Hx Hy Hc Hs.
  pose proof (Hcells x y s Hx Hy Hs) as Hst.
  rewrite <- Eof in Hst, Hc.
  apply (channel_stored out w h x y ch s Eow Hx Hy Hc); [|exact Hst].
  rewrite Eof. exact Hfit.
Qed.


Lemma sums_zero_channel ch : load (store (sums_channel ch sums_zero)) = F32.zero.
Proof.
  unfold sums_channel. destruct (ch =? 0); [reflexivity|]. destruct (ch =? 1); reflexivity.
Qed.





(** ** The option loop of main *)

Lemma last_cons_some {A : Type} (a : A) l : last (a :: l) = Some (default a (last l)).
Proof.
  revert a. induction l as [|b l IH]; intros a; [reflexivity|].
  change (last (a :: b :: l)) with (last (b :: l)). rewrite IH.
  destruct l; reflexivity.
Qed.

(** the loop over setting options ends with the last argument of each
    option, its flag raised, and the initial value where the option is
    absent *)
Lemma main_loop_setting events : forall v,
  Forall setting events ->
  main_loop events v =
  inr (mkVars (var_wb v || bool_decide (is_Some (last_arg pick_w events)))
              (var_hb v || bool_decide (is_Some (last_arg pick_h events)))
              (default (var_w v) (last_arg pick_w events))
              (default (var_h v) (last_arg pick_h events))
              (default (var_sx v) (last_arg pick_x events))
              (default (var_sy v) (last_arg pick_y events))).
Proof.
  unfold last_arg.
  induction events as [|e events IH]; intros v Hs.
  - cbn. rewrite !orb_false_r. destruct v; reflexivity.
  - apply Forall_cons in Hs as [[HnH Hno] Hs].
    destruct e; try congruence; cbn [main_loop]; rewrite (IH _ Hs);
      cbn [var_wb var_hb var_w var_h var_sx var_sy omap pick_w pick_h pick_x pick_y
           list_omap]; rewrite ?last_cons_some; cbn [default from_option id];
      f_equal;
      repeat match goal with
             | |- context [last ?l] => destruct (last l); cbn
             end;
      rewrite ?orb_true_r, ?orb_false_r; reflexivity.
Qed.

Lemma main_loop_stops pre e post : forall v,
  Forall setting pre -> e = Opt_H \/ e = Opt_other ->
  main_loop (pre ++ e :: post) v =
  inl (match e with Opt_H => EXIT_SUCCESS | _ => EXIT_FAILURE end).
Proof.
  induction pre as [|p pre IH]; intros v Hs He.
  - destruct He as [-> | ->]; reflexivity.
  - apply Forall_cons in Hs as [[HnH Hno] Hs].
    destruct p; try congruence; cbn [app main_loop]; apply IH; assumption.
Qed.

(** a list of events is all setting options, or has a first [-H] or
    unknown option *)
Lemma events_split events :
  Forall setting events \/
  exists pre e post,
    events = pre ++ e :: post /\ Forall setting pre /\ (e = Opt_H \/ e = Opt_other).
Proof.
  induction events as [|e events IH]; [left; constructor|].
  assert (setting e \/ e = Opt_H \/ e = Opt_other) as [Hs | He]
    by (unfold setting; destruct e; auto; left; split; discriminate).
  - destruct IH as [Hall | (pre & e' & post & -> & Hpre & He')].
    + left. constructor; assumption.
    + right. exists (e :: pre), e', post. split; [reflexivity|].
      split; [constructor; assumption | exact He'].
  - right. exists [], e, events. split; [reflexivity|]. split; [constructor | exact He].
Qed.

(** X21. When [getopt] reports only [-w], [-h], [-x] and [-y] and two
    arguments remain, [main] runs [extrapolate] with the argument of the
    last occurrence of each option, -1.0 for an absent scale, and fails when
    [-w] or [-h] is absent: the order of the options and earlier occurrences
    do not matter. *)
Theorem main_argv_options (argc : Z) (events : list getopt_event)
    (inf : option (list byte)) (out_openable : bool) :
  1 < argc -> Forall setting events ->
  main_argv argc events 2 inf out_openable =
  main (mkOptions (last_arg pick_w events) (last_arg pick_h events)
                  (last_arg pick_x events) (last_arg pick_y events)) inf out_openable.
Proof.
  intros Hargc Hs. unfold main_argv, main.
  destruct (Z.leb_spec argc 1); [lia|].
  rewrite (main_loop_setting events main_init Hs).
  cbn [var_wb var_hb var_w var_h var_sx var_sy main_init opt_w opt_h opt_x opt_y orb].
  destruct (last_arg pick_w events) as [w|]; cbn; [|reflexivity].
  destruct (last_arg pick_h events) as [h|]; cbn; [|reflexivity].
  destruct (last_arg pick_x events), (last_arg pick_y events); reflexivity.
Qed.

(** X22. The first [-H] or unknown option ends [main] before any file is
    looked at: [-H] with EXIT_SUCCESS, an unknown option with EXIT_FAILURE,
    whatever options follow and whatever the remaining arguments are. *)
Theorem main_argv_stops_at_help (argc : Z) (pre post : list getopt_event) (positional : Z)
    (inf : option (list byte)) (out_openable : bool) :
  1 < argc -> Forall setting pre ->
  main_argv argc (pre ++ Opt_H :: post) positional inf out_openable = Exit EXIT_SUCCESS None /\
  main_argv argc (pre ++ Opt_other :: post) positional inf out_openable =
  Exit EXIT_FAILURE None.
Proof.
  intros Hargc Hs. unfold main_argv.
  destruct (Z.leb_spec argc 1); [lia|].
  rewrite !(main_loop_stops pre _ post main_init Hs) by auto.
  split; reflexivity.
Qed.

(** X23. Without arguments, without [-w], without [-h], or with a number
    of remaining arguments other than two, [main] reads and writes no file;
    it returns EXIT_SUCCESS only if [-H] was given. *)
Theorem main_argv_usage_error (argc : Z) (events : list getopt_event) (positional : Z)
    (inf : option (list byte)) (out_openable : bool) :
  argc <= 1 \/ positional <> 2 \/
  last_arg pick_w events = None \/ last_arg pick_h events = None ->
  exists status,
    main_argv argc events positional inf out_openable = Exit status None /\
    (status = EXIT_SUCCESS -> In Opt_H events).
Proof.
  intros Hbad. unfold main_argv.
  destruct (Z.leb_spec argc 1) as [|Hargc]; [exists EXIT_FAILURE; split; [reflexivity | discriminate]|].
  destruct (events_split events) as [Hs | (pre & e & post & -> & Hpre & He)].
  - rewrite (main_loop_setting events main_init Hs).
    cbn [var_wb var_hb var_w var_h var_sx var_sy main_init orb].
    exists EXIT_FAILURE. split; [|discriminate].
    destruct (last_arg pick_w events) as [w|]; cbn; [|reflexivity].
    destruct (last_arg pick_h events) as [h|]; cbn; [|reflexivity].
    destruct (Z.eqb_spec positional 2) as [->|]; cbn; [|reflexivity].
    destruct Hbad as [? | [? | [? | ?]]]; try lia; discriminate.
  - rewrite (main_loop_stops pre e post main_init Hpre He).
    eexists. split; [reflexivity|].
    destruct He as [-> | ->]; [|discriminate].
    intros _. apply in_or_app. right. left. reflexivity.
Qed.

(** ** What a completed run has computed *)

Lemma for_steps_ok_each {S : Type} (body : Z -> S -> mem S) :
  forall n i s s', for_steps n i body s = Ok s' ->
  forall j, i <= j < i + Z.of_nat n -> exists t t', body j t = Ok t'.
Proof.
  induction n as [|n IH]; intros i s s' Hrun j Hj; [lia|].
  cbn [for_steps] in Hrun.
  destruct (body i s) as [s1|] eqn:E1; cbn [mbind mem_bind] in Hrun; [|discriminate].
  destruct (Z.eq_dec j i) as [->|Hne]; [exists s, s1; exact E1|].
  apply (IH (i + 1) s1 s' Hrun). lia.
Qed.

(** a run of the loops that ends without fault has computed the sums of
    every destination cell *)
Lemma resample_ok_total f w h sx sy out :
  resample f w h sx sy = Ok out ->
  forall x y, 0 <= x < w -> 0 <= y < h ->
    exists s, sample_cell f (items_per_block (flo_fmt f))
                (effective_scale sx w (flo_w f)) (effective_scale sy h (flo_h f)) x y = Ok s.
Proof.
  unfold resample. intros Hrun x y Hx Hy.
  destruct (alloc_out f w h) as [out0|]; cbn [mbind mem_bind] in Hrun; [|discriminate].
  match type of Hrun with context [for_lt 0 h ?b ?d] =>
    destruct (for_lt 0 h b d) as [data|] eqn:Eloop end;
    cbn [mbind mem_bind] in Hrun; [|discriminate].
  unfold for_lt in Eloop.
  destruct (for_steps_ok_each _ _ _ _ _ Eloop y ltac:(lia)) as (t & t' & Erow).
  cbv beta in Erow. unfold for_lt in Erow.
  destruct (for_steps_ok_each _ _ _ _ _ Erow x ltac:(lia)) as (u & u' & Ecell).
  cbv beta in Ecell.
  destruct (sample_cell _ _ _ _ x y) as [s|]; [|discriminate].
  exists s. reflexivity.
Qed.

(** the sums of a cell whose corners all lie at or past the source width,
    or all at or past its height: no corner is added *)
Lemma sample_cell_outside f npb sx sy x y :
  flo_w f <= F32.to_int_floor (F32.div (F32.of_int x) sx) \/
  flo_h f <= F32.to_int_floor (F32.div (F32.of_int y) sy) ->
  sample_cell f npb sx sy x y = Ok sums_zero.
Proof.
  intros Hout. unfold sample_cell.
  generalize (interpolate2D_weights (F32.div (F32.of_int x) sx) (F32.div (F32.of_int y) sy)).
  revert Hout.
  generalize (F32.to_int_floor (F32.div (F32.of_int x) sx)) as kx.
  generalize (F32.to_int_floor (F32.div (F32.of_int y) sy)) as ky.
  intros ky kx Hout wt.
  destruct (for_lt_total (fun s => s = sums_zero)
              (fun iy acc =>
                 for_lt kx (Int32.add kx 2)
                   (fun ix acc => corner f npb wt ix iy (ix - kx) (iy - ky) acc) acc)
              ky (Int32.add ky 2) sums_zero eq_refl) as (s & E & ->); [|exact E].
  intros iy acc Hiy ->.
  destruct (for_lt_total (fun s => s = sums_zero)
              (fun ix acc => corner f npb wt ix iy (ix - kx) (iy - ky) acc)
              kx (Int32.add kx 2) sums_zero eq_refl) as (s & E & ->).
  - intros ix a Hix ->. exists sums_zero. split; [|reflexivity].
    apply corner_out_of_range. lia.
  - exists sums_zero. split; [exact E | reflexivity].
Qed.

(** a corner with non-negative indices makes one pass over each channel *)
Lemma corner_accumulate f wt ix iy wx wy acc wgt :
  valid_field f -> 0 <= ix -> 0 <= iy ->
  weight_at wt wx wy = Ok wgt ->
  corner f (items_per_block (flo_fmt f)) wt ix iy wx wy acc =
  Ok (mkSums (accumulate f 0 wgt ix iy (sum_u acc))
             (accumulate f 1 wgt ix iy (sum_v acc))
             (match flo_fmt f with
              | FF_FLOW => accumulate f 2 wgt ix iy (sum_c acc)
              | FF_FLO => sum_c acc
              end)).
Proof.
  intros Hv Hx Hy Hw. unfold accumulate, source_value.
  destruct (Z.ltb_spec ix (flo_w f)) as [Hxw|Hxw];
    [destruct (Z.ltb_spec iy (flo_h f)) as [Hyh|Hyh]|]; cbn [andb].
  - rewrite (corner_in_range f wt ix iy wx wy acc wgt Hv ltac:(lia) ltac:(lia) Hw).
    cbv zeta. rewrite Z.add_0_r. reflexivity.
  - rewrite corner_out_of_range by (right; lia).
    destruct acc, (flo_fmt f); reflexivity.
  - rewrite corner_out_of_range by (left; lia).
    destruct acc, (flo_fmt f); reflexivity.
Qed.

(** the sums of a destination cell whose source coordinates convert to
    non-negative integers: the four passes of [bilinear] over each channel *)
Lemma sample_cell_bilinear f sx sy x y :
  valid_field f ->
  let rx := F32.div (F32.of_int x) sx in
  let ry := F32.div (F32.of_int y) sy in
  0 <= F32.to_int_floor rx -> 0 <= F32.to_int_floor ry ->
  sample_cell f (items_per_block (flo_fmt f)) sx sy x y =
  Ok (bilinear_sums f (interpolate2D_weights rx ry)
        (F32.to_int_floor rx) (F32.to_int_floor ry)).
Proof.
  intros Hv rx ry Hkx Hky.
  assert (0 < flo_w f /\ 0 < flo_h f /\
          2 * flo_w f <= Int32.max_signed /\ 2 * flo_h f <= Int32.max_signed)
    as (Hw & Hh & Hw2 & Hh2).
  { destruct Hv as (Hw & Hh & Hn & Hmax & _).
    assert (2 <= items_per_block (flo_fmt f) <= 3) by (destruct (flo_fmt f); cbn; lia).
    unfold Int32.max_signed in *. rewrite Hn in Hmax. repeat split; try assumption; nia. }
  assert (F32.to_int_floor rx <= Int32.max_signed /\ F32.to_int_floor ry <= Int32.max_signed)
    as [Hmx Hmy].
  { unfold F32.to_int_floor.
    split.
    - destruct (F32.floor rx) as [z|]; [|discriminate].
      destruct (Z.leb_spec Int32.min_signed z); cbn [andb]; [|discriminate].
      destruct (Z.leb_spec z Int32.max_signed); [assumption | discriminate].
    - destruct (F32.floor ry) as [z|]; [|discriminate].
      destruct (Z.leb_spec Int32.min_signed z); cbn [andb]; [|discriminate].
      destruct (Z.leb_spec z Int32.max_signed); [assumption | discriminate]. }
  destruct (Z.le_gt_cases (flo_w f) (F32.to_int_floor rx)) as [Hox|Hix].
  { rewrite sample_cell_outside by (left; exact Hox).
    unfold bilinear_sums, bilinear, accumulate.
    destruct (Z.ltb_spec (F32.to_int_floor rx) (flo_w f)); [lia|].
    destruct (Z.ltb_spec (F32.to_int_floor rx + 1) (flo_w f)); [lia|].
    cbn [andb]. destruct (flo_fmt f); reflexivity. }
  destruct (Z.le_gt_cases (flo_h f) (F32.to_int_floor ry)) as [Hoy|Hiy].
  { rewrite sample_cell_outside by (right; exact Hoy).
    unfold bilinear_sums, bilinear, accumulate.
    destruct (Z.ltb_spec (F32.to_int_floor ry) (flo_h f)); [lia|].
    destruct (Z.ltb_spec (F32.to_int_floor ry + 1) (flo_h f)); [lia|].
    rewrite !andb_false_r. destruct (flo_fmt f); reflexivity. }
  unfold sample_cell. fold rx ry.
  revert Hkx Hky Hmx Hmy Hix Hiy.
  generalize (interpolate2D_weights rx ry) as wt.
  generalize (F32.to_int_floor rx) as kx. generalize (F32.to_int_floor ry) as ky.
  intros ky kx wt Hkx Hky Hmx Hmy Hix Hiy.
  unfold Int32.max_signed in *.
  rewrite for_lt_two by (unfold Int32.min_signed, Int32.max_signed; lia).
  rewrite for_lt_two by (unfold Int32.min_signed, Int32.max_signed; lia).
  rewrite !Z.sub_diag.
  replace (kx + 1 - kx) with 1 by lia. replace (ky + 1 - ky) with 1 by lia.
  rewrite (corner_accumulate f wt kx ky 0 0 sums_zero (w00 wt) Hv Hkx Hky eq_refl).
  cbn [mbind mem_bind].
  rewrite (corner_accumulate f wt (kx + 1) ky 1 0 _ (w10 wt) Hv ltac:(lia) Hky eq_refl).
  cbn [mbind mem_bind].
  rewrite for_lt_two by (unfold Int32.min_signed, Int32.max_signed; lia).
  rewrite !Z.sub_diag. replace (kx + 1 - kx) with 1 by lia.
  rewrite (corner_accumulate f wt kx (ky + 1) 0 1 _ (w01 wt) Hv Hkx ltac:(lia) eq_refl).
  cbn [mbind mem_bind].
  rewrite (corner_accumulate f wt (kx + 1) (ky + 1) 1 1 _ (w11 wt) Hv ltac:(lia) ltac:(lia)
             eq_refl).
  unfold bilinear_sums, bilinear. cbn [sum_u sum_v sum_c sums_zero].
  destruct (flo_fmt f); reflexivity.
Qed.


(** X25. Whenever the loops complete, a destination cell whose first
    corner lies at or past the source width, or at or past the source
    height, holds +0.0 in every channel, whatever the scales are. *)
Theorem resample_beyond_source (f : FLOfile) (w h : Z) (sx sy : spec_float) (out : FLOfile)
    (x y ch : Z) :
  0 < w -> 0 < h -> sample_count (flo_fmt f) w h <= Int32.max_signed ->
  resample f w h sx sy = Ok out ->
  0 <= x < w -> 0 <= y < h -> 0 <= ch < items_per_block (flo_fmt f) ->
  flo_w f <= F32.to_int_floor (F32.div (F32.of_int x) (effective_scale sx w (flo_w f))) \/
  flo_h f <= F32.to_int_floor (F32.div (F32.of_int y) (effective_scale sy h (flo_h f))) ->
  channel out ch x y = Ok F32.zero.
Proof.
  intros Hw Hh Hfit Hrun Hx Hy Hc Hout.
  destruct (resample_channel f w h sx sy Hw Hh Hfit (resample_ok_total f w h sx sy out Hrun))
    as (out' & Hrun' & Hch).
  rewrite Hrun in Hrun'. ok_inj Hrun'. subst out'.
  rewrite (Hch x y ch sums_zero Hx Hy Hc (sample_cell_outside f _ _ _ x y Hout)).
  rewrite sums_zero_channel. reflexivity.
Qed.

(** ** Storing what was loaded *)







(** ** A run that copies its input *)




(** ** Coordinates half-way between two cells *)

Lemma shl_align_fst mx ex ez :
  ez <= ex -> Z.pos (fst (shl_align mx ex ez)) = Z.pos mx * 2 ^ (ex - ez).
Proof.
  intros H. unfold shl_align.
  destruct (ez - ex) as [|d|d] eqn:E; try lia.
  - replace (ex - ez) with 0 by lia. cbn [fst]. lia.
  - cbn [fst]. rewrite pos_iter_xO. f_equal. f_equal. lia.
Qed.

(** the power of two 2^k at exponent [ez], with 2^k * 2^ez = 0.5 *)
Lemma normalize_half k ez :
  0 <= k <= 23 -> ez = - k - 1 ->
  binary_normalize 24 128 (2 ^ k) ez false = one_half.
Proof.
  intros Hk ->.
  assert (0 < 2 ^ k) as Hp by (apply Z.pow_pos_nonneg; lia).
  destruct (2 ^ k) as [|p|p] eqn:Ep; try lia.
  unfold binary_normalize, binary_round.
  assert (Z.pos (digits2_pos p) = k + 1) as Hd.
  { apply Z.le_antisymm.
    - apply digits2_pos_le; [lia|]. rewrite <- Ep. apply Z.pow_lt_mono_r; lia.
    - apply digits2_pos_ge; [lia|]. rewrite <- Ep. lia. }
  rewrite Hd. replace (k + 1 + (- k - 1)) with 0 by lia.
  change (fexp 24 128 0) with (-24).
  assert (shl_align p (- k - 1) (-24) = (8388608%positive, -24)) as ->.
  { unfold shl_align. destruct (-24 - (- k - 1)) as [|d|d] eqn:E; try lia.
    - assert (k = 23) as -> by lia. change (2 ^ 23) with 8388608 in Ep.
      injection Ep as <-. reflexivity.
    - f_equal. apply Pos2Z.inj. rewrite pos_iter_xO, <- Ep.
      rewrite <- Z.pow_add_r by lia. replace (k + Z.pos d) with 23 by lia. reflexivity. }
  reflexivity.
Qed.

(** the fraction of (2i+1)/2 is 0.5 *)
Lemma fraction_odd i :
  0 <= i -> 2 * i + 1 < 16777216 ->
  F32.sub (F32.div (F32.of_int (2 * i + 1)) F32.two) (F32.of_int i) = one_half.
Proof.
  intros Hi H2. destruct (Z.eq_dec i 0) as [->|Hne]; [vm_compute; reflexivity|].
  destruct (of_int_small (2 * i + 1)) as (m & e & Eo & Hd & He & Hm); [lia|].
  destruct (of_int_small i) as (m' & e' & Eo' & Hd' & He' & Hm'); [lia|].
  rewrite Eo, Eo'. unfold F32.two. rewrite div_pow2_normal by (try assumption; lia).
  replace (e - -22 - 23) with (e - 1) by lia.
  unfold F32.sub, F32.prec, F32.emax, SFsub. cbn [cond_Zopp]. cbv zeta.
  assert (Z.min (e - 1) e' <= e - 1) as H1 by lia.
  assert (Z.min (e - 1) e' <= e') as H1' by lia.
  assert (-24 <= Z.min (e - 1) e' <= -1) as Hz by lia.
  rewrite (shl_align_fst m (e - 1) _ H1), (shl_align_fst m' e' _ H1').
  generalize dependent (Z.min (e - 1) e'). intros ez H1 H1' Hz.
  assert (Z.pos m * 2 ^ (e - 1 - ez) - Z.pos m' * 2 ^ (e' - ez) = 2 ^ (- ez - 1)) as ->.
  { rewrite Hm, Hm'.
    rewrite <- !Z.mul_assoc, <- !Z.pow_add_r by lia.
    replace (- e + (e - 1 - ez)) with (- ez - 1) by lia.
    replace (- e' + (e' - ez)) with (Z.succ (- ez - 1)) by lia.
    rewrite Z.pow_succ_r by lia. lia. }
  apply normalize_half; lia.
Qed.

(** the fraction of 2j/2 is 0.0 *)
Lemma fraction_even j :
  0 <= j -> 2 * j < 16777216 ->
  F32.div (F32.of_int (2 * j)) F32.two = F32.of_int j /\
  F32.to_int_floor (F32.of_int j) = j /\
  F32.sub (F32.of_int j) (F32.of_int j) = F32.zero.
Proof.
  intros Hj H2.
  assert (0 <= j < 16777216) as Hr by lia.
  destruct (coord_identity j Hr) as [E1 E2].
  rewrite (div_one_of_int j Hr) in E1, E2.
  split; [|split; [exact E1 | exact E2]].
  destruct (Z.eq_dec j 0) as [->|]; [reflexivity|]. apply of_int_double; lia.
Qed.

(** the weights at a coordinate half-way in x, in y, and in both *)
Lemma weights_odd_even i j :
  0 <= i -> 2 * i + 1 < 16777216 -> 0 <= j -> 2 * j < 16777216 ->
  interpolate2D_weights (F32.div (F32.of_int (2 * i + 1)) F32.two)
                        (F32.div (F32.of_int (2 * j)) F32.two) =
  mkWeights one_half one_half F32.zero F32.zero.
Proof.
  intros Hi Hi2 Hj Hj2.
  destruct (fraction_even j Hj Hj2) as (Ej & Fj & Sj).
  pose proof (fraction_odd i Hi Hi2) as Oi.
  pose proof (to_int_floor_half (2 * i + 1) ltac:(lia)) as Ti.
  replace ((2 * i + 1) / 2) with i in Ti by (Z.div_mod_to_equations; lia).
  unfold interpolate2D_weights. rewrite Ej, Ti, Fj, Oi, Sj. vm_compute. reflexivity.
Qed.

Lemma weights_even_odd i j :
  0 <= i -> 2 * i < 16777216 -> 0 <= j -> 2 * j + 1 < 16777216 ->
  interpolate2D_weights (F32.div (F32.of_int (2 * i)) F32.two)
                        (F32.div (F32.of_int (2 * j + 1)) F32.two) =
  mkWeights one_half F32.zero one_half F32.zero.
Proof.
  intros Hi Hi2 Hj Hj2.
  destruct (fraction_even i Hi Hi2) as (Ei & Fi & Si).
  pose proof (fraction_odd j Hj Hj2) as Oj.
  pose proof (to_int_floor_half (2 * j + 1) ltac:(lia)) as Tj.
  replace ((2 * j + 1) / 2) with j in Tj by (Z.div_mod_to_equations; lia).
  unfold interpolate2D_weights. rewrite Ei, Tj, Fi, Oj, Si. vm_compute. reflexivity.
Qed.

Lemma weights_odd_odd i j :
  0 <= i -> 2 * i + 1 < 16777216 -> 0 <= j -> 2 * j + 1 < 16777216 ->
  interpolate2D_weights (F32.div (F32.of_int (2 * i + 1)) F32.two)
                        (F32.div (F32.of_int (2 * j + 1)) F32.two) =
  mkWeights one_quarter one_quarter one_quarter one_quarter.
Proof.
  intros Hi Hi2 Hj Hj2.
  pose proof (fraction_odd i Hi Hi2) as Oi. pose proof (fraction_odd j Hj Hj2) as Oj.
  pose proof (to_int_floor_half (2 * i + 1) ltac:(lia)) as Ti.
  pose proof (to_int_floor_half (2 * j + 1) ltac:(lia)) as Tj.
  replace ((2 * i + 1) / 2) with i in Ti by (Z.div_mod_to_equations; lia).
  replace ((2 * j + 1) / 2) with j in Tj by (Z.div_mod_to_equations; lia).
  unfold interpolate2D_weights. rewrite Ti, Tj, Oi, Oj. vm_compute. reflexivity.
Qed.

(** X27. Half-way between two cells the weights are halves and quarters:
    at ((2i+1)/2, j) they are 0.5, 0.5, 0, 0 (in the order [w[0][0]],
    [w[1][0]], [w[0][1]], [w[1][1]]), at (i, (2j+1)/2) they are 0.5, 0, 0.5,
    0, and at ((2i+1)/2, (2j+1)/2) all four are 0.25, exactly, for
    coordinates below 2^23. *)
Theorem interpolate2D_weights_half (i j : Z) :
  0 <= i -> 2 * i + 1 < 16777216 -> 0 <= j -> 2 * j + 1 < 16777216 ->
  let even k := F32.div (F32.of_int (2 * k)) F32.two in
  let odd k := F32.div (F32.of_int (2 * k + 1)) F32.two in
  interpolate2D_weights (odd i) (even j) = mkWeights one_half one_half F32.zero F32.zero /\
  interpolate2D_weights (even i) (odd j) = mkWeights one_half F32.zero one_half F32.zero /\
  interpolate2D_weights (odd i) (odd j) =
    mkWeights one_quarter one_quarter one_quarter one_quarter.
Proof.
  intros Hi Hi2 Hj Hj2. cbv zeta.
  split; [apply weights_odd_even; lia|].
  split; [apply weights_even_odd; lia | apply weights_odd_odd; lia].
Qed.


(** ** An infinite scale *)



(** ** The default scale of a doubled dimension *)

(** the quotient of two normal values with the same mantissa is a power of
    two *)
Lemma div_same_mantissa m e1 e2 :
  Z.pos (digits2_pos m) = 24 -> -125 <= e1 - e2 <= 127 ->
  F32.div (S754_finite false m e1) (S754_finite false m e2) =
  S754_finite false 8388608 (e1 - e2 - 23).
Proof.
  intros Hd He.
  unfold F32.div, F32.prec, F32.emax, SFdiv. cbn [xorb].
  assert (SFdiv_core_binary 24 128 (Z.pos m) e1 (Z.pos m) e2 =
          (16777216, e1 - e2 - 24, loc_Exact)) as Hcore.
  { unfold SFdiv_core_binary. cbn [Zdigits2]. rewrite Hd.
    replace (Z.min (fexp 24 128 (24 + e1 - (24 + e2))) (e1 - e2)) with (e1 - e2 - 24)
      by (rewrite fexp_eq; lia).
    replace (e1 - e2 - (e1 - e2 - 24)) with 24 by lia.
    cbv beta iota zeta.
    rewrite Z.shiftl_mul_pow2 by lia. change (2 ^ 24) with 16777216.
    pose proof (Z_div_mod (Z.pos m * 16777216) (Z.pos m) eq_refl) as Hdm.
    destruct (Z.div_eucl (Z.pos m * 16777216) (Z.pos m)) as [q r].
    assert (q = 16777216) as ->
      by (destruct (Z.lt_trichotomy q 16777216) as [Hq|[Hq|Hq]]; [nia | exact Hq | nia]).
    assert (r = 0) as -> by lia.
    unfold new_location. destruct (Z.even (Z.pos m)); reflexivity. }
  rewrite Hcore. unfold binary_round_aux.
  assert (shr_fexp 24 128 16777216 (e1 - e2 - 24) loc_Exact =
          ({| shr_m := 8388608; shr_r := false; shr_s := false |}, e1 - e2 - 23)) as Hs.
  { unfold shr_fexp. cbn [Zdigits2].
    change (Z.pos (digits2_pos 16777216)) with 25.
    replace (fexp 24 128 (25 + (e1 - e2 - 24)) - (e1 - e2 - 24)) with 1
      by (rewrite fexp_eq; lia).
    cbn [shr shr_record_of_loc SpecFloat.iter_pos shr_1 orb]. f_equal. lia. }
  rewrite Hs. cbn [shr_m loc_of_shr_record round_nearest_even].
  rewrite shr_fexp_canonical
    by (change (Z.pos (digits2_pos 8388608)) with 24; rewrite fexp_eq; lia).
  cbn [shr_m]. destruct (Z.leb_spec (e1 - e2 - 23) (128 - 24)); [reflexivity | lia].
Qed.

Lemma default_scale_double n :
  0 < n -> 2 * n < 16777216 -> F32.div (F32.of_int (2 * n)) (F32.of_int n) = F32.two.
Proof.
  intros Hn H2.
  pose proof (of_int_double n Hn H2) as Hdiv.
  destruct (of_int_small n) as (m & e & Eo & Hd & He & Hm); [lia|].
  destruct (of_int_small (2 * n)) as (m2 & e2 & Eo2 & Hd2 & He2 & Hm2); [lia|].
  rewrite Eo, Eo2 in *. unfold F32.two in Hdiv.
  rewrite div_pow2_normal in Hdiv by (try assumption; lia).
  injection Hdiv as -> He'.
  rewrite div_same_mantissa by (try assumption; lia).
  unfold F32.two. f_equal. lia.
Qed.

(** X30. Doubling: when the target dimensions are twice those of the
    source (below 2^24) and the scales are absent or not positive, both
    default scales are exactly 2.0, and the run is the run with the scales 2
    passed explicitly. *)
Theorem resample_default_double (f : FLOfile) (sx sy : spec_float) :
  0 < flo_w f -> 2 * flo_w f < 16777216 ->
  0 < flo_h f -> 2 * flo_h f < 16777216 ->
  F32.leb sx F32.zero = true -> F32.leb sy F32.zero = true ->
  effective_scale sx (2 * flo_w f) (flo_w f) = F32.two /\
  effective_scale sy (2 * flo_h f) (flo_h f) = F32.two /\
  resample f (2 * flo_w f) (2 * flo_h f) sx sy =
  resample f (2 * flo_w f) (2 * flo_h f) F32.two F32.two.
Proof.
  intros Hw Hw2 Hh Hh2 Hsx Hsy.
  assert (effective_scale sx (2 * flo_w f) (flo_w f) = F32.two) as Ex
    by (rewrite effective_scale_default by exact Hsx; apply default_scale_double; lia).
  assert (effective_scale sy (2 * flo_h f) (flo_h f) = F32.two) as Ey
    by (rewrite effective_scale_default by exact Hsy; apply default_scale_double; lia).
  split; [exact Ex|]. split; [exact Ey|].
  rewrite (resample_effective_scale f _ _ sx sy), Ex, Ey. reflexivity.
Qed.

(** ** The further properties at concrete inputs *)


Lemma example_field_read : read_flow (Some (flow_bytes example_field)) = ReadOk example_field.
Proof. apply read_flow_flow_bytes, example_field_valid. Qed.

Lemma read_flow_refuses_foreign_tag_witness :
  read_flow (Some [x50; x49; x45; x4a; x00]) = ReadError InvalidFileType.
Proof.
  apply (read_flow_refuses_foreign_tag [x50; x49; x45; x4a; x00]); discriminate.
Defined.

Lemma read_flow_refuses_prefix_witness :
  (13 < length (flow_bytes example_field))%nat /\
  read_flow (Some (take 13 (flow_bytes example_field))) = ReadError IncompleteData.
Proof.
  assert (13 < length (flow_bytes example_field))%nat as H by (vm_compute; lia).
  split; [exact H|].
  apply (read_flow_refuses_prefix example_field 13 example_field_valid H).
Defined.

Lemma read_flow_refuses_dimensions_witness :
  read_flow (Some (header FF_FLOW 0 5 ++ [x00; x00; x80; x3f])) =
  ReadError InvalidWidthOrHeight.
Proof.
  apply (read_flow_refuses_dimensions FF_FLOW 0 5 [x00; x00; x80; x3f]);
    unfold Int32.in_range, Int32.min_signed, Int32.max_signed; lia.
Defined.

Lemma read_flow_accepts_witness :
  let payload := float32_bytes (store F32.one) ++ float32_bytes (store F32.two) ++ [xff] in
  read_flow (Some (header FF_FLO 1 1 ++ payload)) =
  ReadOk (mkFLOfile 1 1 FF_FLO 2 [store F32.one; store F32.two]).
Proof.
  cbv zeta.
  destruct (read_flow_accepts FF_FLO 1 1
              (float32_bytes (store F32.one) ++ float32_bytes (store F32.two) ++ [xff]))
    as [H _]; [lia | lia | vm_compute; discriminate | vm_compute; discriminate |].
  exact H.
Defined.

Lemma read_flow_ignores_trailing_bytes_witness :
  read_flow (Some (flow_bytes example_field ++ [x00; xff])) = ReadOk example_field.
Proof.
  apply (read_flow_ignores_trailing_bytes (flow_bytes example_field) [x00; xff]
           example_field example_field_read).
Defined.

Lemma write_flow_read_flow_witness :
  exists trailing,
    write_flow true example_field = (0, Some (flow_bytes example_field)) /\
    flow_bytes example_field ++ [x2a] = flow_bytes example_field ++ trailing.
Proof.
  apply (write_flow_read_flow (flow_bytes example_field ++ [x2a]) example_field).
  vm_compute. reflexivity.
Defined.

Lemma read_flow_ok_buffer_witness :
  Z.of_nat (length (flo_data example_field)) = flo_nmemb example_field /\
  take 4 (flow_bytes example_field) = flo_formats FF_FLO.
Proof.
  destruct (read_flow_ok_buffer (flow_bytes example_field) example_field example_field_read)
    as (_ & _ & _ & _ & Hlen & Htag).
  split; [exact Hlen | exact Htag].
Defined.

Lemma write_flow_layout_witness :
  Z.of_nat (length (flow_bytes example_field)) = 12 + 4 * 8 /\
  floats_of_bytes (drop 12 (flow_bytes example_field)) = flo_data example_field.
Proof.
  destruct (write_flow_layout example_field) as (_ & Hlen & _ & Hdata);
    [reflexivity | vm_compute; discriminate |].
  split; [exact Hlen | exact Hdata].
Defined.

Lemma IDX_in_buffer_witness :
  U_IDX example_field 1 1 2 = 6 /\ V_IDX example_field 1 1 2 = 7.
Proof.
  destruct (IDX_in_buffer example_field 1 1 example_field_valid) as (Hu & Hv & _);
    [cbn; lia | cbn; lia |].
  split; [exact Hu | exact Hv].
Defined.

Lemma IDX_distinct_witness :
  IDX 1 2 0 1 2 = 5 /\ (0 = 0 /\ 1 = 1 /\ 1 = 1).
Proof.
  split; [reflexivity|].
  apply (IDX_distinct example_field 0 1 1 0 1 1 example_field_valid);
    first [reflexivity | cbn; lia].
Defined.

Lemma interpolate2D_weights_integer_witness :
  interpolate2D_weights (F32.of_int 3) (F32.of_int 5) =
  mkWeights F32.one F32.zero F32.zero F32.zero.
Proof. apply (interpolate2D_weights_integer 3 5); lia. Defined.

Lemma resample_dimensions_witness :
  exists out,
    resample example_field 4 4 F32.two F32.two = Ok out /\
    flo_w out = 4 /\ flo_h out = 4 /\ Z.of_nat (length (flo_data out)) = 32.
Proof.
  destruct (resample example_field 4 4 F32.two F32.two) as [out|flt] eqn:E;
    [|vm_compute in E; discriminate].
  exists out. split; [reflexivity|].
  destruct (resample_dimensions example_field 4 4 F32.two F32.two out)
    as (Hw & Hh & _ & _ & Hlen & _);
    [lia | lia | vm_compute; discriminate | exact E |].
  split; [exact Hw|]. split; [exact Hh | exact Hlen].
Defined.

Lemma scale_two_converts x :
  0 <= x < 4 -> F32.to_int_floor (F32.div (F32.of_int x) F32.two) <> Int32.min_signed.
Proof.
  intros Hx. assert (x = 0 \/ x = 1 \/ x = 2 \/ x = 3) as [-> | [-> | [-> | ->]]] by lia;
    vm_compute; discriminate.
Qed.

Lemma extrapolate_writes_readable_file_witness :
  exists out,
    extrapolate 4 4 F32.two F32.two (Some (flow_bytes example_field)) true =
      Exit EXIT_SUCCESS (Some (flow_bytes out)) /\
    read_flow (Some (flow_bytes out)) = ReadOk out /\
    flo_w out = 4 /\ flo_h out = 4.
Proof.
  destruct (extrapolate_writes_readable_file example_field 4 4 F32.two F32.two
              (flow_bytes example_field) example_field_read example_field_valid)
    as (out & Hrun & Hread & Hw & Hh & _);
    [lia | lia | vm_compute; discriminate | reflexivity | reflexivity
    | exact scale_two_converts | exact scale_two_converts |].
  exists out. split; [exact Hrun|]. split; [exact Hread|]. split; [exact Hw | exact Hh].
Defined.

Lemma extrapolate_target_not_positive_witness :
  extrapolate 0 4 F32.one F32.one (Some (flow_bytes example_field)) true =
    Exit 0 (Some (header FF_FLO 0 4)) /\
  read_flow (Some (header FF_FLO 0 4)) = ReadError InvalidWidthOrHeight.
Proof.
  assert (extrapolate 0 4 F32.one F32.one (Some (flow_bytes example_field)) true =
          Exit 0 (Some (header FF_FLO 0 4))) as Hrun by (vm_compute; reflexivity).
  split; [exact Hrun|].
  destruct (extrapolate_target_not_positive example_field 0 4 F32.one F32.one
              (flow_bytes example_field) 0 (header FF_FLO 0 4)) as (_ & _ & Hread);
    [unfold Int32.in_range, Int32.min_signed, Int32.max_signed; lia
    |unfold Int32.in_range, Int32.min_signed, Int32.max_signed; lia
    |left; lia | exact example_field_read | exact Hrun |].
  exact Hread.
Defined.





Lemma main_argv_options_witness :
  main_argv 7 [Opt_w 3; Opt_x F32.two; Opt_w 4; Opt_h 4] 2 None true =
  main (mkOptions (Some 4) (Some 4) (Some F32.two) None) None true.
Proof.
  apply (main_argv_options 7 [Opt_w 3; Opt_x F32.two; Opt_w 4; Opt_h 4] None true);
    [lia | repeat constructor; discriminate].
Defined.

Lemma main_argv_stops_at_help_witness :
  main_argv 4 [Opt_w 4; Opt_H; Opt_other] 1 None false = Exit EXIT_SUCCESS None.
Proof.
  destruct (main_argv_stops_at_help 4 [Opt_w 4] [Opt_other] 1 None false) as [H _];
    [lia | repeat constructor; discriminate |].
  exact H.
Defined.

Lemma main_argv_usage_error_witness :
  exists status,
    main_argv 4 [Opt_w 4] 2 (Some (flow_bytes example_field)) true = Exit status None /\
    (status = EXIT_SUCCESS -> In Opt_H [Opt_w 4]).
Proof.
  apply (main_argv_usage_error 4 [Opt_w 4] 2 (Some (flow_bytes example_field)) true).
  right. right. right. reflexivity.
Defined.



Lemma resample_beyond_source_witness :
  exists out,
    resample example_field 3 3 F32.one F32.one = Ok out /\
    channel out 1 2 1 = Ok F32.zero.
Proof.
  destruct (resample example_field 3 3 F32.one F32.one) as [out|flt] eqn:E;
    [|vm_compute in E; discriminate].
  exists out. split; [reflexivity|].
  apply (resample_beyond_source example_field 3 3 F32.one F32.one out 2 1 1);
    [lia | lia | vm_compute; discriminate | exact E | lia | lia | cbn; lia
    | left; vm_compute; discriminate].
Defined.


Lemma interpolate2D_weights_half_witness :
  interpolate2D_weights (F32.div (F32.of_int 3) F32.two) (F32.div (F32.of_int 5) F32.two) =
  mkWeights one_quarter one_quarter one_quarter one_quarter.
Proof.
  destruct (interpolate2D_weights_half 1 2) as (_ & _ & H); [lia | lia | lia | lia |].
  exact H.
Defined.



Lemma resample_default_double_witness :
  resample example_field 4 4 F32.minus_one F32.minus_one =
  resample example_field 4 4 F32.two F32.two.
Proof.
  destruct (resample_default_double example_field F32.minus_one F32.minus_one)
    as (_ & _ & H); [cbn; lia | cbn; lia | cbn; lia | cbn; lia | reflexivity | reflexivity |].
  exact H.
Defined.

(** * The edge of a constant field on every grid *)

(** The values left at the edge of a resampled constant field depend on
    the grid through the weights, which are rounded quotients, differences
    and products. This part bounds each rounding of [SpecFloat] by half a
    unit in the last place, over the rationals, and follows the values of
    an edge cell through lines 256-279. *)

(** ** Shifting and rounding a mantissa *)

Lemma shr_1_spec r : 0 <= shr_m r -> shr_m (shr_1 r) = shr_m r / 2.
Proof.
  destruct r as [m rr ss]. cbn [shr_m]. intros Hm.
  destruct m as [|[p|p|]|]; try lia; cbn [shr_1 shr_m]; try reflexivity.
  - rewrite Pos2Z.inj_xI. Z.div_mod_to_equations. lia.
  - rewrite Pos2Z.inj_xO. Z.div_mod_to_equations. lia.
Qed.

Lemma iter_shr_spec p : forall r,
  0 <= shr_m r ->
  shr_m (SpecFloat.iter_pos shr_1 p r) = shr_m r / 2 ^ Z.pos p.
Proof.
  induction p as [p IH|p IH|]; intros r Hr; cbn [SpecFloat.iter_pos].
  - pose proof (Z.pow_pos_nonneg 2 (Z.pos p) ltac:(lia) ltac:(lia)) as Ha.
    replace (2 ^ Z.pos p~1) with (2 * (2 ^ Z.pos p * 2 ^ Z.pos p))
      by (rewrite (Pos2Z.inj_xI p);
          replace (2 * Z.pos p + 1) with (1 + (Z.pos p + Z.pos p)) by lia;
          rewrite (Z.pow_add_r 2 1), (Z.pow_add_r 2 (Z.pos p)) by lia; reflexivity).
    pose proof (shr_1_spec r Hr) as E1.
    assert (0 <= shr_m (shr_1 r)) as H1 by (rewrite E1; apply Z.div_pos; lia).
    pose proof (IH _ H1) as E2.
    assert (0 <= shr_m (SpecFloat.iter_pos shr_1 p (shr_1 r))) as H2
      by (rewrite E2; apply Z.div_pos; lia).
    rewrite (IH _ H2), E2, E1, !Z.div_div by nia. reflexivity.
  - pose proof (Z.pow_pos_nonneg 2 (Z.pos p) ltac:(lia) ltac:(lia)) as Ha.
    replace (2 ^ Z.pos p~0) with (2 ^ Z.pos p * 2 ^ Z.pos p)
      by (rewrite (Pos2Z.inj_xO p);
          replace (2 * Z.pos p) with (Z.pos p + Z.pos p) by lia;
          rewrite (Z.pow_add_r 2 (Z.pos p)) by lia; reflexivity).
    pose proof (IH _ Hr) as E2.
    assert (0 <= shr_m (SpecFloat.iter_pos shr_1 p r)) as H2
      by (rewrite E2; apply Z.div_pos; lia).
    rewrite (IH _ H2), E2, Z.div_div by lia. reflexivity.
  - change (2 ^ 1) with 2. apply shr_1_spec. exact Hr.
Qed.

Lemma shr_1_located rec N D :
  0 <= N -> 0 < D -> located rec N D -> located (shr_1 rec) N (2 * D).
Proof.
  intros HN HD [Hm Hl].
  pose proof (Z.div_mod N D ltac:(lia)) as E1.
  pose proof (Z.mod_pos_bound N D HD) as B1.
  pose proof (Z.div_mod N (2 * D) ltac:(lia)) as E2.
  pose proof (Z.mod_pos_bound N (2 * D) ltac:(lia)) as B2.
  assert (0 <= N / D) as Hq by (apply Z.div_pos; lia).
  assert (N / (2 * D) = N / D / 2) as Ediv
    by (rewrite (Z.mul_comm 2 D), Z.div_div by lia; reflexivity).
  pose proof (Z.div_mod (N / D) 2 ltac:(lia)) as E3.
  pose proof (Z.mod_pos_bound (N / D) 2 ltac:(lia)) as B3.
  assert (N mod (2 * D) = (N / D) mod 2 * D + N mod D) as Emod by nia.
  destruct rec as [m rr ss]. cbn [shr_m shr_r shr_s] in *. subst m.
  unfold located.
  destruct (N / D) as [|[p|p|]|] eqn:Eq; try lia; cbn [shr_1 shr_m shr_r shr_s].
  - split; [rewrite Ediv; reflexivity|].
    change (0 mod 2) with 0 in *. destruct rr, ss; cbn [orb]; lia.
  - split; [rewrite Ediv, Pos2Z.inj_xI; Z.div_mod_to_equations; lia|].
    assert (Z.pos p~1 mod 2 = 1) as E1' by (rewrite Pos2Z.inj_xI; Z.div_mod_to_equations; lia).
    rewrite E1' in *. destruct rr, ss; cbn [orb]; lia.
  - split; [rewrite Ediv, Pos2Z.inj_xO; Z.div_mod_to_equations; lia|].
    assert (Z.pos p~0 mod 2 = 0) as E1' by (rewrite Pos2Z.inj_xO; Z.div_mod_to_equations; lia).
    rewrite E1' in *. destruct rr, ss; cbn [orb]; lia.
  - split; [rewrite Ediv; reflexivity|].
    change (1 mod 2) with 1 in *. destruct rr, ss; cbn [orb]; lia.
Qed.

Lemma iter_shr_located p : forall rec N D,
  0 <= N -> 0 < D -> located rec N D ->
  located (SpecFloat.iter_pos shr_1 p rec) N (D * 2 ^ Z.pos p).
Proof.
  induction p as [p IH|p IH|]; intros rec N D HN HD Hl; cbn [SpecFloat.iter_pos].
  - pose proof (Z.pow_pos_nonneg 2 (Z.pos p) ltac:(lia) ltac:(lia)) as Ha.
    replace (D * 2 ^ Z.pos p~1) with (2 * D * 2 ^ Z.pos p * 2 ^ Z.pos p)
      by (rewrite (Pos2Z.inj_xI p);
          replace (2 * Z.pos p + 1) with (1 + (Z.pos p + Z.pos p)) by lia;
          rewrite (Z.pow_add_r 2 1), (Z.pow_add_r 2 (Z.pos p)) by lia;
          change (2 ^ 1) with 2; ring).
    apply IH; [exact HN | nia|]. apply IH; [exact HN | lia|].
    apply shr_1_located; assumption.
  - pose proof (Z.pow_pos_nonneg 2 (Z.pos p) ltac:(lia) ltac:(lia)) as Ha.
    replace (D * 2 ^ Z.pos p~0) with (D * 2 ^ Z.pos p * 2 ^ Z.pos p)
      by (rewrite (Pos2Z.inj_xO p);
          replace (2 * Z.pos p) with (Z.pos p + Z.pos p) by lia;
          rewrite (Z.pow_add_r 2 (Z.pos p)) by lia; ring).
    apply IH; [exact HN | nia|]. apply IH; assumption.
  - change (2 ^ 1) with 2. rewrite Z.mul_comm. apply shr_1_located; assumption.
Qed.

Lemma round_nearest_even_located rec N D :
  0 <= N -> 0 < D -> located rec N D ->
  - D <= 2 * (round_nearest_even (shr_m rec) (loc_of_shr_record rec) * D - N) <= D.
Proof.
  intros HN HD [Hm Hl].
  pose proof (Z.div_mod N D ltac:(lia)) as E1.
  pose proof (Z.mod_pos_bound N D HD) as B1.
  destruct rec as [m rr ss]. cbn [shr_m shr_r shr_s] in *. subst m.
  destruct rr, ss; cbn [loc_of_shr_record round_nearest_even]; try nia.
  destruct (Z.even (N / D)); nia.
Qed.

Lemma round_nearest_even_bounds m l : m <= round_nearest_even m l <= m + 1.
Proof.
  unfold round_nearest_even. destruct l as [|[| |]]; try lia.
  destruct (Z.even m); lia.
Qed.

Lemma shr_record_of_loc_m m l : shr_m (shr_record_of_loc m l) = m.
Proof. destruct l as [|[| |]]; reflexivity. Qed.

Lemma loc_of_shr_record_of_loc m l : loc_of_shr_record (shr_record_of_loc m l) = l.
Proof. destruct l as [|[| |]]; reflexivity. Qed.

(** the second call of [shr_fexp] in [binary_round_aux]: it renormalises
    a mantissa that the rounding has carried to 2^24 *)
Lemma second_stage_rounded s q E :
  0 <= q <= 16777216 -> -149 <= E <= 104 ->
  (-149 < E -> 8388608 <= q) ->
  (E = 104 -> q < 16777216) ->
  rounded s q E
    (let '(mrs, e) := shr_fexp 24 128 q E loc_Exact in
     match shr_m mrs with
     | 0 => S754_zero s
     | Z.pos m => if e <=? 128 - 24 then S754_finite s m e else S754_infinity s
     | Z.neg _ => S754_nan
     end).
Proof.
  intros Hq HE Hn Hov. destruct q as [|mq|mq]; try lia.
  - left. split; [reflexivity|]. unfold shr_fexp. cbn [Zdigits2].
    rewrite fexp_eq. unfold shr.
    destruct (Z.max (0 + E - 24) (-149) - E) eqn:En; try reflexivity. lia.
  - right. destruct (Z.eq_dec (Z.pos mq) 16777216) as [Eq|Ne].
    + assert (E <> 104) as HE104 by (intros E104; specialize (Hov E104); lia).
      clear Hov. injection Eq as ->. exists 8388608%positive, (E + 1).
      split; [|split; [apply bounded_normal; [reflexivity|lia]|split; [lia|]]].
      * unfold shr_fexp. change (Zdigits2 16777216) with 25.
        replace (fexp 24 128 (25 + E) - E) with 1 by (rewrite fexp_eq; lia).
        cbn [shr shr_record_of_loc SpecFloat.iter_pos shr_1 orb shr_m].
        destruct (Z.leb_spec (E + 1) (128 - 24)); [reflexivity|lia].
      * replace (E + 1 - E) with 1 by lia. reflexivity.
    + assert (Z.pos (digits2_pos mq) <= 24) as Hd
        by (apply digits2_pos_le; [lia | change (2 ^ 24) with 16777216; lia]).
      assert (fexp 24 128 (Z.pos (digits2_pos mq) + E) = E) as Hc.
      { rewrite fexp_eq. destruct (Z.eq_dec E (-149)) as [->|HE']; [lia|].
        assert (23 + 1 <= Z.pos (digits2_pos mq))
          by (apply digits2_pos_ge; [lia | change (2 ^ 23) with 8388608; lia]).
        lia. }
      exists mq, E. rewrite (shr_fexp_canonical mq E Hc). cbn [shr_m].
      destruct (Z.leb_spec E (128 - 24)); [|lia].
      split; [reflexivity|]. split.
      * unfold bounded, canonical_mantissa. rewrite Hc.
        apply andb_true_intro. split; [apply Z.eqb_eq | apply Z.leb_le]; lia.
      * split; [lia|]. rewrite Z.sub_diag. lia.
Qed.

(** [binary_round_aux] on a mantissa that needs no shift to the left:
    the result is the mantissa shifted to the exponent of the format and
    rounded up or down, to nearest when the location given is exact *)
Lemma binary_round_aux_rounded s m e l :
  e <= fexp 24 128 (Z.pos (digits2_pos m) + e) <= 104 ->
  (fexp 24 128 (Z.pos (digits2_pos m) + e) = 104 ->
   Z.pos m / 2 ^ (fexp 24 128 (Z.pos (digits2_pos m) + e) - e) + 1 < 16777216) ->
  exists q,
    Z.pos m / 2 ^ (fexp 24 128 (Z.pos (digits2_pos m) + e) - e) <= q
      <= Z.pos m / 2 ^ (fexp 24 128 (Z.pos (digits2_pos m) + e) - e) + 1 /\
    (l = loc_Exact ->
     - 2 ^ (fexp 24 128 (Z.pos (digits2_pos m) + e) - e)
       <= 2 * (q * 2 ^ (fexp 24 128 (Z.pos (digits2_pos m) + e) - e) - Z.pos m)
       <= 2 ^ (fexp 24 128 (Z.pos (digits2_pos m) + e) - e)) /\
    rounded s q (fexp 24 128 (Z.pos (digits2_pos m) + e))
      (binary_round_aux 24 128 s (Z.pos m) e l).
Proof.
  intros HE Hov. set (E := fexp 24 128 (Z.pos (digits2_pos m) + e)) in *.
  pose proof (digits2_pos_bounds m) as [Hlo Hhi].
  set (d := Z.pos (digits2_pos m)) in *.
  assert (E = Z.max (d + e - 24) (-149)) as HEq by (subst E; apply fexp_eq).
  assert (0 < 2 ^ (E - e)) as Hp by (apply Z.pow_pos_nonneg; lia).
  assert (Z.pos m / 2 ^ (E - e) < 16777216) as Hq1.
  { apply Z.div_lt_upper_bound; [lia|].
    assert (2 ^ d <= 2 ^ (E - e) * 2 ^ 24)
      by (rewrite <- Z.pow_add_r by lia; apply Z.pow_le_mono_r; lia).
    change (2 ^ 24) with 16777216 in *. lia. }
  assert (-149 < E -> 8388608 <= Z.pos m / 2 ^ (E - e)) as Hq2.
  { intros Hn. apply Z.div_le_lower_bound; [lia|].
    assert (E - e = d - 24) as -> by lia.
    assert (2 ^ (d - 24) * 2 ^ 23 = 2 ^ (d - 1))
      by (rewrite <- Z.pow_add_r by lia; f_equal; lia).
    change (2 ^ 23) with 8388608 in *. lia. }
  assert (0 <= Z.pos m / 2 ^ (E - e)) as Hq0 by (apply Z.div_pos; lia).
  unfold binary_round_aux, shr_fexp at 1. cbn [Zdigits2]. fold d. fold E.
  unfold shr.
  destruct (E - e) as [|p|p] eqn:En; try lia.
  - rewrite shr_record_of_loc_m, loc_of_shr_record_of_loc.
    pose proof (round_nearest_even_bounds (Z.pos m) l) as Hr.
    change (2 ^ 0) with 1 in *. rewrite Z.div_1_r in *.
    exists (round_nearest_even (Z.pos m) l).
    split; [exact Hr|]. split; [intros ->; cbn [round_nearest_even]; lia|].
    replace e with E by lia.
    apply second_stage_rounded;
      [lia | lia | intros Hn; specialize (Hq2 Hn); lia | intros Ho; specialize (Hov Ho); lia].
  - pose proof (iter_shr_spec p (shr_record_of_loc (Z.pos m) l)) as Em.
    rewrite shr_record_of_loc_m in Em. specialize (Em ltac:(lia)).
    set (r' := SpecFloat.iter_pos shr_1 p (shr_record_of_loc (Z.pos m) l)) in *.
    pose proof (round_nearest_even_bounds (shr_m r') (loc_of_shr_record r')) as Hr.
    exists (round_nearest_even (shr_m r') (loc_of_shr_record r')).
    split; [rewrite <- Em; exact Hr|]. split.
    + intros ->.
      assert (located r' (Z.pos m) (1 * 2 ^ Z.pos p)) as Hloc.
      { apply iter_shr_located; [lia | lia|].
        split; [cbn [shr_record_of_loc shr_m]; rewrite Z.div_1_r; reflexivity|].
        cbn [shr_record_of_loc shr_r shr_s]. apply Z.mod_1_r. }
      rewrite Z.mul_1_l in Hloc.
      apply round_nearest_even_located; [lia | lia | exact Hloc].
    + replace (e + Z.pos p) with E by lia.
      apply second_stage_rounded;
        [lia | lia | intros Hn; specialize (Hq2 Hn); lia | intros Ho; specialize (Hov Ho); lia].
Qed.


(** ** Rational values *)

Lemma pow2_pos e : (0 < pow2 e)%Q.
Proof. apply Qpower_0_lt. reflexivity. Qed.

Lemma pow2_add a b : (pow2 (a + b) == pow2 a * pow2 b)%Q.
Proof. apply Qpower_plus. intros H. discriminate H. Qed.

Lemma pow2_Z n : 0 <= n -> (pow2 n == inject_Z (2 ^ n))%Q.
Proof. intros H. symmetry. apply (Zpower_Qpower 2 n H). Qed.

Lemma pow2_le a b : a <= b -> (pow2 a <= pow2 b)%Q.
Proof. intros H. apply Qpower_le_compat_l; [exact H | discriminate]. Qed.

Lemma pow2_lt a b : a < b -> (pow2 a < pow2 b)%Q.
Proof. intros H. apply Qpower_lt_compat_l; [exact H | reflexivity]. Qed.

Lemma pow2_lt_inv a b : (pow2 a < pow2 b)%Q -> a < b.
Proof. intros H. apply (Qpower_lt_compat_l_inv 2); [exact H | reflexivity]. Qed.

Lemma pow2_le_inv a b : (pow2 a <= pow2 b)%Q -> a <= b.
Proof. intros H. apply (Qpower_le_compat_l_inv 2); [exact H | reflexivity]. Qed.

Lemma pow2_unit_roundoff : (pow2 (-24) == unit_roundoff)%Q.
Proof. reflexivity. Qed.

Lemma pow2_least_positive : (pow2 (-149) == least_positive)%Q.
Proof. reflexivity. Qed.

Lemma pow2_shift (z : Z) a b :
  0 <= a - b -> (inject_Z (z * 2 ^ (a - b)) * pow2 b == inject_Z z * pow2 a)%Q.
Proof.
  intros H. rewrite inject_Z_mult, <- (pow2_Z (a - b) H).
  replace a with ((a - b) + b) at 2 by lia. rewrite pow2_add. ring.
Qed.

Lemma scaled_le a b e f :
  f <= e -> (inject_Z a * pow2 e <= inject_Z b * pow2 f)%Q <-> a * 2 ^ (e - f) <= b.
Proof.
  intros H. rewrite <- (pow2_shift a e f) by lia.
  pose proof (pow2_pos f) as Hp. rewrite Zle_Qle.
  split; intros; nra.
Qed.

Lemma scaled_lt a b e f :
  f <= e -> (inject_Z a * pow2 e < inject_Z b * pow2 f)%Q <-> a * 2 ^ (e - f) < b.
Proof.
  intros H. rewrite <- (pow2_shift a e f) by lia.
  pose proof (pow2_pos f) as Hp. rewrite Zlt_Qlt.
  split; intros; nra.
Qed.

Lemma scaled_le' a b e f :
  e <= f -> (inject_Z a * pow2 e <= inject_Z b * pow2 f)%Q <-> a <= b * 2 ^ (f - e).
Proof.
  intros H. rewrite <- (pow2_shift b f e) by lia.
  pose proof (pow2_pos e) as Hp. rewrite Zle_Qle.
  split; intros; nra.
Qed.

Lemma scaled_lt' a b e f :
  e <= f -> (inject_Z a * pow2 e < inject_Z b * pow2 f)%Q <-> a < b * 2 ^ (f - e).
Proof.
  intros H. rewrite <- (pow2_shift b f e) by lia.
  pose proof (pow2_pos e) as Hp. rewrite Zlt_Qlt.
  split; intros; nra.
Qed.

Lemma inject_Z_pos m : (0 < inject_Z (Z.pos m))%Q.
Proof. change 0%Q with (inject_Z 0). rewrite <- Zlt_Qlt. lia. Qed.

Lemma magnitude_nonneg x : (0 <= magnitude x)%Q.
Proof.
  destruct x as [| | |s m e]; cbn [magnitude]; try lra.
  pose proof (pow2_pos e). pose proof (inject_Z_pos m).
  nra.
Qed.

Lemma magnitude_finite_pos s m e : (0 < magnitude (S754_finite s m e))%Q.
Proof.
  cbn [magnitude].
  pose proof (pow2_pos e). pose proof (inject_Z_pos m).
  nra.
Qed.

Lemma rounded_magnitude s q E x :
  rounded s q E x ->
  (magnitude x == inject_Z q * pow2 E)%Q /\ finite_signed s x.
Proof.
  intros [[-> ->] | (m & e & -> & Hb & HE & ->)].
  - split; [cbn [magnitude]; ring | split; [reflexivity | exact I]].
  - split; [|split; [exact Hb | reflexivity]].
    cbn [magnitude]. symmetry. apply pow2_shift. lia.
Qed.

(** ** The error of one rounding *)

(** bounds of the mantissa *)
Lemma mantissa_pow2 m :
  (pow2 (Z.pos (digits2_pos m) - 1) <= inject_Z (Z.pos m))%Q /\
  (inject_Z (Z.pos m) < pow2 (Z.pos (digits2_pos m)))%Q.
Proof.
  pose proof (digits2_pos_bounds m) as [Hlo Hhi].
  rewrite !pow2_Z by lia. rewrite <- Zle_Qle, <- Zlt_Qlt. split; assumption.
Qed.

(** a value below 3 * 2^126 is rounded without overflow *)
Lemma no_overflow m e :
  (inject_Z (Z.pos m) * pow2 e < 3 * pow2 126)%Q ->
  e <= fexp 24 128 (Z.pos (digits2_pos m) + e) ->
  fexp 24 128 (Z.pos (digits2_pos m) + e) <= 104 /\
  (fexp 24 128 (Z.pos (digits2_pos m) + e) = 104 ->
   Z.pos m / 2 ^ (fexp 24 128 (Z.pos (digits2_pos m) + e) - e) + 1 < 16777216).
Proof.
  intros H He. destruct (mantissa_pow2 m) as [Hlo _].
  pose proof (pow2_pos e) as Hp.
  assert (pow2 (Z.pos (digits2_pos m) - 1 + e) < pow2 128)%Q as Hlt.
  { rewrite pow2_add.
    assert (3 * pow2 126 < pow2 128)%Q by reflexivity. nra. }
  apply pow2_lt_inv in Hlt. rewrite fexp_eq in *. split; [lia|].
  intros E104. rewrite E104.
  change (3 * pow2 126)%Q with (inject_Z 3 * pow2 126)%Q in H.
  apply (scaled_lt' (Z.pos m) 3 e 126) in H; [|lia].
  assert (0 < 2 ^ (104 - e)) by (apply Z.pow_pos_nonneg; lia).
  assert (2 ^ (126 - e) = 4194304 * 2 ^ (104 - e)) as Epow.
  { replace (126 - e) with (22 + (104 - e)) by lia. rewrite Z.pow_add_r by lia. reflexivity. }
  assert (Z.pos m / 2 ^ (104 - e) < 12582912); [|lia].
  apply Z.div_lt_upper_bound; lia.
Qed.

(** the error of one rounding to nearest: half a unit in the last place *)
Lemma binary_round_aux_error s m e :
  e <= fexp 24 128 (Z.pos (digits2_pos m) + e) ->
  (inject_Z (Z.pos m) * pow2 e < 3 * pow2 126)%Q ->
  let v := (inject_Z (Z.pos m) * pow2 e)%Q in
  let r := binary_round_aux 24 128 s (Z.pos m) e loc_Exact in
  finite_signed s r /\
  (magnitude r - v <= (if e <? -149 then v * unit_roundoff + least_positive * (1 # 2) else v * unit_roundoff))%Q /\
  (v - magnitude r <= (if e <? -149 then v * unit_roundoff + least_positive * (1 # 2) else v * unit_roundoff))%Q.
Proof.
  intros HE Hno v r.
  destruct (no_overflow m e Hno HE) as [HE' Hov].
  destruct (binary_round_aux_rounded s m e loc_Exact (conj HE HE') Hov) as (q & Hq & Hex & Hr).
  specialize (Hex eq_refl).
  fold r in Hr. apply rounded_magnitude in Hr as [Hm Hg].
  split; [exact Hg|].
  set (E := fexp 24 128 (Z.pos (digits2_pos m) + e)) in *.
  set (d := Z.pos (digits2_pos m)) in *.
  assert (E = Z.max (d + e - 24) (-149)) as HEq by (subst E; apply fexp_eq).
  assert (0 < 2 ^ (E - e)) as Hp by (apply Z.pow_pos_nonneg; lia).
  (* value of the grid step *)
  assert (pow2 E == pow2 (E - e) * pow2 e)%Q as HpE
    by (rewrite <- pow2_add; replace (E - e + e) with E by lia; reflexivity).
  pose proof (pow2_Z (E - e) ltac:(lia)) as HpZ.
  pose proof (pow2_pos e) as Hpe. pose proof (pow2_pos E) as HpE0.
  (* twice the error is at most one step *)
  assert (- pow2 E <= 2 * (magnitude r - v) <= pow2 E)%Q as Herr.
  { rewrite Hm. subst v.
    assert (- inject_Z (2 ^ (E - e))
            <= 2 * (inject_Z q * inject_Z (2 ^ (E - e)) - inject_Z (Z.pos m))
            <= inject_Z (2 ^ (E - e)))%Q as Hz.
    { change 2%Q with (inject_Z 2).
      unfold Qminus. rewrite <- inject_Z_mult, <- !inject_Z_opp, <- inject_Z_plus, <- inject_Z_mult.
      rewrite <- !Zle_Qle. lia. }
    rewrite HpE, HpZ. clear - Hz Hpe.
    set (P := pow2 e) in *. set (A := inject_Z (2 ^ (E - e))) in *.
    set (B := inject_Z q) in *. set (C := inject_Z (Z.pos m)) in *. clearbody P A B C.
    split; nra. }
  assert (0 <= v * unit_roundoff)%Q as Hve.
  { subst v. unfold unit_roundoff. pose proof (magnitude_nonneg (S754_finite s m e)) as Hn.
    cbn [magnitude] in Hn. nra. }
  destruct (Z.eq_dec E (-149)) as [E149|E149].
  - destruct (Z.ltb_spec e (-149)) as [Hlt|Hge].
    + assert (pow2 E == least_positive)%Q as Ht by (rewrite E149; apply pow2_least_positive).
      split; lra.
    + assert (E - e = 0) as En by lia. rewrite En in Hex. change (2 ^ 0) with 1 in Hex.
      assert (q = Z.pos m) as Hqm by lia.
      assert (magnitude r == v)%Q as Hv.
      { rewrite Hm, Hqm. subst v. replace E with e by lia. reflexivity. }
      split; lra.
  - assert (E = d + e - 24) as HEn by lia.
    assert (pow2 E <= 2 * (v * unit_roundoff))%Q as Hstep.
    { subst v. destruct (mantissa_pow2 m) as [Hml _]. fold d in Hml.
      assert (pow2 E == 2 * (pow2 (d - 1) * pow2 e * unit_roundoff))%Q as ->.
      { rewrite <- pow2_unit_roundoff. change 2%Q with (pow2 1). rewrite <- !pow2_add.
        replace (1 + (d - 1 + e + -24)) with E by lia. reflexivity. }
      unfold unit_roundoff. nra. }
    assert (0 <= least_positive)%Q by (unfold least_positive; lra).
    destruct (e <? -149); split; lra.
Qed.

(** the same for [binary_round], which first aligns the mantissa; a
    mantissa of at most 24 bits is kept as it is *)
Lemma binary_round_error s m e :
  (inject_Z (Z.pos m) * pow2 e < 3 * pow2 126)%Q ->
  let v := (inject_Z (Z.pos m) * pow2 e)%Q in
  let r := binary_round 24 128 s m e in
  finite_signed s r /\
  (magnitude r - v <= (if e <? -149 then v * unit_roundoff + least_positive * (1 # 2) else v * unit_roundoff))%Q /\
  (v - magnitude r <= (if e <? -149 then v * unit_roundoff + least_positive * (1 # 2) else v * unit_roundoff))%Q /\
  (Z.pos m < 16777216 -> -149 <= e -> (magnitude r == v)%Q).
Proof.
  intros Hno v r. subst r. unfold binary_round, shl_align.
  set (F := fexp 24 128 (Z.pos (digits2_pos m) + e)) in *.
  assert (F = Z.max (Z.pos (digits2_pos m) + e - 24) (-149)) as HFq by (subst F; apply fexp_eq).
  assert (0 <= v * unit_roundoff)%Q as Hve.
  { subst v. unfold unit_roundoff. pose proof (magnitude_nonneg (S754_finite s m e)) as Hn.
    cbn [magnitude] in Hn. nra. }
  assert (0 <= least_positive)%Q as Ht by (unfold least_positive; lra).
  destruct (F - e) as [|k|k] eqn:En.
  - destruct (binary_round_aux_error s m e) as (Hg & H1 & H2); [fold F; lia | exact Hno |].
    split; [exact Hg|]. split; [exact H1|]. split; [exact H2|].
    intros Hm He.
    destruct (no_overflow m e Hno) as [HF _]; [fold F; lia|]. fold F in HF.
    rewrite binary_round_aux_canonical.
    + reflexivity.
    + unfold bounded, canonical_mantissa. fold F.
      apply andb_true_intro. split; [apply Z.eqb_eq | apply Z.leb_le]; lia.
  - destruct (binary_round_aux_error s m e) as (Hg & H1 & H2); [fold F; lia | exact Hno |].
    split; [exact Hg|]. split; [exact H1|]. split; [exact H2|].
    intros Hm He. exfalso.
    assert (Z.pos (digits2_pos m) <= 24)
      by (apply digits2_pos_le; [lia | change (2 ^ 24) with 16777216; lia]).
    lia.
  - assert (F <= 104) as HF.
    { destruct (mantissa_pow2 m) as [Hlo _]. pose proof (pow2_pos e) as Hp.
      assert (pow2 (Z.pos (digits2_pos m) - 1 + e) < pow2 128)%Q as Hlt.
      { rewrite pow2_add. assert (3 * pow2 126 < pow2 128)%Q by reflexivity. nra. }
      apply pow2_lt_inv in Hlt. lia. }
    assert (bounded 24 128 (Pos.iter xO m k) F = true) as Hb.
    { unfold bounded, canonical_mantissa. rewrite digits2_pos_iter_xO.
      replace (Z.pos (digits2_pos m) + Z.pos k + F) with (Z.pos (digits2_pos m) + e) by lia.
      fold F. apply andb_true_intro. split; [apply Z.eqb_eq | apply Z.leb_le]; lia. }
    rewrite (binary_round_aux_canonical s _ _ Hb).
    assert (magnitude (S754_finite s (Pos.iter xO m k) F) == v)%Q as Hv.
    { cbn [magnitude]. rewrite pos_iter_xO. subst v.
      replace (Z.pos k) with (e - F) by lia. apply pow2_shift. lia. }
    split; [split; [exact Hb | reflexivity]|].
    destruct (e <? -149); repeat split; intros; lra.
Qed.

(** ** Products *)

Lemma digits2_pos_mul mx my :
  Z.pos (digits2_pos mx) + Z.pos (digits2_pos my) - 1 <= Z.pos (digits2_pos (mx * my)).
Proof.
  pose proof (digits2_pos_bounds mx) as [Hx _].
  pose proof (digits2_pos_bounds my) as [Hy _].
  replace (Z.pos (digits2_pos mx) + Z.pos (digits2_pos my) - 1)
    with ((Z.pos (digits2_pos mx) - 1 + (Z.pos (digits2_pos my) - 1)) + 1) by lia.
  apply digits2_pos_ge; [lia|].
  rewrite Z.pow_add_r by lia. rewrite Pos2Z.inj_mul.
  assert (0 < 2 ^ (Z.pos (digits2_pos mx) - 1)) by (apply Z.pow_pos_nonneg; lia).
  assert (0 < 2 ^ (Z.pos (digits2_pos my) - 1)) by (apply Z.pow_pos_nonneg; lia).
  nia.
Qed.

Lemma mul_error sx sy x y :
  finite_signed sx x -> finite_signed sy y ->
  (magnitude x * magnitude y < 3 * pow2 126)%Q ->
  finite_signed (xorb sx sy) (F32.mul x y) /\
  (magnitude (F32.mul x y) - magnitude x * magnitude y
     <= magnitude x * magnitude y * unit_roundoff + least_positive * (1 # 2))%Q /\
  (magnitude x * magnitude y - magnitude (F32.mul x y)
     <= magnitude x * magnitude y * unit_roundoff + least_positive * (1 # 2))%Q.
Proof.
  intros [Hvx Hsx] [Hvy Hsy] Hlt.
  assert (0 <= least_positive)%Q as Ht by (unfold least_positive; lra).
  destruct x as [sx'|sx'| |sx' mx ex]; try contradiction;
    destruct y as [sy'|sy'| |sy' my ey]; try contradiction;
    try (split; [split; [reflexivity | exact I] | cbn [F32.mul SFmul magnitude]; split; lra]).
  cbn [signed] in Hsx, Hsy. subst sx' sy'. cbn [valid_binary] in Hvx, Hvy.
  unfold F32.mul, F32.prec, F32.emax, SFmul.
  pose proof (bounded_cases mx ex Hvx) as [_ Hcx].
  pose proof (bounded_cases my ey Hvy) as [_ Hcy].
  pose proof (digits2_pos_mul mx my) as Hd.
  assert (magnitude (S754_finite sx mx ex) * magnitude (S754_finite sy my ey) ==
          inject_Z (Z.pos (mx * my)) * pow2 (ex + ey))%Q as Hv.
  { cbn [magnitude]. rewrite Pos2Z.inj_mul, inject_Z_mult, pow2_add. ring. }
  rewrite Hv in Hlt |- *.
  destruct (binary_round_aux_error (xorb sx sy) (mx * my) (ex + ey)) as (Hg & H1 & H2);
    [|exact Hlt|].
  { rewrite fexp_eq.
    assert (1 <= Z.pos (digits2_pos mx)) by lia.
    assert (1 <= Z.pos (digits2_pos my)) by lia.
    lia. }
  split; [exact Hg|].
  assert (0 <= inject_Z (Z.pos (mx * my)) * pow2 (ex + ey) * unit_roundoff)%Q as Hve.
  { pose proof (magnitude_nonneg (S754_finite false (mx * my) (ex + ey))) as Hn.
    cbn [magnitude] in Hn. unfold unit_roundoff. nra. }
  destruct (ex + ey <? -149); split; lra.
Qed.

(** ** Sums *)

Lemma add_error s x y :
  finite_signed s x -> finite_signed s y ->
  (magnitude x + magnitude y < 3 * pow2 126)%Q ->
  finite_signed s (F32.add x y) /\
  (magnitude (F32.add x y) - (magnitude x + magnitude y)
     <= (magnitude x + magnitude y) * unit_roundoff)%Q /\
  ((magnitude x + magnitude y) - magnitude (F32.add x y)
     <= (magnitude x + magnitude y) * unit_roundoff)%Q.
Proof.
  intros [Hvx Hsx] [Hvy Hsy] Hlt.
  pose proof (magnitude_nonneg x) as Hnx. pose proof (magnitude_nonneg y) as Hny.
  destruct x as [sx'|sx'| |sx' mx ex]; try contradiction;
    destruct y as [sy'|sy'| |sy' my ey]; try contradiction.
  - split; [|cbn [magnitude]; unfold unit_roundoff; split; destruct sx', sy'; cbn; lra].
    destruct sx', sy'; split; first [reflexivity | exact I].
  - split; [split; assumption|]. cbn [F32.add SFadd]. cbn [magnitude] in *.
    unfold F32.add, SFadd. cbn [magnitude]. unfold unit_roundoff. split; nra.
  - split; [split; assumption|].
    unfold F32.add, SFadd. cbn [magnitude] in *. unfold unit_roundoff. split; nra.
  - cbn [signed] in Hsx, Hsy. subst sx' sy'. cbn [valid_binary] in Hvx, Hvy.
    pose proof (bounded_cases mx ex Hvx) as [_ Hcx].
    pose proof (bounded_cases my ey Hvy) as [_ Hcy].
    unfold F32.add, F32.prec, F32.emax, SFadd. cbv zeta.
    set (ez := Z.min ex ey).
    pose proof (shl_align_fst mx ex ez ltac:(subst ez; lia)) as Ex.
    pose proof (shl_align_fst my ey ez ltac:(subst ez; lia)) as Ey.
    set (ax := fst (shl_align mx ex ez)) in *.
    set (ay := fst (shl_align my ey ez)) in *.
    assert (cond_Zopp s (Z.pos ax) + cond_Zopp s (Z.pos ay) = cond_Zopp s (Z.pos (ax + ay)))
      as -> by (destruct s; cbn [cond_Zopp]; lia).
    assert (binary_normalize 24 128 (cond_Zopp s (Z.pos (ax + ay))) ez false =
            binary_round 24 128 s (ax + ay) ez) as -> by (destruct s; reflexivity).
    assert (magnitude (S754_finite s mx ex) + magnitude (S754_finite s my ey) ==
            inject_Z (Z.pos (ax + ay)) * pow2 ez)%Q as Hv.
    { cbn [magnitude]. rewrite Pos2Z.inj_add, inject_Z_plus, Ex, Ey.
      rewrite Qmult_plus_distr_l.
      rewrite (pow2_shift (Z.pos mx) ex ez) by (subst ez; lia).
      rewrite (pow2_shift (Z.pos my) ey ez) by (subst ez; lia). reflexivity. }
    rewrite Hv in Hlt |- *.
    destruct (binary_round_error s (ax + ay) ez Hlt) as (Hg & H1 & H2 & _).
    split; [exact Hg|].
    destruct (Z.ltb_spec ez (-149)); [subst ez; lia|].
    split; assumption.
Qed.

(** ** Differences *)

Lemma sub_error x y :
  finite_signed false x -> finite_signed false y ->
  (magnitude y <= magnitude x)%Q ->
  (magnitude x < 3 * pow2 126)%Q ->
  finite_signed false (F32.sub x y) /\
  (magnitude (F32.sub x y) - (magnitude x - magnitude y)
     <= (magnitude x - magnitude y) * unit_roundoff)%Q /\
  ((magnitude x - magnitude y) - magnitude (F32.sub x y)
     <= (magnitude x - magnitude y) * unit_roundoff)%Q.
Proof.
  intros [Hvx Hsx] [Hvy Hsy] Hle Hlt.
  pose proof (magnitude_nonneg x) as Hnx. pose proof (magnitude_nonneg y) as Hny.
  destruct x as [sx'|sx'| |sx' mx ex]; try contradiction;
    destruct y as [sy'|sy'| |sy' my ey]; try contradiction.
  - split; [|cbn [magnitude]; unfold unit_roundoff; split; destruct sx', sy'; cbn; lra].
    destruct sx', sy'; split; first [reflexivity | exact I].
  - exfalso. pose proof (magnitude_finite_pos sy' my ey). cbn [magnitude] in *. lra.
  - split; [split; assumption|].
    unfold F32.sub, SFsub. cbn [magnitude] in *. unfold unit_roundoff. split; nra.
  - cbn [signed] in Hsx, Hsy. subst sx' sy'. cbn [valid_binary] in Hvx, Hvy.
    pose proof (bounded_cases mx ex Hvx) as [_ Hcx].
    pose proof (bounded_cases my ey Hvy) as [_ Hcy].
    unfold F32.sub, F32.prec, F32.emax, SFsub. cbv zeta.
    set (ez := Z.min ex ey).
    pose proof (shl_align_fst mx ex ez ltac:(subst ez; lia)) as Ex.
    pose proof (shl_align_fst my ey ez ltac:(subst ez; lia)) as Ey.
    set (ax := fst (shl_align mx ex ez)) in *.
    set (ay := fst (shl_align my ey ez)) in *.
    cbn [cond_Zopp].
    assert (magnitude (S754_finite false mx ex) == inject_Z (Z.pos ax) * pow2 ez)%Q as Hx
      by (cbn [magnitude]; rewrite Ex; symmetry; apply pow2_shift; subst ez; lia).
    assert (magnitude (S754_finite false my ey) == inject_Z (Z.pos ay) * pow2 ez)%Q as Hy
      by (cbn [magnitude]; rewrite Ey; symmetry; apply pow2_shift; subst ez; lia).
    rewrite Hx, Hy in *.
    assert (Z.pos ay <= Z.pos ax) as Hd.
    { apply (scaled_le (Z.pos ay) (Z.pos ax) ez ez) in Hle; [|lia].
      rewrite Z.sub_diag in Hle. lia. }
    destruct (Z.pos ax - Z.pos ay) as [|p|p] eqn:Ed; try lia.
    + cbn [binary_normalize magnitude].
      assert (inject_Z (Z.pos ax) = inject_Z (Z.pos ay)) as -> by (f_equal; lia).
      split; [split; [reflexivity | exact I]|]. split; lra.
    + cbn [binary_normalize].
      assert (inject_Z (Z.pos ax) * pow2 ez - inject_Z (Z.pos ay) * pow2 ez ==
              inject_Z (Z.pos p) * pow2 ez)%Q as Hv.
      { rewrite <- Ed. unfold Z.sub. rewrite inject_Z_plus, inject_Z_opp. ring. }
      rewrite Hv.
      assert (inject_Z (Z.pos p) * pow2 ez < 3 * pow2 126)%Q as Hlt'.
      { pose proof (magnitude_nonneg (S754_finite false ay ez)) as Hn.
        cbn [magnitude] in Hn. lra. }
      destruct (binary_round_error false p ez Hlt') as (Hg & H1 & H2 & _).
      split; [exact Hg|].
      destruct (Z.ltb_spec ez (-149)); [subst ez; lia|].
      split; assumption.
Qed.

(** a value in [1, 2) *)
Lemma unit_binade r :
  finite_signed false r -> (1 <= magnitude r)%Q -> (magnitude r < 2)%Q ->
  exists m, r = S754_finite false m (-23) /\ 8388608 <= Z.pos m < 16777216.
Proof.
  intros [Hv Hs] H1 H2.
  destruct r as [s|s| |s m e]; cbn [signed magnitude] in *; try contradiction; try lra.
  subst s. cbn [valid_binary] in Hv.
  pose proof (bounded_cases m e Hv) as [_ Hc].
  change 1%Q with (inject_Z 1 * pow2 0)%Q in H1.
  change 2%Q with (inject_Z 2 * pow2 0)%Q in H2.
  destruct (Z.le_gt_cases e 0) as [He|He].
  - apply (scaled_lt' (Z.pos m) 2 e 0 He) in H2.
    assert (e <= 0) as He' by lia.
    assert (1 * 2 ^ (0 - e) <= Z.pos m) as Hl
      by (apply (scaled_le 1 (Z.pos m) 0 e He'); exact H1).
    destruct Hc as [[Hm E149]|[Hm [E149 Hd]]].
    + subst e.
      change (2 ^ (0 - -149)) with 713623846352979940529142984724747568191373312 in Hl. lia.
    + assert (e = -23) as ->.
      { destruct (Z.lt_trichotomy e (-23)) as [Hlt|[Heq|Hgt]]; [|assumption|]; exfalso.
        - assert (2 ^ 24 <= 2 ^ (0 - e)) by (apply Z.pow_le_mono_r; lia).
          change (2 ^ 24) with 16777216 in *. lia.
        - assert (2 ^ (0 - e) <= 2 ^ 22) by (apply Z.pow_le_mono_r; lia).
          change (2 ^ 22) with 4194304 in *. lia. }
      exists m. split; [reflexivity | lia].
  - exfalso. apply (scaled_lt (Z.pos m) 2 e 0) in H2; [|lia].
    assert (2 ^ 1 <= 2 ^ (e - 0)) by (apply Z.pow_le_mono_r; lia).
    change (2 ^ 1) with 2 in *. nia.
Qed.

(** the fractional part of a value in [1, 2) is exact *)
Lemma sub_one_exact m :
  8388608 <= Z.pos m < 16777216 ->
  finite_signed false (F32.sub (S754_finite false m (-23)) F32.one) /\
  (magnitude (F32.sub (S754_finite false m (-23)) F32.one) ==
   magnitude (S754_finite false m (-23)) - 1)%Q.
Proof.
  intros Hm. unfold F32.sub, F32.one, F32.prec, F32.emax, SFsub. cbv zeta.
  change (Z.min (-23) (-23)) with (-23).
  unfold shl_align. rewrite Z.sub_diag. cbn [fst cond_Zopp].
  assert (1 == inject_Z 8388608 * pow2 (-23))%Q as H1 by reflexivity.
  destruct (Z.pos m - 8388608) as [|p|p] eqn:Ed; try lia.
  - cbn [binary_normalize magnitude].
    split; [split; [reflexivity | exact I]|].
    assert (Z.pos m = 8388608) as -> by lia. rewrite <- H1. ring.
  - cbn [binary_normalize].
    destruct (binary_round_error false p (-23)) as (Hg & _ & _ & Hex).
    { assert (inject_Z (Z.pos p) < inject_Z 16777216)%Q by (rewrite <- Zlt_Qlt; lia).
      change (inject_Z 16777216) with (16777216 # 1)%Q in *.
      change (pow2 (-23)) with (1 # 8388608)%Q. change (pow2 126) with (2 ^ 126)%Q.
      assert (2 < 3 * 2 ^ 126)%Q by reflexivity. lra. }
    split; [exact Hg|]. rewrite Hex by lia. cbn [magnitude].
    assert (inject_Z (Z.pos p) == inject_Z (Z.pos m) - inject_Z 8388608)%Q as ->.
    { rewrite <- Ed. unfold Z.sub. rewrite inject_Z_plus, inject_Z_opp. ring. }
    generalize dependent (pow2 (-23)). intros P HP. nra.
Qed.

(** ** Quotients of two normal values *)

Lemma div_error mx ex my ey :
  Z.pos (digits2_pos mx) = 24 -> Z.pos (digits2_pos my) = 24 ->
  -125 <= ex - ey <= 126 ->
  finite_signed false (F32.div (S754_finite false mx ex) (S754_finite false my ey)) /\
  forall v : Q,
    (v * (inject_Z (Z.pos my) * pow2 ey) == inject_Z (Z.pos mx) * pow2 ex)%Q ->
    (magnitude (F32.div (S754_finite false mx ex) (S754_finite false my ey)) - v
       <= v * (4 * unit_roundoff))%Q /\
    (v - magnitude (F32.div (S754_finite false mx ex) (S754_finite false my ey))
       <= v * (4 * unit_roundoff))%Q /\
    ((v < 2 - 2 * unit_roundoff)%Q ->
     (magnitude (F32.div (S754_finite false mx ex) (S754_finite false my ey))
        <= 2 - 2 * unit_roundoff)%Q).
Proof.
  intros Hdx Hdy He.
  pose proof (digits2_pos_bounds mx) as [Hxl Hxh]. rewrite Hdx in Hxl, Hxh.
  pose proof (digits2_pos_bounds my) as [Hyl Hyh]. rewrite Hdy in Hyl, Hyh.
  change (2 ^ (24 - 1)) with 8388608 in *. change (2 ^ 24) with 16777216 in *.
  unfold F32.div, F32.prec, F32.emax, SFdiv. cbn [xorb].
  unfold SFdiv_core_binary. cbn [Zdigits2]. rewrite Hdx, Hdy.
  replace (Z.min (fexp 24 128 (24 + ex - (24 + ey))) (ex - ey)) with (ex - ey - 24)
    by (rewrite fexp_eq; lia).
  replace (ex - ey - (ex - ey - 24)) with 24 by lia.
  cbv beta iota zeta.
  rewrite Z.shiftl_mul_pow2 by lia. change (2 ^ 24) with 16777216.
  pose proof (Z_div_mod (Z.pos mx * 16777216) (Z.pos my) ltac:(lia)) as Hdm.
  destruct (Z.div_eucl (Z.pos mx * 16777216) (Z.pos my)) as [q r].
  destruct Hdm as [Hdm Hr].
  assert (8388608 <= q < 33554432) as Hq by nia.
  destruct q as [|qp|qp]; try lia.
  set (e' := ex - ey - 24) in *.
  set (l := new_location (Z.pos my) r).
  pose proof (digits2_pos_bounds qp) as [Hql Hqh].
  assert (24 <= Z.pos (digits2_pos qp) <= 25) as Hdq.
  { split.
    - apply (digits2_pos_ge qp 23); [lia | change (2 ^ 23) with 8388608; lia].
    - apply digits2_pos_le; [lia | change (2 ^ 25) with 33554432; lia]. }
  destruct (binary_round_aux_rounded false qp e' l) as (q2 & Hq2 & _ & Hrd).
  { rewrite fexp_eq. subst e'. lia. }
  { rewrite fexp_eq. subst e'. lia. }
  set (E := fexp 24 128 (Z.pos (digits2_pos qp) + e')) in *.
  assert (E = Z.pos (digits2_pos qp) + e' - 24) as HE by (subst E; rewrite fexp_eq; subst e'; lia).
  apply rounded_magnitude in Hrd as [Hm Hg].
  split; [exact Hg|]. intros v Hv.
  set (R := magnitude (binary_round_aux 24 128 false (Z.pos qp) e' l)) in *.
  (* the result in units of 2^e' *)
  assert (exists T, (R == inject_Z T * pow2 e')%Q /\ Z.pos qp - 1 <= T <= Z.pos qp + 2)
    as (T & HR & HT).
  { exists (q2 * 2 ^ (E - e')). split.
    - rewrite Hm. symmetry. apply pow2_shift. lia.
    - assert (E - e' = 0 \/ E - e' = 1) as [En | En] by lia; rewrite En in Hq2 |- *.
      + change (2 ^ 0) with 1 in *. rewrite Z.div_1_r in Hq2. lia.
      + change (2 ^ 1) with 2 in *.
        pose proof (Z.div_mod (Z.pos qp) 2 ltac:(lia)) as Hd2.
        pose proof (Z.mod_pos_bound (Z.pos qp) 2 ltac:(lia)) as Hm2.
        lia. }
  (* the quotient in units of 2^e' *)
  pose proof (pow2_pos e') as Hp. pose proof (pow2_pos ey) as Hpy.
  assert (pow2 ex == inject_Z 16777216 * pow2 e' * pow2 ey)%Q as Hex.
  { rewrite <- (pow2_Z 24) by lia. rewrite <- !pow2_add.
    replace (24 + e' + ey) with ex by (subst e'; lia). reflexivity. }
  assert (v * inject_Z (Z.pos my) == inject_Z (Z.pos mx * 16777216) * pow2 e')%Q as Hv'.
  { rewrite Hex in Hv. rewrite inject_Z_mult.
    apply (Qmult_inj_r _ _ (pow2 ey)); [lra|].
    apply (Qeq_trans _ (v * (inject_Z (Z.pos my) * pow2 ey))%Q); [ring|].
    apply (Qeq_trans _ _ _ Hv). ring. }
  assert (inject_Z (Z.pos qp) * inject_Z (Z.pos my) <= inject_Z (Z.pos mx * 16777216))%Q as Hlo
    by (rewrite <- inject_Z_mult, <- Zle_Qle; lia).
  assert (inject_Z (Z.pos mx * 16777216) < (inject_Z (Z.pos qp) + 1) * inject_Z (Z.pos my))%Q
    as Hhi.
  { change 1%Q with (inject_Z 1). rewrite <- inject_Z_plus, <- inject_Z_mult, <- Zlt_Qlt. lia. }
  pose proof (inject_Z_pos my) as Hmy.
  assert (inject_Z (Z.pos qp) * pow2 e' <= v)%Q as Hvl by nra.
  assert (v < (inject_Z (Z.pos qp) + 1) * pow2 e')%Q as Hvh by nra.
  assert (inject_Z 8388608 <= inject_Z (Z.pos qp))%Q as Hq23 by (rewrite <- Zle_Qle; lia).
  assert (inject_Z (Z.pos qp) - 1 <= inject_Z T <= inject_Z (Z.pos qp) + 2)%Q as HTq.
  { change 1%Q with (inject_Z 1). change 2%Q with (inject_Z 2).
    unfold Qminus. rewrite <- inject_Z_opp, <- !inject_Z_plus, <- !Zle_Qle. lia. }
  change (inject_Z 8388608) with (8388608 # 1)%Q in Hq23.
  split; [unfold unit_roundoff; rewrite HR; nra|].
  split; [unfold unit_roundoff; rewrite HR; nra|].
  intros Hv2.
  assert (2 - 2 * unit_roundoff == inject_Z 16777215 * pow2 (-23))%Q as Etop by reflexivity.
  rewrite Etop in Hv2 |- *.
  assert (E <= -23) as HE23.
  { assert (pow2 (Z.pos (digits2_pos qp) - 1 + e') < pow2 1)%Q as Hlt.
    { destruct (mantissa_pow2 qp) as [Hml _]. rewrite pow2_add.
      assert (inject_Z 16777215 * pow2 (-23) < pow2 1)%Q by reflexivity.
      assert (pow2 (Z.pos (digits2_pos qp) - 1) * pow2 e' <= inject_Z (Z.pos qp) * pow2 e')%Q
        by (apply Qmult_le_compat_r; [exact Hml | apply Qlt_le_weak; exact Hp]).
      eapply Qle_lt_trans; [eassumption|].
      eapply Qle_lt_trans; [exact Hvl|].
      eapply Qlt_trans; [exact Hv2 | assumption]. }
    apply pow2_lt_inv in Hlt. lia. }
  assert (inject_Z (Z.pos qp) * pow2 e' < inject_Z 16777215 * pow2 (-23))%Q as Hqv by lra.
  apply (scaled_lt' (Z.pos qp) 16777215 e' (-23)) in Hqv; [|lia].
  assert (0 < 2 ^ (E - e')) as Hpn by (apply Z.pow_pos_nonneg; lia).
  assert (0 < 2 ^ (-23 - E)) as Hpb by (apply Z.pow_pos_nonneg; lia).
  assert (2 ^ (-23 - e') = 2 ^ (-23 - E) * 2 ^ (E - e')) as Esplit
    by (rewrite <- Z.pow_add_r by lia; f_equal; lia).
  assert (Z.pos qp / 2 ^ (E - e') < 16777215 * 2 ^ (-23 - E)) as HQ0
    by (apply Z.div_lt_upper_bound; [lia | nia]).
  assert (q2 <= 16777215 * 2 ^ (-23 - E)) as Hq2b by lia.
  rewrite Hm, <- (pow2_shift 16777215 (-23) E) by lia.
  rewrite Zle_Qle in Hq2b.
  apply Qmult_le_compat_r; [exact Hq2b | apply Qlt_le_weak; apply pow2_pos].
Qed.

(** ** Source coordinates below 2 *)

Lemma to_int_floor_unit r :
  finite_signed false r -> (magnitude r < 2)%Q ->
  ((magnitude r < 1)%Q -> F32.to_int_floor r = 0) /\
  ((1 <= magnitude r)%Q -> F32.to_int_floor r = 1).
Proof.
  intros Hg H2. split; intros H1.
  - destruct Hg as [Hv Hs].
    destruct r as [s|s| |s m e]; cbn [signed] in Hs; try contradiction; [reflexivity|].
    subst s. cbn [magnitude] in H1.
    change 1%Q with (inject_Z 1 * pow2 0)%Q in H1.
    destruct (Z.lt_ge_cases e 0) as [He|He].
    + apply (scaled_lt' (Z.pos m) 1 e 0) in H1; [|lia].
      rewrite to_int_floor_finite; [| exact He |].
      * apply Z.div_small. replace (- e) with (0 - e) by lia. lia.
      * rewrite Z.div_small; [unfold Int32.max_signed; lia|].
        replace (- e) with (0 - e) by lia. lia.
    + exfalso. apply (scaled_lt (Z.pos m) 1 e 0) in H1; [|lia].
      assert (0 < 2 ^ (e - 0)) by (apply Z.pow_pos_nonneg; lia). nia.
  - destruct (unit_binade r Hg H1 H2) as (m & -> & Hm).
    rewrite to_int_floor_finite; [| lia |]; change (2 ^ (- -23)) with 8388608.
    + Z.div_mod_to_equations. lia.
    + unfold Int32.max_signed. Z.div_mod_to_equations. lia.
Qed.

Lemma of_int_magnitude x :
  0 <= x < 16777216 ->
  finite_signed false (F32.of_int x) /\ (magnitude (F32.of_int x) == inject_Z x)%Q.
Proof.
  intros Hx. destruct (Z.eq_dec x 0) as [->|Hne].
  - split; [split; [reflexivity | exact I] | reflexivity].
  - destruct (of_int_small x) as (m & e & -> & Hd & He & Hm); [lia|].
    split; [split; [apply bounded_normal; [exact Hd | lia] | reflexivity]|].
    cbn [magnitude]. rewrite Hm. replace (- e) with (0 - e) by lia.
    rewrite pow2_shift by lia. change (pow2 0) with 1%Q. ring.
Qed.

(** the default scale for a source of two columns or rows *)
Lemma default_scale_two w :
  0 < w < 16777216 ->
  exists m e,
    F32.of_int w = S754_finite false m e /\ Z.pos (digits2_pos m) = 24 /\
    -23 <= e <= 0 /\ Z.pos m = w * 2 ^ (- e) /\
    F32.div (F32.of_int w) (F32.of_int 2) = S754_finite false m (e - 1).
Proof.
  intros Hw. destruct (of_int_small w Hw) as (m & e & Eo & Hd & He & Hm).
  exists m, e. split; [exact Eo|]. split; [exact Hd|]. split; [exact He|].
  split; [exact Hm|]. rewrite Eo.
  change (F32.of_int 2) with (S754_finite false 8388608 (-22)).
  rewrite div_pow2_normal by (try assumption; lia). f_equal. lia.
Qed.

(** the source coordinate of column [x] under the default scale: below 2,
    and within two units in the last place of 2x/w *)
Lemma coordinate_default w x :
  0 < w < 16777216 -> 0 <= x < w ->
  let r := F32.div (F32.of_int x) (F32.div (F32.of_int w) (F32.of_int 2)) in
  finite_signed false r /\ (magnitude r < 2)%Q /\
  forall v : Q, (v * inject_Z w == 2 * inject_Z x)%Q ->
    (magnitude r - v <= v * (4 * unit_roundoff))%Q /\ (v - magnitude r <= v * (4 * unit_roundoff))%Q.
Proof.
  intros Hw Hx r. subst r.
  destruct (default_scale_two w) as (mw & ew & Ew & Hdw & Hew & Hmw & ->); [lia|].
  assert (0 < inject_Z w)%Q as Hwq by (change 0%Q with (inject_Z 0); rewrite <- Zlt_Qlt; lia).
  destruct (Z.eq_dec x 0) as [->|Hne].
  - change (F32.div (F32.of_int 0) (S754_finite false mw (ew - 1))) with (S754_zero false).
    split; [split; [reflexivity | exact I]|]. cbn [magnitude].
    split; [lra|]. intros v Hv. change (inject_Z 0) with 0%Q in Hv.
    assert (v == 0)%Q as -> by nra. unfold unit_roundoff. split; lra.
  - destruct (of_int_small x) as (mx & ex & -> & Hdx & Hex & Hmx); [lia|].
    destruct (div_error mx ex mw (ew - 1) Hdx Hdw) as [Hg Hb]; [lia|].
    split; [exact Hg|].
    assert (forall v : Q, (v * inject_Z w == 2 * inject_Z x)%Q ->
              (v * (inject_Z (Z.pos mw) * pow2 (ew - 1)) == inject_Z (Z.pos mx) * pow2 ex)%Q)
      as Hconv.
    { intros v Hv.
      assert (inject_Z (Z.pos mw) * pow2 (ew - 1) == inject_Z w * (1 # 2))%Q as ->.
      { rewrite Hmw. replace (- ew) with (0 - ew) by lia.
        replace (ew - 1) with (ew + -1) by lia. rewrite pow2_add.
        rewrite Qmult_assoc, pow2_shift by lia. change (pow2 0) with 1%Q.
        change (pow2 (-1)) with (1 # 2)%Q. ring. }
      assert (inject_Z (Z.pos mx) * pow2 ex == inject_Z x)%Q as ->.
      { rewrite Hmx. replace (- ex) with (0 - ex) by lia.
        rewrite pow2_shift by lia. change (pow2 0) with 1%Q. ring. }
      lra. }
    assert (0 < inject_Z x)%Q as Hxq
      by (change 0%Q with (inject_Z 0); rewrite <- Zlt_Qlt; lia).
    assert (inject_Z x + 1 <= inject_Z w)%Q as Hxw.
    { change 1%Q with (inject_Z 1). rewrite <- inject_Z_plus, <- Zle_Qle. lia. }
    assert (inject_Z w < 16777216)%Q as Hwb
      by (change 16777216%Q with (inject_Z 16777216); rewrite <- Zlt_Qlt; lia).
    split.
    + destruct (Hb (2 * inject_Z x / inject_Z w)%Q) as (_ & _ & Hu).
      { apply Hconv. field. lra. }
      set (v := (2 * inject_Z x / inject_Z w)%Q) in *.
      assert (v * inject_Z w == 2 * inject_Z x)%Q as Hv by (subst v; field; lra).
      clearbody v.
      assert (0 < v)%Q as Hv0 by nra.
      assert (v * inject_Z w <= 2 * inject_Z w - 2)%Q as Hvw by lra.
      unfold unit_roundoff in Hu.
      assert ((2 - v) * inject_Z w >= 2)%Q as Hgap by nra.
      assert (v < 2)%Q as Hv2 by nra.
      assert ((2 - v) * 16777216 > 2)%Q by nra.
      assert (magnitude (F32.div (S754_finite false mx ex) (S754_finite false mw (ew - 1)))
              <= 2 - 2 * (1 # 16777216))%Q by (apply Hu; lra).
      lra.
    + intros v Hv. destruct (Hb v (Hconv v Hv)) as (H1 & H2 & _). split; assumption.
Qed.

(** ** Integer and fractional part *)

Lemma finite_signed_one : finite_signed false F32.one.
Proof. split; reflexivity. Qed.

Lemma magnitude_one : (magnitude F32.one == 1)%Q.
Proof. reflexivity. Qed.

Lemma below_overflow (v : Q) : (v <= 4)%Q -> (v < 3 * pow2 126)%Q.
Proof.
  intros H. assert (4 < 3 * pow2 126)%Q by reflexivity. lra.
Qed.

(** the integer and fractional part of a source coordinate below 2, and
    the complement of the fractional part *)
Lemma fraction_parts r :
  finite_signed false r -> (magnitude r < 2)%Q ->
  let k := F32.to_int_floor r in
  let f := F32.sub r (F32.of_int k) in
  let c := F32.sub F32.one f in
  (k = 0 /\ (magnitude r < 1)%Q \/ k = 1 /\ (1 <= magnitude r)%Q) /\
  finite_signed false f /\ finite_signed false c /\
  (magnitude f == magnitude r - inject_Z k)%Q /\ (magnitude f < 1)%Q /\
  (magnitude c - (1 - magnitude f) <= (1 - magnitude f) * unit_roundoff)%Q /\
  ((1 - magnitude f) - magnitude c <= (1 - magnitude f) * unit_roundoff)%Q.
Proof.
  intros Hg H2 k f c.
  destruct (to_int_floor_unit r Hg H2) as [K0 K1].
  assert (finite_signed false f /\ (magnitude f == magnitude r - inject_Z k)%Q /\
          (k = 0 /\ (magnitude r < 1)%Q \/ k = 1 /\ (1 <= magnitude r)%Q)) as (Hgf & Hf & Hk).
  { destruct (Qlt_le_dec (magnitude r) 1) as [Hlt|Hge].
    - specialize (K0 Hlt). subst f k. rewrite K0.
      change (F32.of_int 0) with (S754_zero false). change (inject_Z 0) with 0%Q.
      split; [|split; [|left; split; [reflexivity | exact Hlt]]].
      + destruct Hg as [Hv Hs].
        destruct r as [[|]| | |s m e]; cbn [signed] in Hs; try contradiction;
          try (split; [reflexivity | exact I]).
        split; [exact Hv | exact Hs].
      + destruct Hg as [Hv Hs].
        destruct r as [[|]| | |s m e]; cbn [signed] in Hs; try contradiction;
          cbn [F32.sub SFsub magnitude]; unfold F32.sub, SFsub; cbn [magnitude]; ring.
    - specialize (K1 Hge). subst f k. rewrite K1.
      destruct (unit_binade r Hg Hge H2) as (m & -> & Hm).
      change (F32.of_int 1) with F32.one. change (inject_Z 1) with 1%Q.
      destruct (sub_one_exact m Hm) as [Hgf Hf].
      split; [exact Hgf|]. split; [exact Hf|]. right. split; [reflexivity | exact Hge]. }
  assert (magnitude f < 1)%Q as Hf1.
  { destruct Hk as [[-> Hr]|[-> Hr]]; [change (inject_Z 0) with 0%Q in Hf
                                     | change (inject_Z 1) with 1%Q in Hf]; lra. }
  destruct (sub_error F32.one f finite_signed_one Hgf) as (Hgc & Hc1 & Hc2).
  { rewrite magnitude_one. lra. }
  { apply below_overflow. rewrite magnitude_one. lra. }
  fold c in Hgc, Hc1, Hc2. rewrite magnitude_one in Hc1, Hc2.
  split; [exact Hk|]. split; [exact Hgf|]. split; [exact Hgc|].
  split; [exact Hf|]. split; [exact Hf1|]. split; assumption.
Qed.

(** ** The value of an edge cell *)


(** one or two corners of total weight at most 7/10 give less than the
    sample, in magnitude *)
Lemma attenuated_pair s u1 u2 m e :
  bounded 24 128 m e = true -> 4 <= Z.pos m ->
  finite_signed false u1 -> finite_signed false u2 ->
  (magnitude u1 + magnitude u2 <= 7 # 10)%Q ->
  let k := S754_finite s m e in
  let v := F32.add (F32.add F32.zero (F32.mul u1 k)) (F32.mul u2 k) in
  finite_signed s v /\ (magnitude v < magnitude k)%Q.
Proof.
  intros Hb Hm Hu1 Hu2 Hsum k v.
  assert (finite_signed s k) as Hk by (split; [exact Hb | reflexivity]).
  pose proof (magnitude_nonneg u1) as Hn1. pose proof (magnitude_nonneg u2) as Hn2.
  pose proof (magnitude_finite_pos s m e) as Hkp. fold k in Hkp.
  assert (magnitude k < pow2 128)%Q as Hk128.
  { subst k. cbn [magnitude]. pose proof (bounded_cases m e Hb) as [He Hc].
    change (pow2 128) with (inject_Z 1 * pow2 128)%Q.
    apply scaled_lt'; [lia|].
    assert (Z.pos m < 16777216) by lia.
    assert (2 ^ 24 <= 2 ^ (128 - e)) by (apply Z.pow_le_mono_r; lia).
    change (2 ^ 24) with 16777216 in *. lia. }
  assert (4 * least_positive <= magnitude k)%Q as Hk7.
  { subst k. cbn [magnitude]. pose proof (bounded_cases m e Hb) as [He Hc].
    rewrite <- pow2_least_positive. change 4%Q with (inject_Z 4).
    apply scaled_le'; [lia|].
    assert (0 < 2 ^ (e - -149)) by (apply Z.pow_pos_nonneg; lia). nia. }
  assert (pow2 128 == 4 * pow2 126)%Q as H128 by reflexivity.
  assert (0 < pow2 126)%Q as H126 by apply pow2_pos.
  assert (0 < least_positive)%Q as Ht by (unfold least_positive; reflexivity).
  assert (least_positive < 1 # 100)%Q as Ht1 by (unfold least_positive; reflexivity).
  assert (1 <= pow2 126)%Q as H126' by (change 1%Q with (pow2 0); apply pow2_le; lia).
  set (K := magnitude k) in *. set (U1 := magnitude u1) in *. set (U2 := magnitude u2) in *.
  assert (U1 <= 7 # 10)%Q as HU1' by lra.
  assert (U2 <= 7 # 10)%Q as HU2' by lra.
  assert (U1 * K <= (7 # 10) * K)%Q as HU1 by (apply Qmult_le_compat_r; lra).
  assert (U2 * K <= (7 # 10) * K)%Q as HU2 by (apply Qmult_le_compat_r; lra).
  assert ((U1 + U2) * K <= (7 # 10) * K)%Q as HU by (apply Qmult_le_compat_r; lra).
  destruct (mul_error false s u1 k Hu1 Hk) as (Hg1 & Hp1 & _); [fold U1 K; lra|].
  destruct (mul_error false s u2 k Hu2 Hk) as (Hg2 & Hp2 & _); [fold U2 K; lra|].
  fold U1 U2 K in Hp1, Hp2.
  set (p1 := F32.mul u1 k) in *. set (p2 := F32.mul u2 k) in *.
  pose proof (magnitude_nonneg p1) as Hnp1. pose proof (magnitude_nonneg p2) as Hnp2.
  set (P1 := magnitude p1) in *. set (P2 := magnitude p2) in *.
  unfold unit_roundoff in *.
  assert (finite_signed s F32.zero) as Hz by (split; [reflexivity | exact I]).
  destruct (add_error s F32.zero p1 Hz Hg1) as (Hga & Ha & _).
  { change (magnitude F32.zero) with 0%Q. fold P1. lra. }
  change (magnitude F32.zero) with 0%Q in Ha. fold P1 in Ha. unfold unit_roundoff in Ha.
  set (a := F32.add F32.zero p1) in *.
  pose proof (magnitude_nonneg a) as Hna. set (A := magnitude a) in *.
  destruct (add_error s a p2 Hga Hg2) as (Hgv & Hv & _).
  { fold A P2. lra. }
  fold A P2 in Hv. fold v in Hgv, Hv.
  split; [exact Hgv|]. set (V := magnitude v) in *.
  unfold unit_roundoff in *. lra.
Qed.

(** the same for one corner *)
Lemma attenuated_single s u1 m e :
  bounded 24 128 m e = true -> 4 <= Z.pos m ->
  finite_signed false u1 -> (magnitude u1 <= 7 # 10)%Q ->
  let k := S754_finite s m e in
  let v := F32.add F32.zero (F32.mul u1 k) in
  finite_signed s v /\ (magnitude v < magnitude k)%Q.
Proof.
  intros Hb Hm Hu1 Hsum k v.
  assert (finite_signed s k) as Hk by (split; [exact Hb | reflexivity]).
  pose proof (magnitude_nonneg u1) as Hn1.
  pose proof (magnitude_finite_pos s m e) as Hkp. fold k in Hkp.
  assert (magnitude k < pow2 128)%Q as Hk128.
  { subst k. cbn [magnitude]. pose proof (bounded_cases m e Hb) as [He Hc].
    change (pow2 128) with (inject_Z 1 * pow2 128)%Q.
    apply scaled_lt'; [lia|].
    assert (Z.pos m < 16777216) by lia.
    assert (2 ^ 24 <= 2 ^ (128 - e)) by (apply Z.pow_le_mono_r; lia).
    change (2 ^ 24) with 16777216 in *. lia. }
  assert (4 * least_positive <= magnitude k)%Q as Hk7.
  { subst k. cbn [magnitude]. pose proof (bounded_cases m e Hb) as [He Hc].
    rewrite <- pow2_least_positive. change 4%Q with (inject_Z 4).
    apply scaled_le'; [lia|].
    assert (0 < 2 ^ (e - -149)) by (apply Z.pow_pos_nonneg; lia). nia. }
  assert (pow2 128 == 4 * pow2 126)%Q as H128 by reflexivity.
  assert (0 < pow2 126)%Q as H126 by apply pow2_pos.
  assert (0 < least_positive)%Q as Ht by (unfold least_positive; reflexivity).
  assert (least_positive < 1 # 100)%Q as Ht1 by (unfold least_positive; reflexivity).
  assert (1 <= pow2 126)%Q as H126' by (change 1%Q with (pow2 0); apply pow2_le; lia).
  set (K := magnitude k) in *. set (U1 := magnitude u1) in *.
  assert (U1 * K <= (7 # 10) * K)%Q as HU1 by (apply Qmult_le_compat_r; lra).
  destruct (mul_error false s u1 k Hu1 Hk) as (Hg1 & Hp1 & _); [fold U1 K; lra|].
  fold U1 K in Hp1.
  set (p1 := F32.mul u1 k) in *.
  pose proof (magnitude_nonneg p1) as Hnp1.
  set (P1 := magnitude p1) in *.
  unfold unit_roundoff in *.
  assert (finite_signed s F32.zero) as Hz by (split; [reflexivity | exact I]).
  destruct (add_error s F32.zero p1 Hz Hg1) as (Hga & Ha & _).
  { change (magnitude F32.zero) with 0%Q. fold P1. lra. }
  change (magnitude F32.zero) with 0%Q in Ha. fold P1 in Ha. unfold unit_roundoff in Ha.
  fold v in Hga, Ha. split; [exact Hga|]. set (V := magnitude v) in *. lra.
Qed.

(** two weights that share a factor of at most 68/100, the other factors
    being a fractional part and its complement *)
Lemma weights_pair a c d :
  finite_signed false a -> finite_signed false c -> finite_signed false d ->
  (magnitude a <= 68 # 100)%Q ->
  (magnitude c + magnitude d <= 1 + unit_roundoff)%Q ->
  finite_signed false (F32.mul a c) /\ finite_signed false (F32.mul a d) /\
  (magnitude (F32.mul a c) + magnitude (F32.mul a d) <= 7 # 10)%Q.
Proof.
  intros Ha Hc Hd HA HCD.
  pose proof (magnitude_nonneg a) as Hna. pose proof (magnitude_nonneg c) as Hnc.
  pose proof (magnitude_nonneg d) as Hnd.
  set (A := magnitude a) in *. set (C := magnitude c) in *. set (D := magnitude d) in *.
  unfold unit_roundoff in *.
  assert (A * C <= (68 # 100) * C)%Q as HAC by (apply Qmult_le_compat_r; lra).
  assert (A * D <= (68 # 100) * D)%Q as HAD by (apply Qmult_le_compat_r; lra).
  assert (0 <= A * C)%Q as HAC0 by (apply Qmult_le_0_compat; lra).
  assert (0 <= A * D)%Q as HAD0 by (apply Qmult_le_0_compat; lra).
  assert (0 < least_positive)%Q as Ht by (unfold least_positive; reflexivity).
  assert (least_positive < 1 # 1000)%Q as Ht1 by (unfold least_positive; reflexivity).
  assert (4 < 3 * pow2 126)%Q as Hbig by reflexivity.
  destruct (mul_error false false a c Ha Hc) as (Hg1 & H1 & _); [fold A C; lra|].
  destruct (mul_error false false a d Ha Hd) as (Hg2 & H2 & _); [fold A D; lra|].
  fold A C D in H1, H2. unfold unit_roundoff in *.
  split; [exact Hg1|]. split; [exact Hg2|]. lra.
Qed.

(** ** A constant 2x2 source *)

Section ConstantSource.
Variables (fmt : FLOformat) (k : float32).

Local Abbreviation src := (constant_field fmt 2 2 k).

Lemma constant_source_valid : valid_field src.
Proof.
  apply constant_field_valid; [lia | lia | destruct fmt; vm_compute; discriminate].
Qed.

Lemma accumulate_constant ch wgt ix iy acc :
  0 <= ch < items_per_block fmt -> 0 <= ix -> 0 <= iy ->
  accumulate src ch wgt ix iy acc =
  if (ix <? 2) && (iy <? 2) then F32.add acc (F32.mul wgt (load k)) else acc.
Proof.
  intros Hch Hix Hiy. unfold accumulate. cbn [constant_field flo_w flo_h].
  destruct (Z.ltb_spec ix 2); [|reflexivity].
  destruct (Z.ltb_spec iy 2); [|reflexivity]. cbn [andb].
  unfold source_value. rewrite sample_value_constant; [reflexivity|].
  unfold cell_index, sample_count. cbn [constant_field flo_w flo_fmt].
  destruct fmt; cbn [items_per_block] in *; lia.
Qed.

Lemma bilinear_last_column ch wt ky :
  0 <= ch < items_per_block fmt -> 0 <= ky <= 1 ->
  bilinear src ch wt 1 ky =
  if ky =? 0
  then F32.add (F32.add F32.zero (F32.mul (w00 wt) (load k))) (F32.mul (w01 wt) (load k))
  else F32.add F32.zero (F32.mul (w00 wt) (load k)).
Proof.
  intros Hch Hky. unfold bilinear.
  rewrite !accumulate_constant by lia.
  assert (ky = 0 \/ ky = 1) as [-> | ->] by lia; reflexivity.
Qed.

Lemma bilinear_last_row ch wt kx :
  0 <= ch < items_per_block fmt -> 0 <= kx <= 1 ->
  bilinear src ch wt kx 1 =
  if kx =? 0
  then F32.add (F32.add F32.zero (F32.mul (w00 wt) (load k))) (F32.mul (w10 wt) (load k))
  else F32.add F32.zero (F32.mul (w00 wt) (load k)).
Proof.
  intros Hch Hkx. unfold bilinear.
  rewrite !accumulate_constant by lia.
  assert (kx = 0 \/ kx = 1) as [-> | ->] by lia; reflexivity.
Qed.

End ConstantSource.

(** the coordinate of the last column or row under the default scale: its
    integer part is 1 and the complement of its fractional part is at most
    68/100 *)
Lemma last_coordinate w :
  3 <= w < 16777216 ->
  let r := F32.div (F32.of_int (w - 1)) (F32.div (F32.of_int w) (F32.of_int 2)) in
  F32.to_int_floor r = 1 /\
  (magnitude (F32.sub F32.one (F32.sub r (F32.of_int (F32.to_int_floor r)))) <= 68 # 100)%Q.
Proof.
  intros Hw r.
  destruct (coordinate_default w (w - 1)) as (Hg & H2 & Hb); [lia | lia|]. fold r in Hg, H2, Hb.
  assert (0 < inject_Z w)%Q as Hwq by (change 0%Q with (inject_Z 0); rewrite <- Zlt_Qlt; lia).
  assert (3 <= inject_Z w)%Q as Hw3
    by (change 3%Q with (inject_Z 3); rewrite <- Zle_Qle; lia).
  set (v := (2 * inject_Z (w - 1) / inject_Z w)%Q).
  assert (v * inject_Z w == 2 * inject_Z (w - 1))%Q as Hv by (subst v; field; lra).
  clearbody v.
  destruct (Hb v Hv) as [_ Hlo].
  assert (inject_Z (w - 1) == inject_Z w - 1)%Q as Hw1.
  { unfold Z.sub. rewrite inject_Z_plus. reflexivity. }
  rewrite Hw1 in Hv.
  assert (4 # 3 <= v)%Q as Hv43 by nra.
  assert (v < 2)%Q as Hv2 by nra.
  unfold unit_roundoff in Hlo. fold r in Hlo.
  destruct (fraction_parts r Hg H2) as (Hk & Hgf & Hgc & Hf & Hf1 & Hc & _).
  unfold unit_roundoff in Hc.
  set (R := magnitude r) in *.
  set (F := magnitude (F32.sub r (F32.of_int (F32.to_int_floor r)))) in *.
  set (C := magnitude (F32.sub F32.one (F32.sub r (F32.of_int (F32.to_int_floor r))))) in *.
  clearbody R F C.
  assert (133 # 100 <= R)%Q as Hr by lra.
  destruct Hk as [[_ Hlt]|[Hk1 _]]; [lra|].
  split; [exact Hk1|].
  rewrite Hk1 in Hf. change (inject_Z 1) with 1%Q in Hf. lra.
Qed.


(** a smaller magnitude, read with the comparison of the program *)
Lemma magnitude_lt_ltb s v m e :
  finite_signed s v -> bounded 24 128 m e = true ->
  (magnitude v < magnitude (S754_finite s m e))%Q ->
  smaller_magnitude v (S754_finite s m e) /\
  (s = false -> F32.ltb v (S754_finite s m e) = true) /\
  (s = true -> F32.ltb (S754_finite s m e) v = true).
Proof.
  intros [Hv Hs] Hb Hlt. unfold smaller_magnitude.
  destruct v as [s'|s'| |s' mv ev]; cbn [signed] in Hs; try contradiction.
  - split; [reflexivity|]. split; intros ->; reflexivity.
  - subst s'. cbn [valid_binary] in Hv. cbn [magnitude SFabs] in *.
    pose proof (bounded_cases m e Hb) as [_ Hc].
    pose proof (bounded_cases mv ev Hv) as [_ Hcv].
    destruct (Z.lt_trichotomy ev e) as [Hev|[Hev|Hev]].
    + split; [apply ltb_lower_exponent; exact Hev|].
      split; intros ->; [apply ltb_lower_exponent; exact Hev|].
      unfold F32.ltb, SFltb, SFcompare.
      rewrite (proj2 (Z.compare_gt_iff e ev)) by lia. reflexivity.
    + subst ev. apply (scaled_lt (Z.pos mv) (Z.pos m) e e) in Hlt; [|lia].
      rewrite Z.sub_diag in Hlt. change (2 ^ 0) with 1 in Hlt.
      split; [apply ltb_lower_mantissa; lia|].
      split; intros ->; [apply ltb_lower_mantissa; lia|].
      unfold F32.ltb, SFltb, SFcompare. rewrite Z.compare_refl.
      change (Pos.compare_cont Eq m mv) with (Pos.compare m mv).
      rewrite (proj2 (Pos.compare_gt_iff m mv)) by lia. reflexivity.
    + exfalso. apply (scaled_lt (Z.pos mv) (Z.pos m) ev e) in Hlt; [|lia].
      assert (2 ^ 1 <= 2 ^ (ev - e)) by (apply Z.pow_le_mono_r; lia).
      change (2 ^ 1) with 2 in *. nia.
Qed.

(** a fractional part and its rounded complement sum to 1 within one
    rounding *)
Lemma complement_sum f c :
  (0 <= f)%Q -> (f < 1)%Q -> (c - (1 - f) <= (1 - f) * unit_roundoff)%Q -> (c + f <= 1 + unit_roundoff)%Q.
Proof. unfold unit_roundoff. intros. nra. Qed.

(** the value of a cell of the last column or row, for the default scales *)
Lemma edge_cell_attenuated fmt k s m e w h x y ch :
  load k = S754_finite s m e -> 4 <= Z.pos m ->
  0 < w < 16777216 -> 0 < h < 16777216 ->
  0 <= x < w -> 0 <= y < h -> x = w - 1 /\ 3 <= w \/ y = h - 1 /\ 3 <= h ->
  0 <= ch < items_per_block fmt ->
  let rx := F32.div (F32.of_int x) (F32.div (F32.of_int w) (F32.of_int 2)) in
  let ry := F32.div (F32.of_int y) (F32.div (F32.of_int h) (F32.of_int 2)) in
  let v := bilinear (constant_field fmt 2 2 k) ch (interpolate2D_weights rx ry)
             (F32.to_int_floor rx) (F32.to_int_floor ry) in
  finite_signed s v /\ (magnitude v < magnitude (load k))%Q.
Proof.
  intros Hk Hm Hw Hh Hx Hy Hedge Hch rx ry v.
  assert (bounded 24 128 m e = true) as Hb
    by (pose proof (load_valid k) as Hv; rewrite Hk in Hv; exact Hv).
  destruct (coordinate_default w x Hw Hx) as (Hgx & Hx2 & _). fold rx in Hgx, Hx2.
  destruct (coordinate_default h y Hh Hy) as (Hgy & Hy2 & _). fold ry in Hgy, Hy2.
  destruct (fraction_parts rx Hgx Hx2) as (Hkx & Hgfx & Hgcx & _ & Hfx1 & Hcx & _).
  destruct (fraction_parts ry Hgy Hy2) as (Hky & Hgfy & Hgcy & _ & Hfy1 & Hcy & _).
  set (kx := F32.to_int_floor rx) in *. set (ky := F32.to_int_floor ry) in *.
  set (fx := F32.sub rx (F32.of_int kx)) in *. set (fy := F32.sub ry (F32.of_int ky)) in *.
  set (cx := F32.sub F32.one fx) in *. set (cy := F32.sub F32.one fy) in *.
  pose proof (complement_sum _ _ (magnitude_nonneg fx) Hfx1 Hcx) as Hsx.
  pose proof (complement_sum _ _ (magnitude_nonneg fy) Hfy1 Hcy) as Hsy.
  assert (0 <= kx <= 1) as Hkx' by (destruct Hkx as [[-> _]|[-> _]]; lia).
  assert (0 <= ky <= 1) as Hky' by (destruct Hky as [[-> _]|[-> _]]; lia).
  assert (w00 (interpolate2D_weights rx ry) = F32.mul cx cy) as E00 by reflexivity.
  assert (w10 (interpolate2D_weights rx ry) = F32.mul fx cy) as E10 by reflexivity.
  assert (w01 (interpolate2D_weights rx ry) = F32.mul cx fy) as E01 by reflexivity.
  subst v. rewrite Hk.
  destruct Hedge as [[Hlast Hw3] | [Hlast Hh3]].
  - (* last column *)
    destruct (last_coordinate w ltac:(lia)) as [K1 Hc68]. rewrite <- Hlast in K1, Hc68.
    fold rx in K1, Hc68. fold kx in K1, Hc68. fold fx cx in Hc68.
    destruct (weights_pair cx cy fy Hgcx Hgcy Hgfy Hc68 Hsy) as (Hg1 & Hg2 & Hsum).
    rewrite K1, (bilinear_last_column fmt k ch _ ky Hch Hky'), E00, E01, Hk.
    destruct (Z.eqb_spec ky 0).
    + apply attenuated_pair; assumption.
    + apply attenuated_single; try assumption.
      pose proof (magnitude_nonneg (F32.mul cx fy)). lra.
  - (* last row *)
    destruct (last_coordinate h ltac:(lia)) as [K1 Hc68]. rewrite <- Hlast in K1, Hc68.
    fold ry in K1, Hc68. fold ky in K1, Hc68. fold fy cy in Hc68.
    assert (magnitude cx + magnitude fx <= 1 + unit_roundoff)%Q as Hsx' by lra.
    destruct (weights_pair cy cx fx Hgcy Hgcx Hgfx Hc68 Hsx') as (Hg1 & Hg2 & Hsum).
    rewrite (F32_mul_comm cy cx) in Hg1, Hsum. rewrite (F32_mul_comm cy fx) in Hg2, Hsum.
    rewrite K1, (bilinear_last_row fmt k ch _ kx Hch Hkx'), E00, E10, Hk.
    destruct (Z.eqb_spec kx 0).
    + apply attenuated_pair; assumption.
    + apply attenuated_single; try assumption.
      pose proof (magnitude_nonneg (F32.mul fx cy)). lra.
Qed.

(** every cell is computed: the coordinates under the default scales
    convert to 0 or 1 *)
Lemma default_scale_total w h x y :
  0 < w < 16777216 -> 0 < h < 16777216 -> 0 <= x < w -> 0 <= y < h ->
  0 <= F32.to_int_floor (F32.div (F32.of_int x) (F32.div (F32.of_int w) (F32.of_int 2))) /\
  0 <= F32.to_int_floor (F32.div (F32.of_int y) (F32.div (F32.of_int h) (F32.of_int 2))).
Proof.
  intros Hw Hh Hx Hy.
  destruct (coordinate_default w x Hw Hx) as (Hgx & Hx2 & _).
  destruct (coordinate_default h y Hh Hy) as (Hgy & Hy2 & _).
  destruct (fraction_parts _ Hgx Hx2) as (Hkx & _).
  destruct (fraction_parts _ Hgy Hy2) as (Hky & _).
  split; [destruct Hkx as [[-> _]|[-> _]] | destruct Hky as [[-> _]|[-> _]]]; lia.
Qed.


(** C1, in magnitude. A corner whose x-index is at least the source width
    or whose y-index is at least the source height leaves the sums
    unchanged, and the weights of the other corners are the plain bilinear
    weights. For a 2x2 source whose samples all are a finite k of either
    sign and of magnitude at least 2^-147, resampled with the default
    scales to w x h cells (both below 2^24, the sample count fitting an
    [int]), every cell of the last column when w is at least 3, and of the
    last row when h is at least 3, holds the sum of the corners inside the
    source with their plain weights; that value is a zero or has the sign
    of k, and is strictly smaller than k in magnitude: strictly less than k
    for a positive k, strictly greater than k for a negative k. On the 4x4
    grid the value is [edge_value] and is strictly less than k for every
    positive finite k, the subnormal ones below 2^-147 included. *)
Theorem boundary_attenuation (fmt : FLOformat) (k : float32) (s : bool) (m : positive)
    (e : Z) (w h : Z) (sx sy : spec_float) :
  load k = S754_finite s m e ->
  0 < w < 16777216 -> 0 < h < 16777216 ->
  sample_count fmt w h <= Int32.max_signed ->
  effective_scale sx w 2 = F32.div (F32.of_int w) (F32.of_int 2) ->
  effective_scale sy h 2 = F32.div (F32.of_int h) (F32.of_int 2) ->
  (forall in_flo npb wt ix iy wx wy acc,
     flo_w in_flo <= ix \/ flo_h in_flo <= iy ->
     corner in_flo npb wt ix iy wx wy acc = Ok acc) /\
  exists out,
    resample (constant_field fmt 2 2 k) w h sx sy = Ok out /\
    (4 <= Z.pos m ->
     forall x y ch,
       0 <= x < w -> 0 <= y < h ->
       x = w - 1 /\ 3 <= w \/ y = h - 1 /\ 3 <= h ->
       0 <= ch < items_per_block fmt ->
       let rx := F32.div (F32.of_int x) (F32.div (F32.of_int w) (F32.of_int 2)) in
       let ry := F32.div (F32.of_int y) (F32.div (F32.of_int h) (F32.of_int 2)) in
       exists v,
         channel out ch x y = Ok v /\
         v = bilinear (constant_field fmt 2 2 k) ch (interpolate2D_weights rx ry)
               (F32.to_int_floor rx) (F32.to_int_floor ry) /\
         signed s v /\ smaller_magnitude v (load k) /\
         (s = false -> F32.ltb v (load k) = true) /\
         (s = true -> F32.ltb (load k) v = true)) /\
    (s = false -> w = 4 -> h = 4 ->
     forall x y ch,
       0 <= x <= 3 -> 0 <= y <= 3 -> x = 3 \/ y = 3 ->
       0 <= ch < items_per_block fmt ->
       channel out ch x y = Ok (edge_value x y (load k)) /\
       F32.ltb (edge_value x y (load k)) (load k) = true).
Proof.
  intros Hk Hw Hh Hfit Hsx Hsy.
  split; [intros; apply corner_out_of_range; assumption|].
  set (f := constant_field fmt 2 2 k).
  assert (valid_field f) as Hvf by apply constant_source_valid.
  assert (bounded 24 128 m e = true) as Hb
    by (pose proof (load_valid k) as Hv; rewrite Hk in Hv; exact Hv).
  assert (forall x y, 0 <= x < w -> 0 <= y < h ->
            sample_cell f (items_per_block (flo_fmt f))
              (effective_scale sx w (flo_w f)) (effective_scale sy h (flo_h f)) x y =
            Ok (bilinear_sums f
                  (interpolate2D_weights
                     (F32.div (F32.of_int x) (F32.div (F32.of_int w) (F32.of_int 2)))
                     (F32.div (F32.of_int y) (F32.div (F32.of_int h) (F32.of_int 2))))
                  (F32.to_int_floor
                     (F32.div (F32.of_int x) (F32.div (F32.of_int w) (F32.of_int 2))))
                  (F32.to_int_floor
                     (F32.div (F32.of_int y) (F32.div (F32.of_int h) (F32.of_int 2))))))
    as Hcell.
  { intros x y Hx Hy. change (flo_w f) with 2. change (flo_h f) with 2. rewrite Hsx, Hsy.
    destruct (default_scale_total w h x y Hw Hh Hx Hy) as [Hkx Hky].
    apply sample_cell_bilinear; assumption. }
  destruct (resample_channel f w h sx sy) as (out & Hrun & Hch);
    [lia | lia | exact Hfit | intros x y Hx Hy; eexists; apply Hcell; assumption |].
  exists out. split; [exact Hrun|]. split.
  - intros Hm x y ch Hx Hy Hedge Hc rx ry.
    destruct (edge_cell_attenuated fmt k s m e w h x y ch Hk Hm Hw Hh Hx Hy Hedge Hc)
      as [[Hvalid Hsign] Hlt].
    fold f rx ry in Hvalid, Hsign, Hlt.
    set (v := bilinear f ch (interpolate2D_weights rx ry)
                (F32.to_int_floor rx) (F32.to_int_floor ry)) in *.
    exists v. split.
    + rewrite (Hch x y ch _ Hx Hy Hc (Hcell x y Hx Hy)). fold rx ry.
      assert (sums_channel ch (bilinear_sums f (interpolate2D_weights rx ry)
                                 (F32.to_int_floor rx) (F32.to_int_floor ry)) = v) as ->.
      { unfold sums_channel, bilinear_sums. cbn [sum_u sum_v sum_c]. subst v.
        destruct (Z.eqb_spec ch 0) as [->|]; [reflexivity|].
        destruct (Z.eqb_spec ch 1) as [->|]; [reflexivity|].
        change (flo_fmt f) with fmt.
        revert Hc. destruct fmt; cbn [items_per_block]; intros Hc; [lia|].
        replace ch with 2 by lia. reflexivity. }
      rewrite load_store by exact Hvalid. reflexivity.
    + split; [reflexivity|]. split; [exact Hsign|].
      rewrite Hk in Hlt |- *.
      apply magnitude_lt_ltb; [split; assumption | exact Hb | exact Hlt].
  - intros -> -> ->.
    destruct (edge_cells_double fmt k m e sx sy Hk Hsx Hsy) as (_ & out' & Hrun' & Hedge).
    fold f in Hrun'. rewrite Hrun in Hrun'. ok_inj Hrun'. subst out'. exact Hedge.
Qed.

Lemma boundary_attenuation_witness :
  load (store F32.one) = S754_finite false 8388608 (-23) /\
  exists out,
    resample (constant_field FF_FLO 2 2 (store F32.one)) 3 5 F32.minus_one F32.minus_one
      = Ok out /\
    channel out 0 2 4 = Ok (S754_finite false 8947847 (-25)) /\
    smaller_magnitude (S754_finite false 8947847 (-25)) F32.one /\
    F32.ltb (S754_finite false 8947847 (-25)) F32.one = true.
Proof.
  split; [reflexivity|].
  destruct (boundary_attenuation FF_FLO (store F32.one) false 8388608 (-23) 3 5
              F32.minus_one F32.minus_one eq_refl) as (_ & out & E & H & _);
    [lia | lia | vm_compute; discriminate | reflexivity | reflexivity |].
  exists out. split; [exact E|].
  destruct (H ltac:(lia) 2 4 0) as (v & Hc & Hv & _ & Hsm & Hlt & _);
    [lia | lia | left; lia | cbn; lia |].
  assert (v = S754_finite false 8947847 (-25)) as -> by (rewrite Hv; vm_compute; reflexivity).
  split; [exact Hc|]. split; [exact Hsm | exact (Hlt eq_refl)].
Defined.
